(** * E-sign backend: the signing workflow engine

    A shallow embedding of the signing routes of the Express server
    (customer-sign, company-sign and the helpers they call) together with
    the properties of the workflow: role extraction, the signature store,
    the contract state machine, the signing transaction and the
    finalization bookkeeping.  The routes around them (contract creation
    and lookup, the sign-request mail), the normalizer of the request
    body, the address test and the builder of the mutual-TLS agent are
    embedded as well.

    Conventions of the embedding.
    - A JavaScript string is a [string]: a sequence of code units, here the
      units below 256.  [trim] and [toLowerCase] are the ECMAScript
      functions restricted to that range.
    - The MySQL tables are lists of rows; the unique key
      (contract_id, role) of the signatures table is kept by [upsertSignature].
    - A connection carries the committed database, the working copy of the
      open transaction and the list of statements issued so far.
    - CURRENT_TIMESTAMP is the clock value handed to the call.
    - Requests interleave: a signing call in flight keeps what its SELECTs
      have read, and its writes take effect on the tables of the moment it
      commits ([World], [step]). *)

From Stdlib Require Import ZArith Ascii Lia Permutation.
From stdpp Require Import base option list sorting strings pretty gmap.

Local Open Scope Z_scope.

(** ** JavaScript string primitives *)

Module Js.

(** White space of [String.prototype.trim] among the code units below
    256: TAB, LF, VT, FF, CR, SP and NBSP. *)
Definition is_ws (c : ascii) : bool :=
  let n := nat_of_ascii c in
  ((9 <=? n)%nat && (n <=? 13)%nat) || (n =? 32)%nat || (n =? 160)%nat.

Fixpoint trimStart (s : string) : string :=
  match s with
  | EmptyString => EmptyString
  | String c s' => if is_ws c then trimStart s' else s
  end.

Fixpoint trimEnd (s : string) : string :=
  match s with
  | EmptyString => EmptyString
  | String c s' =>
      match trimEnd s' with
      | EmptyString => if is_ws c then EmptyString else String c EmptyString
      | t => String c t
      end
  end.

Definition trim (s : string) : string := trimEnd (trimStart s).

(** [v.slice(0, max)] *)
Definition slice0 (max : nat) (v : string) : string := String.substring 0 max v.

(** [toLowerCase] on one code unit: A-Z, and the Latin-1 capitals
    U+00C0..U+00DE except the multiplication sign U+00D7. *)
Definition lower_char (c : ascii) : ascii :=
  let n := nat_of_ascii c in
  if ((65 <=? n)%nat && (n <=? 90)%nat)
     || ((192 <=? n)%nat && (n <=? 222)%nat && negb (n =? 215)%nat)
  then ascii_of_nat (n + 32) else c.

Fixpoint toLowerCase (s : string) : string :=
  match s with
  | EmptyString => EmptyString
  | String c s' => String (lower_char c) (toLowerCase s')
  end.

Definition startsWith (p s : string) : bool := String.prefix p s.

(** [s.includes(needle)] *)
Fixpoint includes (needle s : string) : bool :=
  String.prefix needle s
  || match s with
     | EmptyString => false
     | String _ s' => includes needle s'
     end.

(** [s.split(sep)] for a separator of one code unit. *)
Fixpoint split (sep : ascii) (s : string) : list string :=
  match s with
  | EmptyString => [EmptyString]
  | String c s' =>
      if Ascii.eqb c sep then EmptyString :: split sep s'
      else match split sep s' with
           | [] => [String c EmptyString]
           | w :: ws => String c w :: ws
           end
  end.

(** [arr.join(sep)] *)
Fixpoint join (sep : string) (l : list string) : string :=
  match l with
  | [] => EmptyString
  | [x] => x
  | x :: l' => x +:+ sep +:+ join sep l'
  end.

(** Truthiness of a string: non-empty. *)
Definition truthy (s : string) : bool :=
  match s with EmptyString => false | _ => true end.

End Js.

(** ** Utilities of the server *)

(** [isDataUrl]: the payload is a string that starts with "data:image/".
    An image that is not a string is [None]. *)
Definition isDataUrl (s : option string) : bool :=
  match s with
  | Some v => Js.startsWith "data:image/" v
  | None => false
  end.

(** [safeStr(s, max)]: [None] is JavaScript's null or undefined; a present
    value is given by its String coercion. *)
Definition safeStr (s : option string) (max : nat) : option string :=
  match s with
  | None => None
  | Some x =>
      let v := Js.trim x in
      if Js.truthy v
      then Some (if (max <? String.length v)%nat then Js.slice0 max v else v)
      else None
  end.

(** [validateRoleBasic] on a role that is a string (the keys of the
    submitted object always are). *)
Definition validateRoleBasic (role : string) : bool :=
  Js.truthy role && negb (100 <? String.length role)%nat.

(** ** Role extractor *)

(** One element of [config.signatures]: the [role] and [id] properties,
    [None] when absent or null. *)
Record SigSlot := { slot_role : option string; slot_id : option string }.

(** The configuration as [JSON.parse(contract.config || "{}")] gives it:
    the parse throws, or it yields a document whose [signatures] is an
    array ([Some]) or anything else ([None]). *)
Inductive Config :=
| BadJson (err : string)
| Parsed (signatures : option (list SigSlot)).

(** [new Set(roles)] spread back into an array: every value once, at the
    place of its first insertion. *)
Definition set_add (seen : list string) (r : string) : list string :=
  if bool_decide (r ∈ seen) then seen else seen ++ [r].

Definition uniqueInOrder (roles : list string) : list string :=
  fold_left set_add roles [].

Definition slotRole (s : SigSlot) : option string :=
  match safeStr (slot_role s) 100 with
  | Some r => Some r
  | None => safeStr (slot_id s) 100
  end.

Definition pushRole (roles : list string) (s : SigSlot) : list string :=
  match slotRole s with
  | Some r => roles ++ [r]
  | None => roles
  end.

Definition extractRequiredRolesFromConfig (sigs : option (list SigSlot)) : list string :=
  let sigs := default [] sigs in
  let roles := fold_left pushRole sigs [] in
  uniqueInOrder roles.

Record SplitRoles := { customer : list string; company : list string }.

Definition isCustomerRole (r : string) : bool :=
  Js.includes "customer" (Js.toLowerCase r).

Definition isCompanyRole (r : string) : bool :=
  Js.includes "company" (Js.toLowerCase r).

Definition classifyRole (acc : SplitRoles) (r : string) : SplitRoles :=
  if isCustomerRole r
  then {| customer := customer acc ++ [r]; company := company acc |}
  else if isCompanyRole r
  then {| customer := customer acc; company := company acc ++ [r] |}
  else acc.

Definition splitRolesBySigner (requiredRoles : list string) : SplitRoles :=
  fold_left classifyRole requiredRoles {| customer := []; company := [] |}.


(** ** Data model *)

Inductive Party := CUSTOMER | COMPANY.

(** Modelled from the spec: the schema of [contracts] is not part of the
    sources; the status column is an enumeration of the three lifecycle
    states, the literals the routes compare with and write. *)
Inductive Status := PENDING | CUSTOMER_SIGNED | COMPLETED.

Global Instance Party_eq_dec : EqDecision Party.
Proof. solve_decision. Defined.

Global Instance Status_eq_dec : EqDecision Status.
Proof. solve_decision. Defined.

(** The text stored in the [signer_role] column. *)
Definition partyName (p : Party) : string :=
  match p with CUSTOMER => "CUSTOMER" | COMPANY => "COMPANY" end.

(** A row of [contracts]. *)
Record Contract := {
  c_id : Z;
  document_id : string;
  config : Config;
  status : Status;
  company_email : option string;
  customer_email : option string;
  final_sent_at : option Z
}.

(** A row of [signatures]. *)
Record Signature := {
  contract_id : Z;
  role : string;
  signature_image : option string;
  signer_name : option string;
  signer_position : option string;
  signer_role : Party;   (* 'CUSTOMER' or 'COMPANY', as the routes write it *)
  signed_at : Z
}.

Record Database := {
  contracts : list Contract;
  signatures : list Signature
}.

(** One entry of the normalized payload ([normalizeSignaturesPayload]):
    the role is a key of the submitted object; the image is [Some] when
    it is a string. *)
Record Item := {
  it_role : string;
  it_image : option string;
  it_name : option string;
  it_position : option string
}.

(** What [res.status(..).json(..)] sends. *)
Inductive Body :=
| Message (message : string)
| MessageAllowed (message : string) (allowed : list string)
| MessagePartial (message : string) (signedCount requiredCount : nat)
                 (missing : list string)
| MessageError (message : string) (error : string).

Record Response := { http_status : nat; body : Body }.

Definition json (b : Body) : Response := {| http_status := 200; body := b |}.

(** An e-mail handed to the transporter. *)
Record Mail := {
  mail_to : string;
  mail_subject : string;
  mail_attachment : option string
}.

(** ** Signature store *)

Definition optTruthy (s : option string) : bool :=
  match s with Some v => Js.truthy v | None => false end.

Definition sameKey (contractId : Z) (r : string) (s : Signature) : Prop :=
  contract_id s = contractId ∧ role s = r.

Global Instance sameKey_dec contractId r s : Decision (sameKey contractId r s).
Proof. unfold sameKey. apply _. Defined.

(** Modelled from the spec: the schema of [signatures] is not part of the
    sources; the table has a uniqueness constraint on (contract, role),
    which is the key ON DUPLICATE KEY UPDATE reacts to. *)
Definition uniqueKey (sigs : list Signature) : Prop :=
  NoDup (fmap (λ s, (contract_id s, role s)) sigs).

(** The row written by ON DUPLICATE KEY UPDATE: image, name, position and
    signed_at are replaced, contract, role and signer_role stay. *)
Definition overwrite (now : Z) (image name position : option string)
    (s : Signature) : Signature :=
  {| contract_id := contract_id s;
     role := role s;
     signature_image := image;
     signer_name := name;
     signer_position := position;
     signer_role := signer_role s;
     signed_at := now |}.

Definition upsertRows (now : Z) (contractId : Z) (r : string)
    (signerRole : Party) (image name position : option string)
    (sigs : list Signature) : list Signature :=
  if bool_decide (Exists (sameKey contractId r) sigs)
  then fmap (λ s, if bool_decide (sameKey contractId r s)
                 then overwrite now image name position s else s) sigs
  else sigs ++ [ {| contract_id := contractId;
                    role := r;
                    signature_image := image;
                    signer_name := name;
                    signer_position := position;
                    signer_role := signerRole;
                    signed_at := now |} ].

(** ORDER BY signer_role ASC, role ASC, signed_at ASC, with the strings
    compared code unit by code unit. *)
Definition rowCompare (a b : Signature) : comparison :=
  match String.compare (partyName (signer_role a)) (partyName (signer_role b)) with
  | Eq =>
      match String.compare (role a) (role b) with
      | Eq => Z.compare (signed_at a) (signed_at b)
      | c => c
      end
  | c => c
  end.

Definition rowLe (a b : Signature) : Prop := rowCompare a b ≠ Gt.

Global Instance rowLe_dec : RelDecision rowLe.
Proof. intros a b. unfold rowLe. apply _. Defined.

Definition selectSignatures (contractId : Z) (sigs : list Signature) : list Signature :=
  merge_sort rowLe (filter (λ s, contract_id s = contractId) sigs).

(** [{ CUSTOMER: {}, COMPANY: {} }] *)
Record SignedMap := {
  ofCustomer : gmap string Signature;
  ofCompany : gmap string Signature
}.

Definition signedOf (m : SignedMap) (p : Party) : gmap string Signature :=
  match p with CUSTOMER => ofCustomer m | COMPANY => ofCompany m end.

Definition groupRow (out : SignedMap) (r : Signature) : SignedMap :=
  match signer_role r with
  | CUSTOMER => {| ofCustomer := <[role r := r]> (ofCustomer out);
                   ofCompany := ofCompany out |}
  | COMPANY => {| ofCustomer := ofCustomer out;
                  ofCompany := <[role r := r]> (ofCompany out) |}
  end.

Definition groupSignaturesToMap (rows : list Signature) : SignedMap :=
  fold_left groupRow rows {| ofCustomer := ∅; ofCompany := ∅ |}.

(** [!signedMap?.[signerRole]?.[r]?.signature_image] *)
Definition lacksImage (signedMap : SignedMap) (signerRole : Party) (r : string) : bool :=
  match signedOf signedMap signerRole !! r with
  | Some row => negb (optTruthy (signature_image row))
  | None => true
  end.

Definition assertSignedAll (requiredRoles : list string) (signedMap : SignedMap)
    (signerRole : Party) : list string :=
  fold_left (λ missing r, if lacksImage signedMap signerRole r
                          then missing ++ [r] else missing)
            requiredRoles [].

(** [assertRolesAllowed]: [Some msg] when it throws [Error(msg)]. *)
Fixpoint assertRolesAllowedFrom (allowed : list string) (payloadRoles : list string)
    : option string :=
  match payloadRoles with
  | [] => None
  | r :: rest =>
      if bool_decide (r ∈ allowed)
      then assertRolesAllowedFrom allowed rest
      else Some ("ROLE_NOT_ALLOWED:" +:+ r +:+ ":" +:+ Js.join ", " allowed)
  end.

Definition assertRolesAllowed (payloadRoles allowedRoles : list string) : option string :=
  assertRolesAllowedFrom (uniqueInOrder allowedRoles) payloadRoles.

(** The handler of the error thrown by [assertRolesAllowed]. *)
Definition roleNotAllowedResponse (party : Party) (msg : string) : Response :=
  if Js.startsWith "ROLE_NOT_ALLOWED:" msg
  then
    let parts := Js.split ":" msg in
    {| http_status := 400;
       body := MessageAllowed
                 ("Role not allowed for " +:+ partyName party +:+ ": "
                    +:+ nth 1 parts "undefined")
                 (filter (λ w, Js.truthy w)
                    (fmap Js.trim (Js.split "," (nth 2 parts "")))) |}
  else {| http_status := 400; body := Message msg |}.

(** ** Connection, transaction and external services *)

Inductive Statement :=
| StBegin
| StRollback
| StCommit
| StSelectContract (documentId : string)
| StSelectSignatures (contractId : Z)
| StUpsert (contractId : Z) (r : string) (signerRole : Party)
| StUpdateStatus (contractId : Z) (st : Status)
| StSetFinalSent (contractId : Z).

(** The server as one request sees it: the committed tables, the working
    copy of the connection's transaction, the statements issued and the
    mails handed to the transporter. *)
Record Sys := {
  committed : Database;
  working : Database;
  issued : list Statement;
  outbox : list Mail
}.

(** The process environment and the external services.  A service that
    throws is [Some msg] / [inl msg], with the message of the error. *)
Record Env := {
  now : Z;
  FRONTEND_BASE_URL : string;
  FINAL_VIEW_PATH : string;
  ONEAUTHEN_ENABLED : bool;
  sendMailError : Mail → option string;
  renderPdfFromUrl : string → string + string;
  signPdfWithOneAuthen : string → string + string
}.

(** A route either has sent its response ([Respond], the [return res...]
    of the source) or goes on with a value. *)
Inductive Step (A : Type) :=
| Respond (r : Response)
| Next (a : A).
Arguments Respond {A} r.
Arguments Next {A} a.

Definition Route (A : Type) : Type := Sys → Step A * Sys.

Definition ret {A} (a : A) : Route A := λ s, (Next a, s).

Definition bind {A B} (m : Route A) (k : A → Route B) : Route B :=
  λ s, match m s with
       | (Respond r, s') => (Respond r, s')
       | (Next a, s') => k a s'
       end.

Definition respond {A} (r : Response) : Route A := λ s, (Respond r, s).

Notation "'let*' x := m 'in' k" := (bind m (λ x, k))
  (at level 10, x name, m at level 100, k at level 200).
Notation "m ;;; k" := (bind m (λ _, k))
  (at level 100, k at level 200, right associativity).

Definition logged (st : Statement) (s : Sys) (w : Database) : Sys :=
  {| committed := committed s; working := w;
     issued := issued s ++ [st]; outbox := outbox s |}.

Definition beginTransaction : Route unit :=
  λ s, (Next (), logged StBegin s (committed s)).

Definition rollback : Route unit :=
  λ s, (Next (), logged StRollback s (committed s)).

Definition commit : Route unit :=
  λ s, (Next (), {| committed := working s; working := working s;
                    issued := issued s ++ [StCommit]; outbox := outbox s |}).

Definition findContract (documentId : string) (db : Database) : option Contract :=
  head (filter (λ c, document_id c = documentId) (contracts db)).

Definition getContractByDocumentId (documentId : string) : Route (option Contract) :=
  λ s, (Next (findContract documentId (working s)),
        logged (StSelectContract documentId) s (working s)).

Definition getSignaturesByContractId (contractId : Z) : Route (list Signature) :=
  λ s, (Next (selectSignatures contractId (signatures (working s))),
        logged (StSelectSignatures contractId) s (working s)).

Definition upsertSignature (t : Z) (contractId : Z) (signerRole : Party) (it : Item)
    : Route unit :=
  λ s, (Next (),
        logged (StUpsert contractId (it_role it) signerRole) s
          {| contracts := contracts (working s);
             signatures := upsertRows t contractId (it_role it) signerRole
                             (it_image it) (it_name it) (it_position it)
                             (signatures (working s)) |}).

Definition setStatus (contractId : Z) (st : Status) (c : Contract) : Contract :=
  if bool_decide (c_id c = contractId)
  then {| c_id := c_id c; document_id := document_id c; config := config c;
          status := st; company_email := company_email c;
          customer_email := customer_email c; final_sent_at := final_sent_at c |}
  else c.

(** UPDATE contracts SET status = ? WHERE id = ? *)
Definition updateStatus (contractId : Z) (st : Status) : Route unit :=
  λ s, (Next (),
        logged (StUpdateStatus contractId st) s
          {| contracts := fmap (setStatus contractId st) (contracts (working s));
             signatures := signatures (working s) |}).

Definition unsent (contractId : Z) (c : Contract) : Prop :=
  c_id c = contractId ∧ final_sent_at c = None.

Global Instance unsent_dec contractId c : Decision (unsent contractId c).
Proof. unfold unsent. apply _. Defined.

Definition setFinalSent (t : Z) (contractId : Z) (c : Contract) : Contract :=
  if bool_decide (unsent contractId c)
  then {| c_id := c_id c; document_id := document_id c; config := config c;
          status := status c; company_email := company_email c;
          customer_email := customer_email c; final_sent_at := Some t |}
  else c.

Definition markFinalSent (t : Z) (contractId : Z) (db : Database) : Database :=
  {| contracts := fmap (setFinalSent t contractId) (contracts db);
     signatures := signatures db |}.

(** UPDATE contracts SET final_sent_at = CURRENT_TIMESTAMP
    WHERE id = ? AND final_sent_at IS NULL, issued on the pool: it acts on
    the committed tables and yields [affectedRows]. *)
Definition updateFinalSentAt (t : Z) (contractId : Z) : Route nat :=
  λ s, (Next (length (filter (unsent contractId) (contracts (committed s)))),
        {| committed := markFinalSent t contractId (committed s);
           working := working s;
           issued := issued s ++ [StSetFinalSent contractId];
           outbox := outbox s |}).

(** [transporter.sendMail]; a rejection is caught by the route's outer
    [catch], which rolls back and answers 500. *)
Definition sendMail (env : Env) (failure : string) (m : Mail) : Route unit :=
  λ s, match sendMailError env m with
       | Some err =>
           (rollback ;;; respond {| http_status := 500;
                                    body := MessageError failure err |}) s
       | None =>
           (Next (), {| committed := committed s; working := working s;
                        issued := issued s; outbox := outbox s ++ [m] |})
       end.

(** [uniqEmails] *)
Definition uniqEmails (arr : list (option string)) : list string :=
  uniqueInOrder (filter (λ w, Js.truthy w) (fmap (λ s, Js.trim (default "" s)) arr)).

(** ** The signing routes *)

Definition bad (code : nat) (msg : string) : Response :=
  {| http_status := code; body := Message msg |}.

(** The validation loop over the payload. *)
Fixpoint validateItems (items : list Item) : Route unit :=
  match items with
  | [] => ret ()
  | it :: rest =>
      if negb (validateRoleBasic (it_role it))
      then rollback ;;; respond (bad 400 ("Invalid role: " +:+ it_role it))
      else if negb (isDataUrl (it_image it))
      then rollback ;;;
           respond (bad 400 ("Invalid signature image for role: " +:+ it_role it))
      else validateItems rest
  end.

Definition checkRolesAllowed (party : Party) (items : list Item)
    (allowedRoles : list string) : Route unit :=
  match assertRolesAllowed (fmap it_role items) allowedRoles with
  | Some msg => rollback ;;; respond (roleNotAllowedResponse party msg)
  | None => ret ()
  end.

Fixpoint upsertAll (t : Z) (contractId : Z) (party : Party) (items : list Item)
    : Route unit :=
  match items with
  | [] => ret ()
  | it :: rest =>
      upsertSignature t contractId party it ;;; upsertAll t contractId party rest
  end.

(** [JSON.parse(contract.config || "{}")] and the two extractor calls; a
    parse error goes to the outer [catch]. *)
Definition requiredRoles (failure : string) (c : Contract) : Route SplitRoles :=
  match config c with
  | BadJson err =>
      rollback ;;; respond {| http_status := 500; body := MessageError failure err |}
  | Parsed sigs => ret (splitRolesBySigner (extractRequiredRolesFromConfig sigs))
  end.

Definition notifyCompany : string := "customer-signed notice".
Definition finalPdf : string := "final PDF".

(** POST /api/contracts/:documentId/customer-sign, from the normalized
    payload on. *)
Definition customerSignRoute (env : Env) (documentId : string) (items : list Item)
    : Route Response :=
  if bool_decide (items = []) then respond (bad 400 "signatures payload is empty")
  else
  beginTransaction ;;;
  let* found := getContractByDocumentId documentId in
  match found with
  | None => rollback ;;; respond (bad 404 "Contract not found")
  | Some contract =>
  if bool_decide (status contract = COMPLETED)
  then rollback ;;; respond (bad 409 "Contract already completed")
  else if bool_decide (status contract = CUSTOMER_SIGNED)
  then rollback ;;; respond (bad 409 "Customer already signed")
  else
  let* split := requiredRoles "Customer sign failed" contract in
  let requiredCustomer := customer split in
  if bool_decide (requiredCustomer = [])
  then rollback ;;;
       respond (bad 500 "Cannot determine required CUSTOMER roles from config.signatures. Please use role naming like 'customer_*'.")
  else
  validateItems items ;;;
  checkRolesAllowed CUSTOMER items requiredCustomer ;;;
  upsertAll (now env) (c_id contract) CUSTOMER items ;;;
  let* sigRows := getSignaturesByContractId (c_id contract) in
  let signedMap := groupSignaturesToMap sigRows in
  let missing := assertSignedAll requiredCustomer signedMap CUSTOMER in
  if negb (bool_decide (missing = []))
  then commit ;;;
       respond (json (MessagePartial "Customer signed partially"
                        (size (ofCustomer signedMap)) (length requiredCustomer) missing))
  else
  updateStatus (c_id contract) CUSTOMER_SIGNED ;;;
  commit ;;;
  (if optTruthy (company_email contract)
   then sendMail env "Customer sign failed"
          {| mail_to := Js.trim (default "" (company_email contract));
             mail_subject := notifyCompany;
             mail_attachment := None |}
   else ret ()) ;;;
  respond (json (Message "Customer signed successfully"))
  end.

(** The part of company-sign that ends with the final e-mail: it yields
    the contract row read in the transaction when the pipeline has sent
    the mail and goes on to record it. *)
Definition companySignUntilMail (env : Env) (documentId : string) (items : list Item)
    : Route Contract :=
  if bool_decide (items = []) then respond (bad 400 "signatures payload is empty")
  else
  beginTransaction ;;;
  let* found := getContractByDocumentId documentId in
  match found with
  | None => rollback ;;; respond (bad 404 "Contract not found")
  | Some contract =>
  if negb (bool_decide (status contract = CUSTOMER_SIGNED))
  then rollback ;;; respond (bad 400 "Contract is not ready for company sign")
  else
  let* split := requiredRoles "Company sign failed" contract in
  let requiredCompany := company split in
  if bool_decide (requiredCompany = [])
  then rollback ;;;
       respond (bad 500 "Cannot determine required COMPANY roles from config.signatures. Please use role naming like 'company_*'.")
  else
  validateItems items ;;;
  checkRolesAllowed COMPANY items requiredCompany ;;;
  upsertAll (now env) (c_id contract) COMPANY items ;;;
  let* sigRows := getSignaturesByContractId (c_id contract) in
  let signedMap := groupSignaturesToMap sigRows in
  let missing := assertSignedAll requiredCompany signedMap COMPANY in
  if negb (bool_decide (missing = []))
  then commit ;;;
       respond (json (MessagePartial "Company signed partially"
                        (size (ofCompany signedMap)) (length requiredCompany) missing))
  else
  updateStatus (c_id contract) COMPLETED ;;;
  commit ;;;
  let toList := uniqEmails [company_email contract; customer_email contract] in
  if bool_decide (toList = [])
  then respond (json (Message "Company signed successfully (no recipients)"))
  else if bool_decide (is_Some (final_sent_at contract))
  then respond (json (Message "Company signed successfully (PDF already sent)"))
  else
  let pdfUrl := FRONTEND_BASE_URL env +:+ FINAL_VIEW_PATH env +:+ "/" +:+ documentId in
  match renderPdfFromUrl env pdfUrl with
  | inl err =>
      respond {| http_status := 500; body := MessageError "Failed to render PDF" err |}
  | inr rendered =>
  match (if ONEAUTHEN_ENABLED env then signPdfWithOneAuthen env rendered
         else inr rendered) with
  | inl err =>
      respond {| http_status := 500;
                 body := MessageError "Failed to sign PDF with OneAuthen" err |}
  | inr pdfBuffer =>
  sendMail env "Company sign failed"
    {| mail_to := Js.join "," toList;
       mail_subject := finalPdf;
       mail_attachment := Some pdfBuffer |} ;;;
  ret contract
  end end end.

(** The end of company-sign: the conditional update of [final_sent_at]
    and the two answers that follow it. *)
Definition recordFinalSent (env : Env) (contract : Contract) : Route Response :=
  let* affectedRows := updateFinalSentAt (now env) (c_id contract) in
  if bool_decide (affectedRows = 0%nat)
  then respond (json (Message "Company signed successfully (PDF emailed, final_sent_at was already set)"))
  else respond (json (Message ("Company signed successfully (PDF emailed"
                                 +:+ (if ONEAUTHEN_ENABLED env then ", OneAuthen signed" else "")
                                 +:+ ")"))).

(** POST /api/contracts/:documentId/company-sign, from the normalized
    payload on. *)
Definition companySignRoute (env : Env) (documentId : string) (items : list Item)
    : Route Response :=
  let* contract := companySignUntilMail env documentId items in
  recordFinalSent env contract.

(** A request served on a fresh connection over the tables [db]. *)
Definition fresh (db : Database) : Sys :=
  {| committed := db; working := db; issued := []; outbox := [] |}.

(** A route always answers: its last step is a [Respond]. *)
Definition answer (r : Step Response) : Response :=
  match r with Respond x => x | Next x => x end.

Definition customerSign (env : Env) (documentId : string) (items : list Item)
    (db : Database) : Response * Sys :=
  let (r, s) := customerSignRoute env documentId items (fresh db) in (answer r, s).

Definition companySign (env : Env) (documentId : string) (items : list Item)
    (db : Database) : Response * Sys :=
  let (r, s) := companySignRoute env documentId items (fresh db) in (answer r, s).

(** An upsert among the issued statements. *)
Definition isUpsert (st : Statement) : bool :=
  match st with StUpsert _ _ _ => true | _ => false end.

Definition isWrite (st : Statement) : bool :=
  match st with
  | StUpsert _ _ _ | StUpdateStatus _ _ | StSetFinalSent _ => true
  | _ => false
  end.

(** ** The other routes that write to [contracts] *)

(** Modelled from the spec: the schema of [contracts] is not part of the
    sources; [id] is the generated key of the row, here one more than the
    largest key in the table. *)
Definition nextId (cs : list Contract) : Z :=
  1 + foldr (λ c m, Z.max (c_id c) m) 0 cs.

(** POST /api/contracts: the INSERT of a PENDING contract; the stored
    configuration is [JSON.stringify(config)], which always parses. *)
Definition createContract (documentId : string) (sigs : option (list SigSlot))
    (companyEmail : string) (db : Database) : Database :=
  {| contracts := contracts db ++
       [ {| c_id := nextId (contracts db);
            document_id := documentId;
            config := Parsed sigs;
            status := PENDING;
            company_email := Some companyEmail;
            customer_email := None;
            final_sent_at := None |} ];
     signatures := signatures db |}.

Definition setCustomerEmail (email : string) (contractId : Z) (c : Contract) : Contract :=
  if bool_decide (c_id c = contractId)
  then {| c_id := c_id c; document_id := document_id c; config := config c;
          status := status c; company_email := company_email c;
          customer_email := Some email; final_sent_at := final_sent_at c |}
  else c.

(** POST /api/send-sign-email: UPDATE contracts SET customer_email = ?
    WHERE id = ? for the contract found by its document id. *)
Definition sendSignEmail (documentId email : string) (db : Database) : Database :=
  match findContract documentId db with
  | None => db
  | Some c =>
      {| contracts := fmap (setCustomerEmail (Js.trim email) (c_id c)) (contracts db);
         signatures := signatures db |}
  end.

(** ** The server over time

    Requests interleave.  A signing call reads the contract inside its
    transaction and commits later; other requests are served in between.
    [signing] holds the calls in flight, each with the tables as its
    SELECTs see them: the consistent snapshot taken by the first read, or,
    when the connection reads what is committed at each statement, the
    signatures of a later moment ([look]).  The writes of the call, the
    upserts by key and the UPDATE of the status by id, take effect on the
    tables as they are when the call commits.  The company route is cut
    once more where it has left the transaction for the renderer, the
    signing authority and the mail: [finalizing] holds the contract rows
    of the calls that have mailed the final PDF and have still to record
    it.  POST /api/contracts and the UPDATE of send-sign-email are single
    statements. *)
Record Signing := {
  sg_party : Party;
  sg_env : Env;
  sg_documentId : string;
  sg_items : list Item;
  sg_read : Database
}.

Record World := {
  tables : Database;
  finalizing : list Contract;
  signing : list Signing
}.

(** The call in flight, run on what it has read. *)
Definition served (p : Signing) : Step Contract * Sys :=
  match sg_party p with
  | CUSTOMER =>
      let (r, s) := customerSignRoute (sg_env p) (sg_documentId p) (sg_items p)
                      (fresh (sg_read p)) in
      (Respond (answer r), s)
  | COMPANY =>
      companySignUntilMail (sg_env p) (sg_documentId p) (sg_items p) (fresh (sg_read p))
  end.

(** The statements of a transaction applied to the tables of the moment
    it commits.  The upserts carry the items of the payload in their
    order; what is written before a rollback is dropped. *)
Record Replay := {
  rp_items : list Item;
  rp_working : Database;
  rp_committed : Database
}.

Definition replayStatement (t : Z) (acc : Replay) (st : Statement) : Replay :=
  match st with
  | StBegin | StRollback =>
      {| rp_items := rp_items acc; rp_working := rp_committed acc;
         rp_committed := rp_committed acc |}
  | StCommit =>
      {| rp_items := rp_items acc; rp_working := rp_working acc;
         rp_committed := rp_working acc |}
  | StUpsert contractId r signerRole =>
      match rp_items acc with
      | [] => acc
      | it :: rest =>
          {| rp_items := rest;
             rp_working :=
               {| contracts := contracts (rp_working acc);
                  signatures := upsertRows t contractId r signerRole (it_image it)
                                  (it_name it) (it_position it)
                                  (signatures (rp_working acc)) |};
             rp_committed := rp_committed acc |}
      end
  | StUpdateStatus contractId st' =>
      {| rp_items := rp_items acc;
         rp_working := {| contracts := setStatus contractId st' <$> contracts (rp_working acc);
                          signatures := signatures (rp_working acc) |};
         rp_committed := rp_committed acc |}
  | StSelectContract _ | StSelectSignatures _ | StSetFinalSent _ => acc
  end.

Definition replay (t : Z) (items : list Item) (log : list Statement) (db : Database)
    : Database :=
  rp_committed (foldl (replayStatement t)
                  {| rp_items := items; rp_working := db; rp_committed := db |} log).

(** The tables after the call in flight [p] has committed on [db]. *)
Definition landed (p : Signing) (db : Database) : Database :=
  replay (now (sg_env p)) (sg_items p) (issued (served p).2) db.

(** The call reads the signatures that are committed by now. *)
Definition look (p : Signing) (db : Database) : Signing :=
  {| sg_party := sg_party p; sg_env := sg_env p; sg_documentId := sg_documentId p;
     sg_items := sg_items p;
     sg_read := {| contracts := contracts (sg_read p); signatures := signatures db |} |}.

Inductive step : World → World → Prop :=
| step_create documentId sigs email w :
    step w {| tables := createContract documentId sigs email (tables w);
              finalizing := finalizing w; signing := signing w |}
| step_send_sign_email documentId email w :
    step w {| tables := sendSignEmail documentId email (tables w);
              finalizing := finalizing w; signing := signing w |}
| step_sign_begin party env documentId items w :
    step w {| tables := tables w; finalizing := finalizing w;
              signing := {| sg_party := party; sg_env := env;
                            sg_documentId := documentId; sg_items := items;
                            sg_read := tables w |} :: signing w |}
| step_sign_look p before after w :
    signing w = before ++ p :: after →
    step w {| tables := tables w; finalizing := finalizing w;
              signing := before ++ look p (tables w) :: after |}
| step_sign_end p before after w :
    signing w = before ++ p :: after →
    step w {| tables := landed p (tables w);
              finalizing := match (served p).1 with
                            | Next c => c :: finalizing w
                            | Respond _ => finalizing w
                            end;
              signing := before ++ after |}
| step_record_final_sent env c before after w :
    finalizing w = before ++ c :: after →
    step w {| tables := committed (recordFinalSent env c (fresh (tables w))).2;
              finalizing := before ++ after; signing := signing w |}.

Definition emptyWorld : World :=
  {| tables := {| contracts := []; signatures := [] |}; finalizing := [];
     signing := [] |}.

Definition reachable (w : World) : Prop := rtc step emptyWorld w.

(** ** Vocabulary of the statements *)

(** Deduplication that keeps the first occurrence of every value. *)
Fixpoint keepFirst (l : list string) : list string :=
  match l with
  | [] => []
  | x :: t => x :: filter (λ y, y ≠ x) (keepFirst t)
  end.

(** The contract [contractId] has a stored signature for role [r] under
    [party] whose image is present. *)
Definition storedImage (db : Database) (contractId : Z) (party : Party) (r : string)
    : Prop :=
  Exists (λ row, contract_id row = contractId ∧ role row = r
                 ∧ signer_role row = party ∧ optTruthy (signature_image row))
         (signatures db).

Global Instance storedImage_dec db contractId party r :
  Decision (storedImage db contractId party r).
Proof. unfold storedImage. apply _. Defined.

(** The tables after the upserts of a payload. *)
Definition withSignatures (t : Z) (contractId : Z) (party : Party) (items : list Item)
    (db : Database) : Database :=
  {| contracts := contracts db;
     signatures := foldl (λ sigs it, upsertRows t contractId (it_role it) party
                                       (it_image it) (it_name it) (it_position it) sigs)
                         (signatures db) items |}.

(** An item passes the validation of the route. *)
Definition itemValid (it : Item) : bool :=
  validateRoleBasic (it_role it) && isDataUrl (it_image it).

(** The required roles of a party in a contract whose configuration
    parses. *)
Definition requiredOf (party : Party) (sigs : option (list SigSlot)) : list string :=
  let split := splitRolesBySigner (extractRequiredRolesFromConfig sigs) in
  match party with CUSTOMER => customer split | COMPANY => company split end.

(** The three status guards of the routes and what they answer. *)
Inductive Guard := AlreadyCompleted | CustomerAlreadySigned | NotReadyForCompany.

Definition violatedGuard (party : Party) (st : Status) : option Guard :=
  match party, st with
  | CUSTOMER, COMPLETED => Some AlreadyCompleted
  | CUSTOMER, CUSTOMER_SIGNED => Some CustomerAlreadySigned
  | CUSTOMER, PENDING => None
  | COMPANY, CUSTOMER_SIGNED => None
  | COMPANY, _ => Some NotReadyForCompany
  end.

Definition guardAnswer (g : Guard) : Response :=
  match g with
  | AlreadyCompleted => bad 409 "Contract already completed"
  | CustomerAlreadySigned => bad 409 "Customer already signed"
  | NotReadyForCompany => bad 400 "Contract is not ready for company sign"
  end.

Definition guardMessage (g : Guard) : string :=
  match body (guardAnswer g) with
  | Message m => m
  | MessageAllowed m _ => m
  | MessagePartial m _ _ _ => m
  | MessageError m _ => m
  end.

Definition signRoute (party : Party) : Env → string → list Item → Database → Response * Sys :=
  match party with CUSTOMER => customerSign | COMPANY => companySign end.

Definition configErrorAnswer (party : Party) : Response :=
  match party with
  | CUSTOMER => bad 500 "Cannot determine required CUSTOMER roles from config.signatures. Please use role naming like 'customer_*'."
  | COMPANY => bad 500 "Cannot determine required COMPANY roles from config.signatures. Please use role naming like 'company_*'."
  end.

Definition statusOf (db : Database) (contractId : Z) : list Status :=
  fmap status (filter (λ c, c_id c = contractId) (contracts db)).



(** ** Sample data

    A contract with two customer roles and one company role, and the
    states it goes through. *)

Definition sampleEnv : Env :=
  {| now := 7;
     FRONTEND_BASE_URL := "http://localhost:5173";
     FINAL_VIEW_PATH := "/view-signed";
     ONEAUTHEN_ENABLED := false;
     sendMailError := λ _, None;
     renderPdfFromUrl := λ _, inr "%PDF-1.7";
     signPdfWithOneAuthen := λ pdf, inr pdf |}.

Definition sampleSlots : option (list SigSlot) :=
  Some [ {| slot_role := Some "customer_a"; slot_id := None |};
         {| slot_role := Some "customer_b"; slot_id := None |};
         {| slot_role := Some "company_w"; slot_id := None |} ].

Definition sampleContract (st : Status) (sent : option Z) : Contract :=
  {| c_id := 1; document_id := "DOC-1"; config := Parsed sampleSlots;
     status := st; company_email := Some "office@example.com";
     customer_email := None; final_sent_at := sent |}.

Definition sampleImage : option string := Some "data:image/png;base64,AAAA".
Definition otherImage : option string := Some "data:image/png;base64,BBBB".

Definition sampleItem (r : string) : Item :=
  {| it_role := r; it_image := sampleImage; it_name := None; it_position := None |}.

Definition sampleRow (r : string) (p : Party) (image : option string) : Signature :=
  {| contract_id := 1; role := r; signature_image := image; signer_name := None;
     signer_position := None; signer_role := p; signed_at := 3 |}.

(** Nothing signed yet. *)
Definition sampleDb : Database :=
  {| contracts := [sampleContract PENDING None]; signatures := [] |}.

(** [customer_a] has signed in an earlier call. *)
Definition sampleDbOneSigned : Database :=
  {| contracts := [sampleContract PENDING None];
     signatures := [sampleRow "customer_a" CUSTOMER otherImage] |}.

(** An empty configuration: no role can be derived. *)
Definition sampleDbNoRoles (st : Status) : Database :=
  {| contracts := [ {| c_id := 1; document_id := "DOC-1"; config := Parsed None;
                       status := st; company_email := None;
                       customer_email := None; final_sent_at := None |} ];
     signatures := [] |}.

(** A role of 101 characters. *)
Definition longRole : string :=
  "customer_xxxxxxxxxxxxxxxxxxxxxxxxxxxxxxxxxxxxxxxxxxxxxxxxxxxxxxxxxxxxxxxxxxxxxxxxxxxxxxxxxxxxxxxxxxxx".

(** A role of 101 characters whose trimmed value has 100. *)
Definition paddedRole : string :=
  " customer_xxxxxxxxxxxxxxxxxxxxxxxxxxxxxxxxxxxxxxxxxxxxxxxxxxxxxxxxxxxxxxxxxxxxxxxxxxxxxxxxxxxxxxxxxxx".

Definition expectedStatus (party : Party) : Status :=
  match party with CUSTOMER => PENDING | COMPANY => CUSTOMER_SIGNED end.

(** The life of the sample contract, request by request. *)
Definition worldCreated : World :=
  Eval vm_compute in
    {| tables := createContract "DOC-1" sampleSlots "office@example.com"
                   (tables emptyWorld);
       finalizing := []; signing := [] |}.

Definition worldCustomerSigned : World :=
  Eval vm_compute in
    {| tables := committed
                   (customerSign sampleEnv "DOC-1"
                      [sampleItem "customer_a"; sampleItem "customer_b"]
                      (tables worldCreated)).2;
       finalizing := []; signing := [] |}.

Definition sysMailed : Sys :=
  Eval vm_compute in
    (companySignUntilMail sampleEnv "DOC-1" [sampleItem "company_w"]
       (fresh (tables worldCustomerSigned))).2.

Definition worldMailed : World :=
  {| tables := committed sysMailed;
     finalizing := [sampleContract CUSTOMER_SIGNED None]; signing := [] |}.

Definition worldSent : World :=
  Eval vm_compute in
    {| tables := committed (recordFinalSent sampleEnv (sampleContract CUSTOMER_SIGNED None)
                              (fresh (tables worldMailed))).2;
       finalizing := []; signing := [] |}.

(** A customer-sign call that has read the contract right after its
    creation and is still in flight while the requests above are served,
    and the state once it has committed. *)
Definition staleCall : Signing :=
  {| sg_party := CUSTOMER; sg_env := sampleEnv; sg_documentId := "DOC-1";
     sg_items := [sampleItem "customer_a"; sampleItem "customer_b"];
     sg_read := tables worldCreated |}.

Definition whileStale (w : World) : World :=
  {| tables := tables w; finalizing := finalizing w; signing := [staleCall] |}.

Definition worldStale : World :=
  Eval vm_compute in
    {| tables := landed staleCall (tables worldSent);
       finalizing := []; signing := [] |}.

(** ** Further helpers of the server *)

(** [str.slice(-n)] *)
Definition sliceLast (n : nat) (str : string) : string :=
  String.substring (String.length str - n) n str.

(** [redact(s)], for a string or null. *)
Definition redact (s : option string) : string :=
  match s with
  | None => ""
  | Some str =>
      if negb (Js.truthy str) then ""
      else if (String.length str <=? 10)%nat then "***"
      else Js.slice0 4 str +:+ "..." +:+ sliceLast 4 str
  end.

(** The class of a role in [splitRolesBySigner]: the party whose list
    the role is pushed to, if any. *)
Definition classOf (r : string) : option Party :=
  if isCustomerRole r then Some CUSTOMER
  else if isCompanyRole r then Some COMPANY
  else None.

(** ** Vocabulary of the further statements *)

(** Every row is stored under the party its role is classified to. *)
Definition partyConsistent (sigs : list Signature) : Prop :=
  Forall (λ row, classOf (role row) = Some (signer_role row)) sigs.

(** Every stored image is a data URL. *)
Definition imagesPresent (sigs : list Signature) : Prop :=
  Forall (λ row, isDataUrl (signature_image row)) sigs.

Definition storeInv (db : Database) : Prop :=
  uniqueKey (signatures db)
  ∧ partyConsistent (signatures db)
  ∧ imagesPresent (signatures db).

(** The contract rows with the status of [contractId] set to [st]. *)
Definition withStatus (contractId : Z) (st : Status) (db db' : Database) : Database :=
  {| contracts := setStatus contractId st <$> contracts db;
     signatures := signatures db' |}.

(** The notice to the company after the customer has signed. *)
Definition companyNotice (contract : Contract) : Mail :=
  {| mail_to := Js.trim (default "" (company_email contract));
     mail_subject := notifyCompany;
     mail_attachment := None |}.

(** [Object.keys(signedMap[party]).length] after the upserts. *)
Definition signedCount (party : Party) (contractId : Z) (db : Database) : nat :=
  size (signedOf (groupSignaturesToMap (selectSignatures contractId (signatures db)))
          party).

(** The required roles of [party] that have no stored image in [db]. *)
Definition missingOf (party : Party) (sigs : option (list SigSlot)) (contractId : Z)
    (db : Database) : list string :=
  filter (λ r, ¬ storedImage db contractId party r) (requiredOf party sigs).

(** The page the final PDF is rendered from. *)
Definition pdfUrlOf (env : Env) (documentId : string) : string :=
  FRONTEND_BASE_URL env +:+ FINAL_VIEW_PATH env +:+ "/" +:+ documentId.

(** The recipients of the final PDF. *)
Definition recipientsOf (contract : Contract) : list string :=
  uniqEmails [company_email contract; customer_email contract].

(** The mail that carries the final PDF. *)
Definition finalMail (contract : Contract) (pdf : string) : Mail :=
  {| mail_to := Js.join "," (recipientsOf contract);
     mail_subject := finalPdf;
     mail_attachment := Some pdf |}.

(** The rendered document after the optional external signature. *)
Definition finalDocument (env : Env) (rendered : string) : string + string :=
  if ONEAUTHEN_ENABLED env then signPdfWithOneAuthen env rendered else inr rendered.

Definition serverError (message err : string) : Response :=
  {| http_status := 500; body := MessageError message err |}.

(** Every required role of [party] in the contract [contractId] has a
    stored image, and there is such a role. *)
Definition allStored (party : Party) (sigs : option (list SigSlot)) (contractId : Z)
    (db : Database) : Prop :=
  requiredOf party sigs ≠ []
  ∧ ∀ r, r ∈ requiredOf party sigs → storedImage db contractId party r.

(** The status of a contract is backed by its signatures. *)
Definition signedAsStatus (db : Database) (c : Contract) : Prop :=
  ∃ sigs, config c = Parsed sigs
          ∧ (status c ≠ PENDING → allStored CUSTOMER sigs (c_id c) db)
          ∧ (status c = COMPLETED → allStored COMPANY sigs (c_id c) db).

Definition nextStatus (party : Party) : Status :=
  match party with CUSTOMER => CUSTOMER_SIGNED | COMPANY => COMPLETED end.

(** The signature row is of a contract of the table, for a role that the
    configuration of that contract requires of the party of the row. *)
Definition rowBacked (cs : list Contract) (row : Signature) : Prop :=
  ∃ c sigs, c ∈ cs ∧ c_id c = contract_id row ∧ config c = Parsed sigs
            ∧ role row ∈ requiredOf (signer_role row) sigs.

(** What a call in flight has read is behind the tables: its contracts
    are still there, with their id and their configuration, and so is
    every image it has seen. *)
Definition behind (read db : Database) : Prop :=
  (∀ c, c ∈ contracts read →
        ∃ c', c' ∈ contracts db ∧ c_id c' = c_id c ∧ config c' = config c)
  ∧ (∀ contractId party r, storedImage read contractId party r →
                           storedImage db contractId party r).

Definition readInv (db : Database) (p : Signing) : Prop :=
  storeInv (sg_read p)
  ∧ Forall (signedAsStatus (sg_read p)) (contracts (sg_read p))
  ∧ behind (sg_read p) db.

(** Both parties have signed every role required of them. *)
Definition fullySigned (db : Database) (c : Contract) : Prop :=
  status c ≠ PENDING
  ∧ ∃ sigs, config c = Parsed sigs
            ∧ allStored CUSTOMER sigs (c_id c) db
            ∧ allStored COMPANY sigs (c_id c) db.

(** What every reachable state of the server satisfies. *)
Definition serverInv (w : World) : Prop :=
  NoDup (c_id <$> contracts (tables w))
  ∧ storeInv (tables w)
  ∧ Forall (rowBacked (contracts (tables w))) (signatures (tables w))
  ∧ Forall (signedAsStatus (tables w)) (contracts (tables w))
  ∧ Forall (readInv (tables w)) (signing w)
  ∧ Forall (λ c, is_Some (final_sent_at c) → fullySigned (tables w) c)
           (contracts (tables w))
  ∧ Forall (λ f, ∃ c, c ∈ contracts (tables w) ∧ c_id c = c_id f
                      ∧ fullySigned (tables w) c)
           (finalizing w).

(** Over any number of requests a contract row keeps its place and its
    fixed columns, a status that has left PENDING does not return to it, a
    [final_sent_at] that is set keeps its value, and a stored image stays
    stored. *)
Definition grows (db db' : Database) : Prop :=
  (∀ i c, contracts db !! i = Some c →
          ∃ c', contracts db' !! i = Some c'
                ∧ c_id c' = c_id c ∧ document_id c' = document_id c
                ∧ config c' = config c ∧ company_email c' = company_email c
                ∧ (status c ≠ PENDING → status c' ≠ PENDING)
                ∧ (∀ t, final_sent_at c = Some t → final_sent_at c' = Some t))
  ∧ (∀ contractId party r, storedImage db contractId party r →
                           storedImage db' contractId party r).

(** What one step does to the tables. *)
Inductive Effect (w : World) (db' : Database) : Prop :=
| effect_none : db' = tables w → Effect w db'
| effect_created documentId sigs email :
    db' = createContract documentId sigs email (tables w) → Effect w db'
| effect_address email contractId :
    db' = {| contracts := setCustomerEmail email contractId <$> contracts (tables w);
             signatures := signatures (tables w) |} →
    Effect w db'
| effect_sent t f :
    f ∈ finalizing w → db' = markFinalSent t (c_id f) (tables w) → Effect w db'
| effect_signed p contract sigs (move : bool) :
    p ∈ signing w →
    contract ∈ contracts (sg_read p) →
    config contract = Parsed sigs →
    status contract = expectedStatus (sg_party p) →
    sg_items p ≠ [] →
    Forall (λ it, itemValid it) (sg_items p) →
    Forall (λ it, it_role it ∈ requiredOf (sg_party p) sigs) (sg_items p) →
    (move = true →
     missingOf (sg_party p) sigs (c_id contract)
       (withSignatures (now (sg_env p)) (c_id contract) (sg_party p) (sg_items p)
          (sg_read p)) = []) →
    db' = (if move
           then withStatus (c_id contract) (nextStatus (sg_party p)) (tables w)
                  (withSignatures (now (sg_env p)) (c_id contract) (sg_party p)
                     (sg_items p) (tables w))
           else withSignatures (now (sg_env p)) (c_id contract) (sg_party p)
                  (sg_items p) (tables w)) →
    Effect w db'.

(** ** The request body *)

(** A value of [req.body] as [express.json()] parses it.  A number is
    given by its string form, the result of [String(n)], which is ["0"]
    for both zeros and for no other number; the properties of an object
    are its own keys in the order of [Object.keys], each key once.
    JavaScript's [undefined] is the [None] of [option Json]. *)
#[warnings="-register-all"]
Inductive Json :=
| JNull
| JBool (b : bool)
| JNumber (shown : string)
| JString (s : string)
| JArray (elements : list Json)
| JObject (properties : list (string * Json)).

(** Truthiness of a value. *)
Definition toBoolean (v : option Json) : bool :=
  match v with
  | None | Some JNull => false
  | Some (JBool b) => b
  | Some (JNumber shown) => negb (String.eqb shown "0")
  | Some (JString s) => Js.truthy s
  | Some (JArray _) | Some (JObject _) => true
  end.

(** [typeof v === "object"] *)
Definition typeofObject (v : option Json) : bool :=
  match v with
  | Some JNull | Some (JArray _) | Some (JObject _) => true
  | _ => false
  end.

(** [typeof v === "string"] *)
Definition asString (v : option Json) : option string :=
  match v with Some (JString s) => Some s | _ => None end.

(** [String(v)]; [None] when the conversion throws a TypeError.  An object
    of the body has no callable property of its own, so an own property
    [toString] hides [Object.prototype.toString] and leaves only
    [valueOf], which yields no primitive: the conversion throws.  An array
    joins the string forms of its elements, null as the empty string. *)
Fixpoint jsString (v : Json) : option string :=
  match v with
  | JNull => Some "null"
  | JBool true => Some "true"
  | JBool false => Some "false"
  | JNumber shown => Some shown
  | JString s => Some s
  | JArray l =>
      Js.join "," <$> mapM (λ x, match x with JNull => Some "" | _ => jsString x end) l
  | JObject ps =>
      if bool_decide ("toString" ∈ ps.*1) then None else Some "[object Object]"
  end.

(** [Object.keys(v)] with [v[key]] beside each key: the properties of an
    object, the indices of an array. *)
Definition entries (v : Json) : list (string * Json) :=
  match v with
  | JObject ps => ps
  | JArray l => imap (λ i x, (pretty i, x)) l
  | _ => []
  end.

(** [v.key] for the property names the server reads, none of which an
    array, a string, a number or a boolean has. *)
Definition field (v : Json) (key : string) : option Json :=
  match v with
  | JObject ps => snd <$> head (filter (λ p, p.1 = key) ps)
  | _ => None
  end.

(** [a || b] *)
Definition orElse (a b : option Json) : option Json :=
  if toBoolean a then a else b.

(** [a ?? b] *)
Definition nullish (a b : option Json) : option Json :=
  match a with
  | None | Some JNull => b
  | _ => a
  end.

(** [safeStr(v, max)] on a value of the body: null and undefined give
    null; any other value goes through [String], which may throw
    (the outer [None]). *)
Definition safeStrOf (v : option Json) (max : nat) : option (option string) :=
  match v with
  | None | Some JNull => Some None
  | Some x => (λ text, safeStr (Some text) max) <$> jsString x
  end.

(** [v.image || v.signature_image || v.dataUrl || v.signature || null] *)
Definition imageOf (v : Json) : option Json :=
  orElse (orElse (orElse (orElse (field v "image") (field v "signature_image"))
                         (field v "dataUrl"))
                 (field v "signature"))
         (Some JNull).

(** [v.signer_name ?? v.name ?? v.signerName ?? null] *)
Definition nameOf (v : Json) : option Json :=
  nullish (field v "signer_name")
    (nullish (field v "name") (nullish (field v "signerName") (Some JNull))).

(** [v.signer_position ?? v.position ?? v.signerPosition ?? null] *)
Definition positionOf (v : Json) : option Json :=
  nullish (field v "signer_position")
    (nullish (field v "position") (nullish (field v "signerPosition") (Some JNull))).

(** The body of the loop of [normalizeSignaturesPayload]; [None] when it
    throws. *)
Definition normalizeEntry (role : string) (v : Json) : option Item :=
  match v with
  | JString s =>
      Some {| it_role := role; it_image := Some s; it_name := None;
              it_position := None |}
  | JArray _ | JObject _ =>
      match safeStrOf (nameOf v) 100 with
      | None => None
      | Some name =>
          match safeStrOf (positionOf v) 255 with
          | None => None
          | Some position =>
              Some {| it_role := role; it_image := asString (imageOf v);
                      it_name := name; it_position := position |}
          end
      end
  | _ =>
      Some {| it_role := role; it_image := None; it_name := None;
              it_position := None |}
  end.

(** The loop over the keys: the first entry that throws ends it. *)
Fixpoint normalizeEntries (l : list (string * Json)) : option (list Item) :=
  match l with
  | [] => Some []
  | (role, v) :: rest =>
      match normalizeEntry role v with
      | None => None
      | Some it =>
          match normalizeEntries rest with
          | None => None
          | Some out => Some (it :: out)
          end
      end
  end.

(** [normalizeSignaturesPayload]; [None] when it throws. *)
Definition normalizeSignaturesPayload (signatures : option Json)
    : option (list Item) :=
  if negb (toBoolean signatures) || negb (typeofObject signatures) then Some []
  else match signatures with
       | Some v => normalizeEntries (entries v)
       | None => Some []
       end.

(** The two signing routes from the request body on.  The normalizer runs
    before the [try] of the handler: when it throws, the handler sends no
    answer and has touched nothing ([None]). *)
Definition signRequest (party : Party) (env : Env) (documentId : string)
    (signatures : option Json) (db : Database) : option (Response * Sys) :=
  if negb (toBoolean signatures) || negb (typeofObject signatures)
  then Some (bad 400 "signatures required", fresh db)
  else match normalizeSignaturesPayload signatures with
       | None => None
       | Some items => Some (signRoute party env documentId items db)
       end.

(** The property names of an image, of a name and of a position, in the
    order the normalizer tries them. *)
Definition imageKeys : list string :=
  ["image"; "signature_image"; "dataUrl"; "signature"].

Definition nameKeys : list string := ["signer_name"; "name"; "signerName"].

Definition positionKeys : list string :=
  ["signer_position"; "position"; "signerPosition"].

Definition nonNull (v : option Json) : bool :=
  match v with None | Some JNull => false | _ => true end.

(** [k] is the first of [keys] whose value in [v] passes [test]. *)
Definition firstKey (test : option Json → bool) (keys : list string) (v : Json)
    (k : string) : Prop :=
  ∃ i, keys !! i = Some k ∧ test (field v k) = true
       ∧ ∀ j k', (j < i)%nat → keys !! j = Some k' → test (field v k') = false.

(** The payload with every image as a plain string, and with every image
    as an object with an [image] property. *)
Definition shortForm (ps : list (string * string)) : Json :=
  JObject ((λ p, (p.1, JString p.2)) <$> ps).

Definition longForm (ps : list (string * string)) : Json :=
  JObject ((λ p, (p.1, JObject [("image", JString p.2)])) <$> ps).

(** ** The address test *)

(** Regular expressions over code units, as far as the pattern of
    [isEmail] needs them, matched by derivatives. *)
Inductive Re :=
| ReVoid
| ReEps
| ReClass (p : ascii → bool)
| ReCat (a b : Re)
| ReAlt (a b : Re)
| ReStar (a : Re).

(** [a+] *)
Definition RePlus (a : Re) : Re := ReCat a (ReStar a).

Fixpoint nullable (r : Re) : bool :=
  match r with
  | ReVoid => false
  | ReEps => true
  | ReClass _ => false
  | ReCat a b => nullable a && nullable b
  | ReAlt a b => nullable a || nullable b
  | ReStar _ => true
  end.

Fixpoint deriv (c : ascii) (r : Re) : Re :=
  match r with
  | ReVoid | ReEps => ReVoid
  | ReClass p => if p c then ReEps else ReVoid
  | ReCat a b =>
      ReAlt (ReCat (deriv c a) b) (if nullable a then deriv c b else ReVoid)
  | ReAlt a b => ReAlt (deriv c a) (deriv c b)
  | ReStar a => ReCat (deriv c a) (ReStar a)
  end.

(** [/^r$/.test(s)] *)
Fixpoint reMatch (r : Re) (s : string) : bool :=
  match s with
  | EmptyString => nullable r
  | String c s' => reMatch (deriv c r) s'
  end.

(** The strings of a regular expression. *)
Inductive lang : Re → string → Prop :=
| lang_eps : lang ReEps ""
| lang_class p c : p c = true → lang (ReClass p) (String c "")
| lang_cat a b s t : lang a s → lang b t → lang (ReCat a b) (s +:+ t)
| lang_alt_l a b s : lang a s → lang (ReAlt a b) s
| lang_alt_r a b s : lang b s → lang (ReAlt a b) s
| lang_star_nil a : lang (ReStar a) ""
| lang_star_cons a s t : lang a s → lang (ReStar a) t → lang (ReStar a) (s +:+ t).

(** [[^\s@]] *)
Definition plainChar (c : ascii) : bool := negb (Js.is_ws c || Ascii.eqb c "@").

(** [/^[^\s@]+@[^\s@]+\.[^\s@]+$/] *)
Definition emailRe : Re :=
  ReCat (RePlus (ReClass plainChar))
    (ReCat (ReClass (Ascii.eqb "@"))
       (ReCat (RePlus (ReClass plainChar))
          (ReCat (ReClass (Ascii.eqb "."))
             (RePlus (ReClass plainChar))))).

(** [String(s || "")]; [None] when [String] throws. *)
Definition textOf (s : option Json) : option string :=
  match s with
  | Some v => if toBoolean s then jsString v else Some ""
  | None => Some ""
  end.

(** [isEmail(s)]; [None] when it throws. *)
Definition isEmail (s : option Json) : option bool :=
  (λ text, reMatch emailRe (Js.trim text)) <$> textOf s.

(** Every code unit of the string passes the test. *)
Fixpoint allChars (p : ascii → bool) (w : string) : bool :=
  match w with
  | EmptyString => true
  | String c w' => p c && allChars p w'
  end.

(** A non-empty run of code units that are neither white space nor [@]. *)
Definition plainWord (w : string) : bool := Js.truthy w && allChars plainChar w.

(** ** POST /api/send-sign-email *)

(** A row of [email_logs]. *)
Record EmailLog := { log_contract_id : Z; log_email : string }.

Definition signRequest_subject : string := "sign request".

(** The mail with the signing link. *)
Definition signMail (address : string) : Mail :=
  {| mail_to := address; mail_subject := signRequest_subject;
     mail_attachment := None |}.

(** What the route leaves behind: the tables, the rows of [email_logs]
    and the mails sent. *)
Definition Desk : Type := Database * list EmailLog * list Mail.

(** The contract with the address stored. *)
Definition withCustomerEmail (address : string) (contractId : Z) (db : Database)
    : Database :=
  {| contracts := setCustomerEmail address contractId <$> contracts db;
     signatures := signatures db |}.

(** The route from the request body on: [email] is any value of the body,
    [documentId] a string or absent.  The whole handler is inside its
    [try]: an exception of [isEmail] or of [String(email)] and a
    rejection of the transporter are answered 500 "Send email failed".
    Its queries go to the pool, each one committed at once. *)
Definition sendSignEmailRoute (env : Env) (email : option Json)
    (documentId : option string) (db : Database) (logs : list EmailLog)
    : Response * Desk :=
  if negb (toBoolean email) || negb (optTruthy documentId)
  then (bad 400 "email & documentId required", (db, logs, []))
  else
  match isEmail email with
  | None => (bad 500 "Send email failed", (db, logs, []))
  | Some false => (bad 400 "invalid email", (db, logs, []))
  | Some true =>
      match findContract (default "" documentId) db with
      | None => (bad 404 "Contract not found", (db, logs, []))
      | Some c =>
          match email ≫= jsString with
          | None => (bad 500 "Send email failed", (db, logs, []))
          | Some text =>
              let address := Js.trim text in
              let db' := withCustomerEmail address (c_id c) db in
              match sendMailError env (signMail address) with
              | Some _ => (bad 500 "Send email failed", (db', logs, []))
              | None =>
                  (json (Message "Email sent successfully"),
                   (db',
                    logs ++ [ {| log_contract_id := c_id c;
                                 log_email := address |} ],
                    [signMail address]))
              end
          end
      end
  end.

(** ** POST /api/contracts and GET /api/contracts/:documentId *)

(** One element of [config.signatures] as the role extractor reads it:
    [safeStr(s?.role, 100) || safeStr(s?.id, 100)] looks at the id only
    when the role gives nothing.  [None] when a [String] it calls throws. *)
Definition slotOf (s : Json) : option SigSlot :=
  let idText : option (option string) :=
    match field s "id" with
    | None | Some JNull => Some None
    | Some i => Some <$> jsString i
    end in
  match field s "role" with
  | None | Some JNull => (λ i, {| slot_role := None; slot_id := i |}) <$> idText
  | Some r =>
      match jsString r with
      | None => None
      | Some text =>
          match safeStr (Some text) 100 with
          | Some _ => Some {| slot_role := Some text; slot_id := default None idText |}
          | None => (λ i, {| slot_role := Some text; slot_id := i |}) <$> idText
          end
      end
  end.

(** [Array.isArray(config?.signatures) ? config.signatures : ...] on the
    submitted configuration, element by element; the outer [None] when the
    extraction of a role throws: no [Config] describes such a document. *)
Definition configOf (config : Json) : option (option (list SigSlot)) :=
  match field config "signatures" with
  | Some (JArray l) => Some <$> mapM slotOf l
  | _ => Some None
  end.

(** The answers of the two routes. *)
Inductive Reply :=
| ReplyMessage (code : nat) (message : string)
| ReplyCreated (documentId : string)
| ReplyContract (row : Contract).

(** POST /api/contracts: [companyEmail] is [process.env.COMPANY_EMAIL],
    [dateNow] the value of [Date.now()], a whole number of milliseconds.
    The row is written for every truthy configuration; the result is
    [None] where [configOf] has no description of the stored document. *)
Definition createContractRoute (companyEmail : option string) (dateNow : Z)
    (config : option Json) (db : Database) : option (Reply * Database) :=
  if negb (toBoolean config) then Some (ReplyMessage 400 "config required", db)
  else if negb (optTruthy companyEmail)
  then Some (ReplyMessage 500 "Server misconfiguration: COMPANY_EMAIL not set", db)
  else
  let documentId := "DOC-" +:+ pretty dateNow in
  match config ≫= configOf with
  | None => None
  | Some sigs =>
      Some (ReplyCreated documentId,
            createContract documentId sigs (default "" companyEmail) db)
  end.

(** GET /api/contracts/:documentId: the first row with the document id;
    a stored configuration that does not parse goes to the [catch]. *)
Definition getContractRoute (documentId : string) (db : Database) : Reply :=
  match findContract documentId db with
  | None => ReplyMessage 404 "Contract not found"
  | Some row =>
      match config row with
      | BadJson _ => ReplyMessage 500 "Fetch contract failed"
      | Parsed _ => ReplyContract row
      end
  end.

(** ** The mutual-TLS agent of the signing authority *)

(** The paths of the environment, [""] when a variable is not set. *)
Record AgentPaths := {
  ONEAUTHEN_P12_PATH : string;
  ONEAUTHEN_P12_PASSPHRASE : string;
  ONEAUTHEN_CERT_PATH : string;
  ONEAUTHEN_KEY_PATH : string;
  ONEAUTHEN_CA_PATH : string
}.

(** [fs.existsSync] and [fs.readFileSync], which throws with a message
    ([inl]) or yields the content. *)
Record Fs := {
  existsSync : string → bool;
  readFileSync : string → string + string
}.

(** The options handed to [new https.Agent]. *)
Record AgentOptions := {
  keepAlive : bool;
  pfx : option string;
  passphrase : option string;
  cert : option string;
  key : option string;
  ca : option string
}.

(** The certificate part of the options: a P12 bundle, or a certificate
    with its key. *)
Definition agentIdentity (paths : AgentPaths) (fs : Fs) : string + AgentOptions :=
  if Js.truthy (ONEAUTHEN_P12_PATH paths)
  then
    if negb (existsSync fs (ONEAUTHEN_P12_PATH paths))
    then inl ("ONEAUTHEN_P12_PATH not found: " +:+ ONEAUTHEN_P12_PATH paths)
    else match readFileSync fs (ONEAUTHEN_P12_PATH paths) with
         | inl err => inl err
         | inr bundle =>
             inr {| keepAlive := true; pfx := Some bundle;
                    passphrase := if Js.truthy (ONEAUTHEN_P12_PASSPHRASE paths)
                                  then Some (ONEAUTHEN_P12_PASSPHRASE paths) else None;
                    cert := None; key := None; ca := None |}
         end
  else
    if negb (Js.truthy (ONEAUTHEN_CERT_PATH paths))
       || negb (Js.truthy (ONEAUTHEN_KEY_PATH paths))
    then inl "Missing mTLS cert config: set ONEAUTHEN_P12_PATH or (ONEAUTHEN_CERT_PATH + ONEAUTHEN_KEY_PATH)"
    else if negb (existsSync fs (ONEAUTHEN_CERT_PATH paths))
    then inl ("ONEAUTHEN_CERT_PATH not found: " +:+ ONEAUTHEN_CERT_PATH paths)
    else if negb (existsSync fs (ONEAUTHEN_KEY_PATH paths))
    then inl ("ONEAUTHEN_KEY_PATH not found: " +:+ ONEAUTHEN_KEY_PATH paths)
    else match readFileSync fs (ONEAUTHEN_CERT_PATH paths) with
         | inl err => inl err
         | inr certificate =>
             match readFileSync fs (ONEAUTHEN_KEY_PATH paths) with
             | inl err => inl err
             | inr secret =>
                 inr {| keepAlive := true; pfx := None; passphrase := None;
                        cert := Some certificate; key := Some secret; ca := None |}
             end
         end.

(** [buildOneAuthenAgent]: [inl] is the message of the error it throws. *)
Definition buildOneAuthenAgent (paths : AgentPaths) (fs : Fs) : string + AgentOptions :=
  match agentIdentity paths fs with
  | inl err => inl err
  | inr options =>
      if Js.truthy (ONEAUTHEN_CA_PATH paths)
      then
        if negb (existsSync fs (ONEAUTHEN_CA_PATH paths))
        then inl ("ONEAUTHEN_CA_PATH not found: " +:+ ONEAUTHEN_CA_PATH paths)
        else match readFileSync fs (ONEAUTHEN_CA_PATH paths) with
             | inl err => inl err
             | inr chain =>
                 inr {| keepAlive := keepAlive options; pfx := pfx options;
                        passphrase := passphrase options; cert := cert options;
                        key := key options; ca := Some chain |}
             end
      else inr options
  end.

(** * Properties *)

(** Evaluation of a decidable statement about concrete data. *)
Ltac by_evaluation :=
  match goal with
  | |- ?G => refine (@bool_decide_unpack G _ _); vm_compute; exact I
  end.

(** ** Strings *)

Lemma length_slice0 (n : nat) (s : string) :
  String.length (Js.slice0 n s) = Nat.min n (String.length s).
Proof.
  unfold Js.slice0. revert n.
  induction s as [|c s IH]; intros [|n]; simpl; auto.
Qed.

Lemma length_trimEnd (s : string) :
  (String.length (Js.trimEnd s) ≤ String.length s)%nat.
Proof.
  induction s as [|c s IH]; simpl; [lia|].
  destruct (Js.trimEnd s); [destruct (Js.is_ws c)|]; simpl in *; lia.
Qed.

Lemma length_trimStart (s : string) :
  (String.length (Js.trimStart s) ≤ String.length s)%nat.
Proof.
  induction s as [|c s IH]; simpl; [lia|].
  destruct (Js.is_ws c); simpl; lia.
Qed.

Lemma length_trim (s : string) :
  (String.length (Js.trim s) ≤ String.length s)%nat.
Proof.
  unfold Js.trim. pose proof (length_trimEnd (Js.trimStart s)).
  pose proof (length_trimStart s). lia.
Qed.

Lemma truthy_length (s : string) : Js.truthy s = true ↔ (0 < String.length s)%nat.
Proof. destruct s; simpl; split; (lia || done). Qed.

Lemma safeStr_length (s : option string) (max : nat) (r : string) :
  (0 < max)%nat → safeStr s max = Some r →
  (0 < String.length r ≤ max)%nat.
Proof.
  intros Hmax. unfold safeStr. destruct s as [x|]; [|done].
  simpl. destruct (Js.truthy (Js.trim x)) eqn:Ht; [|done].
  apply truthy_length in Ht. intros [= <-].
  destruct (Nat.ltb_spec max (String.length (Js.trim x))).
  - rewrite length_slice0. lia.
  - lia.
Qed.

Lemma safeStr_long (v : string) :
  (100 < String.length (Js.trim v))%nat →
  safeStr (Some v) 100 = Some (Js.slice0 100 (Js.trim v)).
Proof.
  intros Hlen. unfold safeStr.
  assert (Js.truthy (Js.trim v) = true) as -> by (apply truthy_length; lia).
  destruct (Nat.ltb_spec 100 (String.length (Js.trim v))); [done|lia].
Qed.

(** ** Role extractor *)

Lemma keepFirst_filter (P : string → Prop) `{!∀ x, Decision (P x)} (l : list string) :
  keepFirst (filter P l) = filter P (keepFirst l).
Proof.
  induction l as [|a l IH]; [done|].
  simpl. rewrite !filter_cons. destruct (decide (P a)) as [Ha|Ha]; simpl.
  - rewrite IH. f_equal. rewrite !list_filter_filter.
    apply list_filter_iff. tauto.
  - rewrite IH, list_filter_filter. apply list_filter_iff.
    intros x. split; [|tauto]. intros Hx. split; [done|]. by intros ->.
Qed.

Lemma filter_all {A} (P : A → Prop) `{!∀ x, Decision (P x)} (l : list A) :
  (∀ x, P x) → filter P l = l.
Proof.
  intros HP. induction l as [|a l IH]; [done|].
  rewrite filter_cons_True by done. by rewrite IH.
Qed.

Lemma fold_set_add (l acc : list string) :
  fold_left set_add l acc = acc ++ keepFirst (filter (λ x, x ∉ acc) l).
Proof.
  revert acc. induction l as [|x t IH]; intros acc; simpl.
  - by rewrite app_nil_r.
  - unfold set_add at 2. case_bool_decide as Hx.
    + rewrite IH. rewrite filter_cons_False by tauto. done.
    + rewrite IH. rewrite filter_cons_True by done. simpl.
      rewrite <- app_assoc. simpl. do 2 f_equal.
      rewrite <- keepFirst_filter, list_filter_filter. f_equal.
      apply list_filter_iff. intros y. rewrite elem_of_app, list_elem_of_singleton.
      tauto.
Qed.

Lemma uniqueInOrder_keepFirst (l : list string) : uniqueInOrder l = keepFirst l.
Proof.
  unfold uniqueInOrder. rewrite fold_set_add. simpl.
  rewrite filter_all; [done|]. intros x. apply not_elem_of_nil.
Qed.

Lemma elem_of_keepFirst (l : list string) (x : string) : x ∈ keepFirst l ↔ x ∈ l.
Proof.
  induction l as [|a l IH]; [done|]. simpl.
  rewrite !elem_of_cons, list_elem_of_filter, IH.
  destruct (decide (x = a)); tauto.
Qed.

Lemma NoDup_keepFirst (l : list string) : NoDup (keepFirst l).
Proof.
  induction l as [|a l IH]; simpl; [constructor|].
  apply NoDup_cons. split.
  - rewrite list_elem_of_filter. tauto.
  - by apply NoDup_filter.
Qed.

Lemma elem_of_uniqueInOrder (l : list string) (x : string) :
  x ∈ uniqueInOrder l ↔ x ∈ l.
Proof. rewrite uniqueInOrder_keepFirst. apply elem_of_keepFirst. Qed.

Lemma fold_pushRole (sigs : list SigSlot) (acc : list string) :
  fold_left pushRole sigs acc = acc ++ omap slotRole sigs.
Proof.
  revert acc. induction sigs as [|s sigs IH]; intros acc; simpl.
  - by rewrite app_nil_r.
  - rewrite IH. unfold pushRole. destruct (slotRole s); [|done].
    by rewrite <- app_assoc.
Qed.

Lemma extract_keepFirst (sigs : option (list SigSlot)) :
  extractRequiredRolesFromConfig sigs = keepFirst (omap slotRole (default [] sigs)).
Proof.
  unfold extractRequiredRolesFromConfig.
  by rewrite fold_pushRole, uniqueInOrder_keepFirst.
Qed.

Lemma slotRole_length (s : SigSlot) (r : string) :
  slotRole s = Some r → (0 < String.length r ≤ 100)%nat.
Proof.
  unfold slotRole. destruct (safeStr (slot_role s) 100) eqn:Hr.
  - intros [= <-]. eapply safeStr_length; [|done]. lia.
  - intros Hid. eapply safeStr_length; [|done]. lia.
Qed.

Lemma extract_length (sigs : option (list SigSlot)) (r : string) :
  r ∈ extractRequiredRolesFromConfig sigs → (0 < String.length r ≤ 100)%nat.
Proof.
  rewrite extract_keepFirst, elem_of_keepFirst, list_elem_of_omap.
  intros (s & _ & Hs). by eapply slotRole_length.
Qed.

Lemma fold_classifyRole (l : list string) (acc : SplitRoles) :
  fold_left classifyRole l acc =
  {| customer := customer acc ++ filter (λ r, isCustomerRole r) l;
     company := company acc
                ++ filter (λ r, ¬ isCustomerRole r ∧ isCompanyRole r) l |}.
Proof.
  revert acc. induction l as [|r l IH]; intros [cu co]; simpl.
  - by rewrite !app_nil_r.
  - rewrite IH. unfold classifyRole.
    destruct (isCustomerRole r) eqn:Hcu; simpl.
    + rewrite filter_cons_True by (cbv beta; by rewrite Hcu).
      rewrite filter_cons_False by (cbv beta; rewrite Hcu; simpl; tauto).
      by rewrite <- app_assoc.
    + rewrite filter_cons_False by (cbv beta; rewrite Hcu; simpl; tauto).
      destruct (isCompanyRole r) eqn:Hco; simpl.
      * rewrite filter_cons_True by (cbv beta; rewrite Hcu, Hco; simpl; tauto).
        by rewrite <- app_assoc.
      * rewrite filter_cons_False by (cbv beta; rewrite Hco; simpl; tauto). done.
Qed.

Lemma split_customer (l : list string) :
  customer (splitRolesBySigner l) = filter (λ r, isCustomerRole r) l.
Proof. unfold splitRolesBySigner. by rewrite fold_classifyRole. Qed.

Lemma split_company (l : list string) :
  company (splitRolesBySigner l)
  = filter (λ r, ¬ isCustomerRole r ∧ isCompanyRole r) l.
Proof. unfold splitRolesBySigner. by rewrite fold_classifyRole. Qed.

(** ** Signature store *)

Lemma perm_short {A} (l k : list A) : l ≡ₚ k → (length k ≤ 1)%nat → l = k.
Proof.
  intros Hp Hk. destruct k as [|x [|y k]]; simpl in Hk; [| |lia].
  - by apply Permutation_nil_r.
  - by apply Permutation_singleton_r.
Qed.

Lemma filter_key_unique (sigs : list Signature) (cid : Z) (r : string) :
  uniqueKey sigs → (length (filter (sameKey cid r) sigs) ≤ 1)%nat.
Proof.
  unfold uniqueKey. induction sigs as [|a sigs IH]; [simpl; lia|].
  rewrite fmap_cons, NoDup_cons. intros [Ha Hnd].
  rewrite filter_cons. destruct (decide (sameKey cid r a)) as [[Hc Hr]|_]; [|auto].
  destruct (filter (sameKey cid r) sigs) as [|x l] eqn:Hf; [simpl; lia|].
  exfalso. apply Ha.
  assert (x ∈ filter (sameKey cid r) sigs) as Hx by (rewrite Hf; left).
  apply list_elem_of_filter in Hx as [[Hxc Hxr] Hx].
  apply list_elem_of_fmap. exists x. by rewrite Hc, Hr, Hxc, Hxr.
Qed.

Lemma overwrite_key (t : Z) (image name position : option string) (s : Signature) :
  (contract_id (overwrite t image name position s),
   role (overwrite t image name position s)) = (contract_id s, role s).
Proof. done. Qed.

Lemma upsertRows_keys_hit (t cid : Z) (r : string) (p : Party)
    (image name position : option string) (sigs : list Signature) :
  (λ s, (contract_id s, role s)) <$>
    ((λ s, if bool_decide (sameKey cid r s)
           then overwrite t image name position s else s) <$> sigs)
  = (λ s, (contract_id s, role s)) <$> sigs.
Proof.
  rewrite <- list_fmap_compose. apply list_fmap_ext. intros i s _. simpl.
  by case_bool_decide.
Qed.

Lemma upsertRows_uniqueKey (t cid : Z) (r : string) (p : Party)
    (image name position : option string) (sigs : list Signature) :
  uniqueKey sigs → uniqueKey (upsertRows t cid r p image name position sigs).
Proof.
  unfold uniqueKey, upsertRows. intros Hnd. case_bool_decide as Hex.
  - by rewrite (upsertRows_keys_hit t cid r p).
  - rewrite fmap_app. simpl. apply NoDup_app. split_and!; [done| |apply NoDup_singleton].
    intros k Hk ->%list_elem_of_singleton. apply Hex.
    apply list_elem_of_fmap in Hk as (s & [= Hc Hr] & Hs).
    apply Exists_exists. exists s. by split.
Qed.

(** After an upsert the key (contract, role) has exactly one row, which
    carries the submitted image, name, position and the current time. *)
Lemma upsertRows_row (t cid : Z) (r : string) (p : Party)
    (image name position : option string) (sigs : list Signature) :
  uniqueKey sigs →
  ∃ row, filter (sameKey cid r) (upsertRows t cid r p image name position sigs) = [row]
         ∧ contract_id row = cid ∧ role row = r
         ∧ signature_image row = image ∧ signer_name row = name
         ∧ signer_position row = position ∧ signed_at row = t.
Proof.
  intros Hu. pose proof (upsertRows_uniqueKey t cid r p image name position sigs Hu) as Hu'.
  pose proof (filter_key_unique _ cid r Hu') as Hlen.
  unfold upsertRows in *. case_bool_decide as Hex.
  - apply Exists_exists in Hex as (s0 & Hs0 & Hk0).
    set (f := λ s, if bool_decide (sameKey cid r s)
                   then overwrite t image name position s else s) in *.
    assert (f s0 ∈ filter (sameKey cid r) (f <$> sigs)) as Hin.
    { apply list_elem_of_filter. split.
      - unfold f. rewrite bool_decide_eq_true_2 by done. apply Hk0.
      - by apply list_elem_of_fmap_2. }
    destruct (filter (sameKey cid r) (f <$> sigs)) as [|x [|y l]] eqn:Hf;
      [by apply elem_of_nil in Hin| |simpl in Hlen; lia].
    apply list_elem_of_singleton in Hin as <-.
    exists (f s0). split; [done|]. unfold f.
    rewrite bool_decide_eq_true_2 by done. destruct Hk0. done.
  - rewrite filter_app in *.
    assert (filter (sameKey cid r) sigs = []) as Hnil.
    { destruct (filter (sameKey cid r) sigs) as [|x l] eqn:Hf; [done|].
      exfalso. apply Hex, Exists_exists. exists x.
      assert (x ∈ filter (sameKey cid r) sigs) as Hx by (rewrite Hf; left).
      apply list_elem_of_filter in Hx. tauto. }
    rewrite Hnil. rewrite filter_cons_True by done. simpl.
    eexists. split; [done|]. done.
Qed.

(** An upsert leaves the rows of every other key as they were. *)
Lemma upsertRows_other (t cid : Z) (r : string) (p : Party)
    (image name position : option string) (sigs : list Signature)
    (P : Signature → Prop) `{!∀ s, Decision (P s)} :
  (∀ s, P s → ¬ sameKey cid r s) →
  (∀ s, P (overwrite t image name position s) ↔ P s) →
  filter P (upsertRows t cid r p image name position sigs) = filter P sigs.
Proof.
  intros Hdisj Hov. unfold upsertRows. case_bool_decide as Hex.
  - clear Hex. induction sigs as [|a sigs IH]; [done|].
    rewrite fmap_cons, !filter_cons, IH. case_bool_decide as Hk.
    + rewrite decide_False by (rewrite Hov; intros HP; by apply (Hdisj a)).
      rewrite decide_False by (intros HP; by apply (Hdisj a)). done.
    + done.
  - rewrite filter_app. rewrite filter_cons_False, filter_nil, app_nil_r; [done|].
    intros HP. apply (Hdisj _ HP). done.
Qed.

Lemma selectSignatures_perm (cid : Z) (sigs : list Signature) :
  selectSignatures cid sigs ≡ₚ filter (λ s, contract_id s = cid) sigs.
Proof. apply merge_sort_Permutation. Qed.

Lemma filter_role_select (cid : Z) (r : string) (sigs : list Signature) :
  filter (λ s, role s = r) (selectSignatures cid sigs) ≡ₚ filter (sameKey cid r) sigs.
Proof.
  rewrite selectSignatures_perm, list_filter_filter.
  erewrite list_filter_iff; [done|]. intros s. unfold sameKey. tauto.
Qed.

Lemma lookup_fold_groupRow (rows : list Signature) (acc : SignedMap)
    (p : Party) (r : string) :
  signedOf (fold_left groupRow rows acc) p !! r =
  match last (filter (λ s, signer_role s = p ∧ role s = r) rows) with
  | Some row => Some row
  | None => signedOf acc p !! r
  end.
Proof.
  revert acc. induction rows as [|a rows IH]; intros acc; [done|].
  simpl. rewrite IH, filter_cons.
  destruct (decide (signer_role a = p ∧ role a = r)) as [[Hp Hr]|Hn].
  - rewrite last_cons.
    destruct (last (filter _ rows)); [done|].
    unfold groupRow. rewrite Hp, <- Hr. destruct p; simpl; apply lookup_insert_eq.
  - destruct (last (filter _ rows)); [done|].
    unfold groupRow. destruct (signer_role a) eqn:Ha, p; simpl; try done;
      apply lookup_insert_ne; intros Heq; apply Hn; done.
Qed.

Lemma lookup_group_select (sigs : list Signature) (cid : Z) (p : Party)
    (r : string) (row : Signature) :
  uniqueKey sigs →
  signedOf (groupSignaturesToMap (selectSignatures cid sigs)) p !! r = Some row
  ↔ row ∈ sigs ∧ contract_id row = cid ∧ role row = r ∧ signer_role row = p.
Proof.
  intros Hu. unfold groupSignaturesToMap. rewrite lookup_fold_groupRow.
  remember (filter (λ s, signer_role s = p ∧ role s = r) (selectSignatures cid sigs))
    as L eqn:HLdef.
  assert (L ≡ₚ filter (λ s, signer_role s = p) (filter (sameKey cid r) sigs)) as HL.
  { rewrite HLdef, <- filter_role_select, list_filter_filter. done. }
  assert (length L ≤ 1)%nat as Hlen.
  { rewrite HL. etrans; [apply length_filter|]. by apply filter_key_unique. }
  assert (∀ x, x ∈ L ↔ x ∈ sigs ∧ contract_id x = cid ∧ role x = r ∧ signer_role x = p)
    as Hmem.
  { intros x. rewrite HL, !list_elem_of_filter. unfold sameKey. tauto. }
  clear HLdef. destruct L as [|x [|y L']]; simpl in Hlen; [| |lia].
  - simpl.
    assert (signedOf {| ofCustomer := ∅; ofCompany := ∅ |} p !! r = None) as ->
      by (destruct p; apply lookup_empty).
    split; [done|].
    intros H. apply Hmem in H. by apply elem_of_nil in H.
  - simpl. split.
    + intros [= <-]. apply Hmem. left.
    + intros H. apply Hmem, list_elem_of_singleton in H. by subst.
Qed.

Lemma lacksImage_stored (db : Database) (cid : Z) (p : Party) (r : string) :
  uniqueKey (signatures db) →
  lacksImage (groupSignaturesToMap (selectSignatures cid (signatures db))) p r = false
  ↔ storedImage db cid p r.
Proof.
  intros Hu. unfold lacksImage, storedImage. rewrite Exists_exists.
  destruct (signedOf _ p !! r) as [row|] eqn:Hl.
  - apply lookup_group_select in Hl as (Hin & Hc & Hr & Hp); [|done].
    rewrite negb_false_iff. split.
    + intros Ht. exists row. rewrite Ht. done.
    + intros (row' & Hin' & Hc' & Hr' & Hp' & Ht').
      assert (signedOf (groupSignaturesToMap (selectSignatures cid (signatures db))) p !! r
              = Some row') as Hl' by (by apply lookup_group_select).
      assert (signedOf (groupSignaturesToMap (selectSignatures cid (signatures db))) p !! r
              = Some row) as Hl'' by (by apply lookup_group_select).
      rewrite Hl' in Hl''. injection Hl'' as ->. by apply Is_true_true.
  - split; [done|]. intros (row' & Hin' & Hc' & Hr' & Hp' & Ht').
    assert (signedOf (groupSignaturesToMap (selectSignatures cid (signatures db))) p !! r
            = Some row') as Hl' by (by apply lookup_group_select).
    congruence.
Qed.

Lemma assertSignedAll_filter (required : list string) (m : SignedMap) (p : Party) :
  assertSignedAll required m p = filter (λ r, lacksImage m p r) required.
Proof.
  unfold assertSignedAll.
  assert (∀ acc, fold_left (λ missing r, if lacksImage m p r then missing ++ [r] else missing)
                   required acc = acc ++ filter (λ r, lacksImage m p r) required) as H.
  { induction required as [|r l IH]; intros acc; simpl; [by rewrite app_nil_r|].
    rewrite IH, filter_cons. destruct (lacksImage m p r); simpl.
    - by rewrite <- app_assoc.
    - done. }
  apply H.
Qed.

(** ** Steps of a route *)

Lemma bind_Next {A B} (m : Route A) (k : A → Route B) (s s' : Sys) (a : A) :
  m s = (Next a, s') → bind m k s = k a s'.
Proof. unfold bind. by intros ->. Qed.

Lemma bind_Respond {A B} (m : Route A) (k : A → Route B) (s s' : Sys) (r : Response) :
  m s = (Respond r, s') → bind m k s = (Respond r, s').
Proof. unfold bind. by intros ->. Qed.

Lemma rollback_respond {A} (r : Response) (s : Sys) :
  (rollback ;;; respond (A:=A) r) s = (Respond r, logged StRollback s (committed s)).
Proof. done. Qed.

Lemma validateItems_run (items : list Item) (s : Sys) :
  (Forall (λ it, itemValid it) items ∧ validateItems items s = (Next (), s))
  ∨ (Exists (λ it, ¬ itemValid it) items
     ∧ ∃ msg, validateItems items s
              = (Respond (bad 400 msg), logged StRollback s (committed s))).
Proof.
  induction items as [|it items IH]; simpl.
  - left. split; [constructor|done].
  - destruct (validateRoleBasic (it_role it)) eqn:Hrole; simpl.
    + destruct (isDataUrl (it_image it)) eqn:Himg; simpl.
      * destruct IH as [[Hall Hrun]|[Hex Hrun]].
        -- left. split; [|done]. constructor; [|done].
           unfold itemValid. by rewrite Hrole, Himg.
        -- right. split; [|done]. by apply Exists_cons_tl.
      * right. split; [|by eexists]. apply Exists_cons_hd.
        unfold itemValid. rewrite Hrole, Himg. simpl. tauto.
    + right. split; [|by eexists]. apply Exists_cons_hd.
      unfold itemValid. rewrite Hrole. simpl. tauto.
Qed.

Lemma assertRolesAllowedFrom_None (allowed payload : list string) :
  assertRolesAllowedFrom allowed payload = None ↔ Forall (λ r, r ∈ allowed) payload.
Proof.
  induction payload as [|r l IH]; simpl.
  - split; [constructor|done].
  - case_bool_decide as Hr.
    + rewrite IH, Forall_cons. tauto.
    + split; [done|]. intros [H _]%Forall_cons. done.
Qed.

Lemma assertRolesAllowed_None (payload allowed : list string) :
  assertRolesAllowed payload allowed = None ↔ Forall (λ r, r ∈ allowed) payload.
Proof.
  unfold assertRolesAllowed. rewrite assertRolesAllowedFrom_None.
  apply Forall_proper; [|done]. intros r. apply elem_of_uniqueInOrder.
Qed.

Lemma roleNotAllowedResponse_status (party : Party) (msg : string) :
  http_status (roleNotAllowedResponse party msg) = 400%nat.
Proof. unfold roleNotAllowedResponse. by destruct (Js.startsWith _ msg). Qed.

Lemma checkRolesAllowed_run (party : Party) (items : list Item)
    (allowedRoles : list string) (s : Sys) :
  (Forall (λ it, it_role it ∈ allowedRoles) items
   ∧ checkRolesAllowed party items allowedRoles s = (Next (), s))
  ∨ (Exists (λ it, it_role it ∉ allowedRoles) items
     ∧ ∃ msg, assertRolesAllowed (it_role <$> items) allowedRoles = Some msg
              ∧ checkRolesAllowed party items allowedRoles s
                = (Respond (roleNotAllowedResponse party msg),
                   logged StRollback s (committed s))).
Proof.
  unfold checkRolesAllowed.
  destruct (assertRolesAllowed (it_role <$> items) allowedRoles) as [msg|] eqn:Ha.
  - right. split; [|by eexists].
    apply not_Forall_Exists; [apply _|]. intros Hall.
    assert (assertRolesAllowed (it_role <$> items) allowedRoles = None) as Hn.
    { apply assertRolesAllowed_None. by apply Forall_fmap. }
    congruence.
  - left. split; [|done].
    apply assertRolesAllowed_None in Ha. by apply Forall_fmap in Ha.
Qed.

Lemma upsertAll_run (t cid : Z) (party : Party) (items : list Item) (s : Sys) :
  upsertAll t cid party items s
  = (Next (),
     {| committed := committed s;
        working := withSignatures t cid party items (working s);
        issued := issued s ++ ((λ it, StUpsert cid (it_role it) party) <$> items);
        outbox := outbox s |}).
Proof.
  revert s. induction items as [|it items IH]; intros s.
  - simpl. unfold ret, withSignatures. simpl. rewrite app_nil_r.
    by destruct s as [? [] ? ?].
  - simpl. unfold bind, upsertSignature. rewrite IH. unfold logged, withSignatures.
    simpl. by rewrite <- app_assoc.
Qed.

(** ** The two routes, case by case *)

Ltac rejected :=
  simpl; left;
  split_and!;
  [ done
  | repeat constructor; simpl; tauto
  | first [ lia | rewrite roleNotAllowedResponse_status; lia ]
  | done
  | first [ by left | by right ] ].

Ltac rejected_early :=
  simpl; left;
  split_and!;
  [ done
  | repeat constructor; simpl; tauto
  | eexists; split;
    [ done | first [ simpl; lia | rewrite roleNotAllowedResponse_status; lia ] ]
  | done
  | first [ by left | by right ] ].

Ltac run_validation items :=
  unfold bind at 1;
  match goal with
  | |- context [validateItems items ?s] =>
      destruct (validateItems_run items s) as [[?Hvalid ->]|[?Hinvalid [?msg ->]]]
  end.

Ltac run_allowed items :=
  unfold bind at 1;
  match goal with
  | |- context [checkRolesAllowed ?p items ?a ?s] =>
      destruct (checkRolesAllowed_run p items a s)
        as [[?Hallowed ->]|[?Hbad (?msg & ?Hmsg & ->)]]
  end.

Ltac run_upserts :=
  unfold bind at 1; rewrite upsertAll_run;
  unfold bind at 1; unfold getSignaturesByContractId at 1;
  cbn [working logged committed fresh issued outbox].

Ltac open_transaction :=
  unfold bind at 1; unfold beginTransaction at 1;
  unfold bind at 1; unfold getContractByDocumentId at 1;
  cbn [working logged committed fresh issued outbox].

(** What a customer-sign call can do to the tables: nothing at all, or the
    upserts of a validated payload, with or without the status update. *)
Lemma customerSign_cases (env : Env) (doc : string) (items : list Item) (db : Database) :
  let '(resp, s') := customerSign env doc items db in
  (committed s' = db ∧ Forall (λ st, ¬ isWrite st) (issued s')
   ∧ (400 ≤ http_status resp)%nat ∧ outbox s' = []
   ∧ (items = [] ∨ last (issued s') = Some StRollback))
  ∨ ∃ contract sigs,
      findContract doc db = Some contract ∧ status contract = PENDING
      ∧ config contract = Parsed sigs
      ∧ Forall (λ it, itemValid it) items
      ∧ Forall (λ it, it_role it ∈ requiredOf CUSTOMER sigs) items
      ∧ signatures (committed s')
        = signatures (withSignatures (now env) (c_id contract) CUSTOMER items db)
      ∧ (contracts (committed s') = contracts db
         ∨ contracts (committed s')
           = setStatus (c_id contract) CUSTOMER_SIGNED <$> contracts db).
Proof.
  unfold customerSign, customerSignRoute.
  case_bool_decide as Hitems; [rejected|].
  open_transaction.
  destruct (findContract doc db) as [contract|] eqn:Hfind; [|rejected].
  case_bool_decide as Hcompleted; [rejected|].
  case_bool_decide as Hsigned; [rejected|].
  assert (status contract = PENDING) as Hpending by (by destruct (status contract)).
  unfold bind at 1. unfold requiredRoles.
  destruct (config contract) as [err|sigs] eqn:Hcfg; [rejected|].
  unfold ret at 1.
  case_bool_decide as Hreq; [rejected|].
  run_validation items; [|rejected].
  run_allowed items; [|rejected].
  run_upserts.
  destruct (bool_decide (assertSignedAll _ _ _ = [])); simpl.
  - destruct (optTruthy (company_email contract)); simpl.
    + unfold sendMail. simpl.
      destruct (sendMailError env _); simpl;
        right; exists contract, sigs; split_and!; auto.
    + right; exists contract, sigs; split_and!; auto.
  - right; exists contract, sigs; split_and!; auto.
Qed.

(** The same for company-sign up to the final mail. *)
Lemma companySignUntilMail_cases (env : Env) (doc : string) (items : list Item)
    (db : Database) :
  let '(r, s') := companySignUntilMail env doc items (fresh db) in
  (committed s' = db ∧ Forall (λ st, ¬ isWrite st) (issued s')
   ∧ (∃ resp, r = Respond resp ∧ (400 ≤ http_status resp)%nat) ∧ outbox s' = []
   ∧ (items = [] ∨ last (issued s') = Some StRollback))
  ∨ ∃ contract sigs,
      findContract doc db = Some contract ∧ status contract = CUSTOMER_SIGNED
      ∧ config contract = Parsed sigs
      ∧ Forall (λ it, itemValid it) items
      ∧ Forall (λ it, it_role it ∈ requiredOf COMPANY sigs) items
      ∧ signatures (committed s')
        = signatures (withSignatures (now env) (c_id contract) COMPANY items db)
      ∧ ((contracts (committed s') = contracts db ∧ ∃ resp, r = Respond resp)
         ∨ (contracts (committed s')
            = setStatus (c_id contract) COMPLETED <$> contracts db
            ∧ ((r = Next contract ∧ final_sent_at contract = None)
               ∨ ∃ resp, r = Respond resp))).
Proof.
  unfold companySignUntilMail.
  case_bool_decide as Hitems; [rejected_early|].
  open_transaction.
  destruct (findContract doc db) as [contract|] eqn:Hfind;
    [|rejected_early].
  destruct (bool_decide_reflect (status contract = CUSTOMER_SIGNED)) as [Hsigned|Hsigned];
    cbn [negb]; [|rejected_early].
  unfold bind at 1. unfold requiredRoles.
  destruct (config contract) as [err|sigs] eqn:Hcfg;
    [rejected_early|].
  unfold ret at 1.
  destruct (bool_decide_reflect
              (company (splitRolesBySigner (extractRequiredRolesFromConfig sigs)) = []))
    as [Hreq|Hreq]; [rejected_early|].
  run_validation items; [|rejected_early].
  run_allowed items;
    [|rejected_early].
  run_upserts.
  destruct (bool_decide (assertSignedAll _ _ _ = [])); simpl;
    [|right; exists contract, sigs; split_and!; eauto].
  destruct (bool_decide (uniqEmails _ = [])); simpl;
    [right; exists contract, sigs; split_and!; eauto|].
  destruct (bool_decide_reflect (is_Some (final_sent_at contract))) as [Hsent|Hsent];
    simpl; [right; exists contract, sigs; split_and!; eauto|].
  assert (final_sent_at contract = None) as Hnull
    by (destruct (final_sent_at contract); [exfalso; eauto|done]).
  destruct (renderPdfFromUrl env _); simpl;
    [right; exists contract, sigs; split_and!; eauto|].
  destruct (if ONEAUTHEN_ENABLED env then _ else _); simpl;
    [right; exists contract, sigs; split_and!; eauto|].
  unfold sendMail. simpl.
  destruct (sendMailError env _); simpl;
    right; exists contract, sigs; split_and!; eauto.
Qed.

(** ** Claims about the role extractor *)

(** C3, as stated, fails: a required role that contains "company" is not
    always in the company set.  A role that contains both words is
    classified by the first test only and goes to the customer set. *)
Lemma C3_counterexample :
  ¬ (∀ (sigs : option (list SigSlot)) (r : string),
       r ∈ extractRequiredRolesFromConfig sigs →
       Js.includes "company" r = true →
       r ∈ company (splitRolesBySigner (extractRequiredRolesFromConfig sigs))).
Proof.
  intros H.
  specialize (H (Some [ {| slot_role := Some "customer_company_liaison";
                           slot_id := None |} ])
                "customer_company_liaison").
  revert H. by_evaluation.
Qed.

(** C3, amended: the required roles are the [role] of every element of
    [config.signatures], or its [id] when the role is absent or blank
    (both trimmed and cut to 100 characters), deduplicated keeping first
    occurrences; the customer set holds the roles that contain "customer"
    in any letter case, the company set those that contain "company" and
    not "customer", both in the order of the required list, and a role
    that matches neither word is in neither set. *)
Theorem C3_roles_extracted_and_partitioned (sigs : option (list SigSlot)) :
  let required := extractRequiredRolesFromConfig sigs in
  let split := splitRolesBySigner required in
  required = keepFirst (omap slotRole (default [] sigs))
  ∧ (∀ s r, safeStr (slot_role s) 100 = Some r → slotRole s = Some r)
  ∧ (∀ s, safeStr (slot_role s) 100 = None → slotRole s = safeStr (slot_id s) 100)
  ∧ (∀ s, slot_role s = None → slotRole s = safeStr (slot_id s) 100)
  ∧ NoDup required
  ∧ customer split = filter (λ r, isCustomerRole r) required
  ∧ company split = filter (λ r, ¬ isCustomerRole r ∧ isCompanyRole r) required
  ∧ (∀ r, ¬ isCustomerRole r → ¬ isCompanyRole r →
          (r ∉ customer split) ∧ (r ∉ company split)).
Proof.
  intros required split. subst required split.
  split_and!.
  - apply extract_keepFirst.
  - intros s r H. unfold slotRole. by rewrite H.
  - intros s H. unfold slotRole. by rewrite H.
  - intros s H. unfold slotRole. by rewrite H.
  - rewrite extract_keepFirst. apply NoDup_keepFirst.
  - apply split_customer.
  - apply split_company.
  - intros r Hcu Hco. rewrite split_customer, split_company.
    rewrite !list_elem_of_filter. tauto.
Qed.

(** C10, as stated, fails: a configured role longer than 100 characters
    is not always cut to its first 100 characters.  The extractor trims
    the value first; a role of 101 characters with a leading blank comes
    out as its 100 trimmed characters, which is not its prefix of 100. *)
Lemma C10_counterexample :
  ¬ (∀ (s : SigSlot) (v : string),
       slot_role s = Some v → (100 < String.length v)%nat →
       extractRequiredRolesFromConfig (Some [s]) = [Js.slice0 100 v]).
Proof.
  intros H.
  specialize (H {| slot_role := Some paddedRole; slot_id := None |} paddedRole eq_refl).
  revert H. by_evaluation.
Qed.

(** C10, amended: every derived required role has between 1 and 100
    characters.  A configured role (or fallback id) whose trimmed value is
    longer than 100 characters is not refused: the extractor keeps the
    first 100 characters of the trimmed value.  That prefix passes the
    role check of the routes, the configured value does not, so a payload
    that carries it is answered 400; the allowed-role check accepts only
    members of the required set, and a required role is signed only by a
    stored row under exactly that identifier. *)
Theorem C10_long_roles_truncated :
  (∀ sigs r, r ∈ extractRequiredRolesFromConfig sigs →
             (0 < String.length r ≤ 100)%nat)
  ∧ (∀ s v,
       slot_role s = Some v
       ∨ (safeStr (slot_role s) 100 = None ∧ slot_id s = Some v) →
       (100 < String.length (Js.trim v))%nat →
       let p := Js.slice0 100 (Js.trim v) in
       slotRole s = Some p
       ∧ (∀ before after,
            p ∈ extractRequiredRolesFromConfig (Some (before ++ s :: after)))
       ∧ String.length p = 100%nat
       ∧ validateRoleBasic p = true
       ∧ validateRoleBasic v = false
       ∧ (∀ items st, Exists (λ it, it_role it = v) items →
            ∃ msg, validateItems items st
                   = (Respond (bad 400 msg), logged StRollback st (committed st))))
  ∧ (∀ payload allowed,
       assertRolesAllowed payload allowed = None → Forall (λ r, r ∈ allowed) payload)
  ∧ (∀ db cid party required r,
       uniqueKey (signatures db) → r ∈ required →
       r ∉ assertSignedAll required
             (groupSignaturesToMap (selectSignatures cid (signatures db))) party →
       storedImage db cid party r).
Proof.
  split_and!.
  - apply extract_length.
  - intros s v Hv Hlong p.
    assert (slotRole s = Some p) as Hslot.
    { unfold slotRole. destruct Hv as [Hv|[Hnone Hv]].
      - rewrite Hv. by rewrite safeStr_long.
      - rewrite Hnone, Hv. by rewrite safeStr_long. }
    assert (String.length p = 100%nat) as Hlen.
    { unfold p. rewrite length_slice0. lia. }
    assert (validateRoleBasic v = false) as Hv_bad.
    { unfold validateRoleBasic. pose proof (length_trim v).
      destruct (Nat.ltb_spec 100 (String.length v)); [|lia].
      by rewrite andb_false_r. }
    split_and!; [done| |done| |done|].
    + intros before after. rewrite extract_keepFirst, elem_of_keepFirst.
      apply list_elem_of_omap. exists s. split; [|done].
      simpl. rewrite elem_of_app, elem_of_cons. tauto.
    + unfold validateRoleBasic. rewrite Hlen. simpl.
      rewrite andb_true_r. apply truthy_length. lia.
    + intros items st Hex.
      destruct (validateItems_run items st) as [[Hall _]|[_ Hrun]]; [|done].
      exfalso. apply Exists_exists in Hex as (it & Hit & Hrole).
      rewrite Forall_forall in Hall. specialize (Hall it Hit).
      unfold itemValid in Hall. rewrite Hrole, Hv_bad in Hall. done.
  - intros payload allowed. apply assertRolesAllowed_None.
  - intros db cid party required r Hu Hr Hmiss.
    apply lacksImage_stored; [done|].
    rewrite assertSignedAll_filter, list_elem_of_filter in Hmiss.
    destruct (lacksImage _ party r); [|done]. exfalso. apply Hmiss. done.
Qed.

Lemma C10_witness :
  let s := {| slot_role := Some longRole; slot_id := None |} in
  (100 < String.length (Js.trim longRole))%nat
  ∧ slotRole s = Some (Js.slice0 100 (Js.trim longRole))
  ∧ String.length (Js.slice0 100 (Js.trim longRole)) = 100%nat
  ∧ validateRoleBasic longRole = false.
Proof.
  intros s.
  assert (100 < String.length (Js.trim longRole))%nat as Hlong
    by (vm_compute; lia).
  split; [exact Hlong|].
  destruct C10_long_roles_truncated as (_ & Hcut & _).
  destruct (Hcut s longRole (or_introl eq_refl) Hlong) as (H1 & _ & H3 & _ & H5 & _).
  split_and!; assumption.
Defined.

(** ** Claims about the signature store *)

(** C8: on a table that respects the unique key, an upsert for role R
    with image X followed by the listing of the contract's signatures
    yields exactly one row for R; it carries X (and the submitted name and
    position) whatever was stored before, and its signed-at time is the
    time of the upsert.  The table still respects the unique key. *)
Theorem C8_upsert_then_list (t cid : Z) (party : Party) (it : Item) (s : Sys) :
  uniqueKey (signatures (working s)) →
  ∃ rows s' row,
    (upsertSignature t cid party it ;;; getSignaturesByContractId cid) s
      = (Next rows, s')
    ∧ filter (λ x, role x = it_role it) rows = [row]
    ∧ contract_id row = cid
    ∧ signature_image row = it_image it
    ∧ signer_name row = it_name it
    ∧ signer_position row = it_position it
    ∧ signed_at row = t
    ∧ uniqueKey (signatures (working s')).
Proof.
  intros Hu.
  destruct (upsertRows_row t cid (it_role it) party (it_image it) (it_name it)
              (it_position it) _ Hu) as (row & Hrow & Hc & Hr & Hi & Hn & Hp & Ht).
  eexists _, _, row. split; [reflexivity|]. simpl.
  split_and!; try done.
  - apply Permutation_singleton_r. by rewrite filter_role_select, Hrow.
  - by apply upsertRows_uniqueKey.
Qed.

Lemma C8_witness :
  let s := fresh sampleDbOneSigned in
  let it := sampleItem "customer_a" in
  uniqueKey (signatures (working s))
  ∧ ∃ rows s' row,
      (upsertSignature 9 1 CUSTOMER it ;;; getSignaturesByContractId 1) s
        = (Next rows, s')
      ∧ filter (λ x, role x = "customer_a") rows = [row]
      ∧ signature_image row = sampleImage
      ∧ signed_at row = 9.
Proof.
  intros s it.
  assert (uniqueKey (signatures (working s))) as Hu by (by_evaluation).
  split; [exact Hu|].
  destruct (C8_upsert_then_list 9 1 CUSTOMER it s Hu)
    as (rows & s' & row & H1 & H2 & _ & H4 & _ & _ & H7 & _).
  exists rows, s', row. split_and!; assumption.
Defined.

(** ** Claims about the status guards and the validation *)

Lemma guardMessage_inj (g g' : Guard) : guardMessage g' = guardMessage g → g' = g.
Proof. destruct g, g'; (done || by vm_compute). Qed.

(** C4 as claimed fails: the claim gives every violated guard a message
    of its own (already completed, customer not yet done, company already
    acted), but company-sign answers a PENDING contract (the customer has
    not signed) and a COMPLETED contract (the company has signed) with
    the same status and the same message. *)
Lemma C4_counterexample :
  let pending := {| contracts := [sampleContract PENDING None]; signatures := [] |} in
  let completed := {| contracts := [sampleContract COMPLETED None];
                      signatures := [] |} in
  (companySign sampleEnv "DOC-1" [sampleItem "company_w"] pending).1
  = bad 400 "Contract is not ready for company sign"
  ∧ (companySign sampleEnv "DOC-1" [sampleItem "company_w"] completed).1
    = bad 400 "Contract is not ready for company sign".
Proof. split; reflexivity. Qed.

(** C4, amended: a customer-sign call on a contract that is not PENDING
    and a company-sign call on a contract that is not CUSTOMER_SIGNED are
    refused with an answer in the 400 range and mutate neither the
    contract row nor any signature row: no writing statement is issued, no
    mail is sent, the tables are as before.  A call with an empty payload
    is answered 400 "signatures payload is empty" before the contract is
    read.  Otherwise the transaction is rolled back and the answer is that
    of the guard of the code: customer-sign answers 409 "Contract already
    completed" on COMPLETED and 409 "Customer already signed" on
    CUSTOMER_SIGNED; company-sign answers 400 "Contract is not ready for
    company sign" on PENDING and on COMPLETED alike.  The three messages
    differ from one another. *)
Theorem C4_wrong_state_rejected (party : Party) (env : Env) (doc : string)
    (items : list Item) (db : Database) (contract : Contract) :
  findContract doc db = Some contract →
  status contract ≠ expectedStatus party →
  let '(resp, s') := signRoute party env doc items db in
  resp = (if bool_decide (items = [])
          then bad 400 "signatures payload is empty"
          else match party, status contract with
               | CUSTOMER, COMPLETED => bad 409 "Contract already completed"
               | CUSTOMER, _ => bad 409 "Customer already signed"
               | COMPANY, _ => bad 400 "Contract is not ready for company sign"
               end)
  ∧ (400 ≤ http_status resp < 500)%nat
  ∧ committed s' = db
  ∧ Forall (λ st, ¬ isWrite st) (issued s')
  ∧ outbox s' = []
  ∧ (items = [] → issued s' = [])
  ∧ (items ≠ [] →
     issued s' = [StBegin; StSelectContract doc; StRollback]
     ∧ ∃ g, violatedGuard party (status contract) = Some g ∧ resp = guardAnswer g)
  ∧ (∀ g g', guardMessage g' = guardMessage g → g' = g).
Proof.
  intros Hfind Hstatus.
  destruct (decide (items = [])) as [->|Hitems].
  { destruct party; simpl; split_and!;
      first [done | lia | by constructor | exact guardMessage_inj]. }
  rewrite (bool_decide_eq_false_2 (items = [])) by done.
  destruct party; simpl in Hstatus; simpl signRoute.
  - unfold customerSign, customerSignRoute.
    rewrite bool_decide_eq_false_2 by done.
    open_transaction. rewrite Hfind.
    destruct (status contract) eqn:Hst; [done| |]; simpl.
    + split_and!; try done; try lia.
      * repeat constructor; simpl; tauto.
      * intros _. split; [done|]. by exists CustomerAlreadySigned.
      * exact guardMessage_inj.
    + split_and!; try done; try lia.
      * repeat constructor; simpl; tauto.
      * intros _. split; [done|]. by exists AlreadyCompleted.
      * exact guardMessage_inj.
  - unfold companySign, companySignRoute, companySignUntilMail.
    rewrite bool_decide_eq_false_2 by done.
    unfold bind at 1. open_transaction. rewrite Hfind.
    rewrite (bool_decide_eq_false_2 (status contract = CUSTOMER_SIGNED)) by done.
    assert (violatedGuard COMPANY (status contract) = Some NotReadyForCompany) as Hg
      by (by destruct (status contract)).
    simpl. split_and!; try done; try lia.
    + repeat constructor; simpl; tauto.
    + intros _. split; [done|]. by exists NotReadyForCompany.
    + exact guardMessage_inj.
Qed.

Lemma C4_witness :
  let db := {| contracts := [sampleContract PENDING None]; signatures := [] |} in
  (findContract "DOC-1" db = Some (sampleContract PENDING None)
   ∧ PENDING ≠ expectedStatus COMPANY)
  ∧ (let '(resp, s') := companySign sampleEnv "DOC-1" [sampleItem "company_w"] db in
     resp = bad 400 "Contract is not ready for company sign" ∧ committed s' = db)
  ∧ (let '(resp, s') := companySign sampleEnv "DOC-1" [] db in
     resp = bad 400 "signatures payload is empty" ∧ committed s' = db).
Proof.
  intros db.
  assert (findContract "DOC-1" db = Some (sampleContract PENDING None)) as H2
    by reflexivity.
  assert (status (sampleContract PENDING None) ≠ expectedStatus COMPANY) as H3 by done.
  split; [by split|]. split.
  - pose proof (C4_wrong_state_rejected COMPANY sampleEnv "DOC-1"
                  [sampleItem "company_w"] db _ H2 H3) as H.
    simpl signRoute in H.
    destruct (companySign sampleEnv "DOC-1" [sampleItem "company_w"] db) as [resp s'].
    destruct H as (Hresp & _ & Hdb & _). by split.
  - pose proof (C4_wrong_state_rejected COMPANY sampleEnv "DOC-1" [] db _ H2 H3) as H.
    simpl signRoute in H.
    destruct (companySign sampleEnv "DOC-1" [] db) as [resp s'].
    destruct H as (Hresp & _ & Hdb & _). by split.
Defined.

Lemma validation_answers_400 (items : list Item) (s s' : Sys) (r : Response) :
  validateItems items s = (Respond r, s') → http_status r = 400%nat.
Proof.
  destruct (validateItems_run items s) as [[_ ->]|[_ [msg ->]]]; [done|].
  by intros [= <- _].
Qed.

Lemma allowed_check_answers_400 (party : Party) (items : list Item)
    (allowed : list string) (s s' : Sys) (r : Response) :
  checkRolesAllowed party items allowed s = (Respond r, s') → http_status r = 400%nat.
Proof.
  destruct (checkRolesAllowed_run party items allowed s)
    as [[_ ->]|[_ (msg & _ & ->)]]; [done|].
  intros [= <- _]. apply roleNotAllowedResponse_status.
Qed.

(** C7: when the contract is found in the state its party may sign in and
    the party's derived required-role set is empty, the call is answered
    500 with the message that the required roles cannot be determined;
    the transaction is rolled back before any statement that writes.  The
    answers to a payload that fails validation carry 400 instead. *)
Theorem C7_empty_required_set_is_config_error (party : Party) (env : Env)
    (doc : string) (items : list Item) (db : Database) (contract : Contract)
    (sigs : option (list SigSlot)) :
  items ≠ [] →
  findContract doc db = Some contract →
  status contract = expectedStatus party →
  config contract = Parsed sigs →
  requiredOf party sigs = [] →
  let '(resp, s') := signRoute party env doc items db in
  resp = configErrorAnswer party
  ∧ http_status resp = 500%nat
  ∧ committed s' = db
  ∧ Forall (λ st, ¬ isWrite st) (issued s')
  ∧ last (issued s') = Some StRollback
  ∧ (∀ its st st' r, validateItems its st = (Respond r, st') → http_status r = 400%nat)
  ∧ (∀ p its allowed st st' r,
       checkRolesAllowed p its allowed st = (Respond r, st') → http_status r = 400%nat).
Proof.
  intros Hitems Hfind Hstatus Hcfg Hreq.
  assert (∀ its st st' r, validateItems its st = (Respond r, st') →
                          http_status r = 400%nat) as H400
    by (intros; by eapply validation_answers_400).
  assert (∀ p its allowed st st' r,
            checkRolesAllowed p its allowed st = (Respond r, st') →
            http_status r = 400%nat) as H400'
    by (intros; by eapply allowed_check_answers_400).
  destruct party; simpl in Hstatus, Hreq; simpl signRoute.
  - unfold customerSign, customerSignRoute.
    rewrite bool_decide_eq_false_2 by done.
    open_transaction. rewrite Hfind.
    rewrite (bool_decide_eq_false_2 (status contract = COMPLETED))
      by (by rewrite Hstatus).
    rewrite (bool_decide_eq_false_2 (status contract = CUSTOMER_SIGNED))
      by (by rewrite Hstatus).
    unfold bind at 1. unfold requiredRoles. rewrite Hcfg. unfold ret at 1.
    rewrite bool_decide_eq_true_2 by done. simpl.
    split_and!; try done. repeat constructor; simpl; tauto.
  - unfold companySign, companySignRoute, companySignUntilMail.
    rewrite bool_decide_eq_false_2 by done.
    unfold bind at 1. open_transaction. rewrite Hfind.
    rewrite (bool_decide_eq_true_2 (status contract = CUSTOMER_SIGNED)) by done.
    cbn [negb].
    unfold bind at 1. unfold requiredRoles. rewrite Hcfg. unfold ret at 1.
    rewrite bool_decide_eq_true_2 by done. simpl.
    split_and!; try done. repeat constructor; simpl; tauto.
Qed.

Lemma C7_witness :
  let db := sampleDbNoRoles PENDING in
  requiredOf CUSTOMER None = []
  ∧ let '(resp, s') := customerSign sampleEnv "DOC-1" [sampleItem "customer_a"] db in
    resp = configErrorAnswer CUSTOMER ∧ committed s' = db.
Proof.
  intros db.
  assert (requiredOf CUSTOMER None = []) as Hreq by reflexivity.
  split; [exact Hreq|].
  pose proof (C7_empty_required_set_is_config_error CUSTOMER sampleEnv "DOC-1"
                [sampleItem "customer_a"] db _ None
                ltac:(done) eq_refl eq_refl eq_refl Hreq) as H.
  simpl signRoute in H.
  destruct (customerSign sampleEnv "DOC-1" [sampleItem "customer_a"] db) as [resp s'].
  destruct H as (H1 & _ & H3 & _). by split.
Defined.

(** C6: a call whose payload fails validation (an item with an invalid
    role or without a recognized image, or a role outside the required
    set of the party) ends with a rollback: no upsert was issued, the
    tables are as before the call and the answer is an error.  The
    validation of all items comes before the first upsert. *)
Theorem C6_validation_failure_rolls_back (party : Party) (env : Env) (doc : string)
    (items : list Item) (db : Database) :
  Exists (λ it, ¬ itemValid it) items
  ∨ (∃ contract sigs,
       findContract doc db = Some contract ∧ config contract = Parsed sigs
       ∧ Exists (λ it, it_role it ∉ requiredOf party sigs) items) →
  let '(resp, s') := signRoute party env doc items db in
  committed s' = db
  ∧ Forall (λ st, ¬ isUpsert st) (issued s')
  ∧ last (issued s') = Some StRollback
  ∧ (400 ≤ http_status resp)%nat.
Proof.
  intros Hfail.
  assert (items ≠ []) as Hitems.
  { intros ->. destruct Hfail as [H|(? & ? & _ & _ & H)]; by apply Exists_nil in H. }
  assert (∀ contract sigs,
            findContract doc db = Some contract → config contract = Parsed sigs →
            Forall (λ it, itemValid it) items →
            Forall (λ it, it_role it ∈ requiredOf party sigs) items → False) as Hno.
  { intros contract sigs Hfind Hcfg Hvalid Hallowed.
    destruct Hfail as [H|(c' & sigs' & Hfind' & Hcfg' & H)].
    - by apply Exists_not_Forall in H.
    - rewrite Hfind in Hfind'. injection Hfind' as <-.
      rewrite Hcfg in Hcfg'. injection Hcfg' as <-.
      by apply Exists_not_Forall in H. }
  assert (∀ l, Forall (λ st, ¬ isWrite st) l → Forall (λ st, ¬ isUpsert st) l) as Hw.
  { intros l Hl. eapply Forall_impl; [exact Hl|]. intros [] H; simpl in *; tauto. }
  destruct party; simpl signRoute.
  - pose proof (customerSign_cases env doc items db) as H.
    destruct (customerSign env doc items db) as [resp s'].
    destruct H as [(Hdb & Hiss & Hst & _ & [?|Hlast])|(c & sg & Hf & _ & Hc & Hv & Ha & _)];
      [done| |exfalso; by eapply Hno].
    split_and!; auto.
  - pose proof (companySignUntilMail_cases env doc items db) as H.
    unfold companySign, companySignRoute, bind.
    destruct (companySignUntilMail env doc items (fresh db)) as [r s1].
    destruct H as [(Hdb & Hiss & (resp & -> & Hst) & _ & [?|Hlast])
                  |(c & sg & Hf & _ & Hc & Hv & Ha & _)];
      [done| |exfalso; by eapply Hno].
    simpl. split_and!; auto.
Qed.

Lemma C6_witness :
  let items := [sampleItem "customer_a"; sampleItem "witness"] in
  Exists (λ it, it_role it ∉ requiredOf CUSTOMER sampleSlots) items
  ∧ let '(resp, s') := customerSign sampleEnv "DOC-1" items sampleDb in
    committed s' = sampleDb ∧ Forall (λ st, ¬ isUpsert st) (issued s').
Proof.
  intros items.
  assert (Exists (λ it, it_role it ∉ requiredOf CUSTOMER sampleSlots) items) as Hex
    by (by_evaluation).
  split; [exact Hex|].
  pose proof (C6_validation_failure_rolls_back CUSTOMER sampleEnv "DOC-1" items sampleDb
                (or_intror (ex_intro _ _ (ex_intro _ sampleSlots
                   (conj eq_refl (conj eq_refl Hex)))))) as H.
  simpl signRoute in H.
  destruct (customerSign sampleEnv "DOC-1" items sampleDb) as [resp s'].
  destruct H as (H1 & H2 & _). by split.
Defined.

(** ** The report of a role that is not allowed *)

Lemma append_nil_l (s : string) : EmptyString +:+ s = s.
Proof. done. Qed.

Lemma append_cons (c : ascii) (s t : string) : String c s +:+ t = String c (s +:+ t).
Proof. done. Qed.

Lemma includes_char_cons (c a : ascii) (s : string) :
  Js.includes (String c EmptyString) (String a s)
  = Ascii.eqb a c || Js.includes (String c EmptyString) s.
Proof.
  simpl. destruct (ascii_dec c a) as [->|Hne].
  - rewrite Ascii.eqb_refl. by destruct s.
  - assert (Ascii.eqb a c = false) as -> by (apply Ascii.eqb_neq; congruence).
    done.
Qed.

Lemma split_plain (sep : ascii) (s : string) :
  Js.includes (String sep EmptyString) s = false → Js.split sep s = [s].
Proof.
  induction s as [|a s IH]; [done|].
  rewrite includes_char_cons. intros [Ha Hs]%orb_false_elim.
  simpl. rewrite Ha, IH by done. done.
Qed.

Lemma split_at_sep (sep : ascii) (a b : string) :
  Js.includes (String sep EmptyString) a = false →
  Js.split sep (a +:+ String sep b) = a :: Js.split sep b.
Proof.
  induction a as [|x a IH].
  - intros _. rewrite append_nil_l. simpl. by rewrite Ascii.eqb_refl.
  - rewrite append_cons, includes_char_cons. intros [Hx Ha]%orb_false_elim.
    simpl. rewrite Hx, IH by done. done.
Qed.

Lemma split_cons_ne (sep c : ascii) (s : string) :
  Ascii.eqb c sep = false →
  Js.split sep (String c s)
  = match Js.split sep s with
    | [] => [String c EmptyString]
    | w :: ws => String c w :: ws
    end.
Proof. intros H. simpl. by rewrite H. Qed.

Lemma split_join_comma (l : list string) :
  Forall (λ x, Js.includes "," x = false) l →
  l ≠ [] →
  Js.split "," (Js.join ", " l)
  = match l with
    | [] => []
    | x :: rest => x :: ((λ y, " " +:+ y) <$> rest)
    end.
Proof.
  induction l as [|x l IH]; [done|]. intros [Hx Hl]%Forall_cons _.
  destruct l as [|y l].
  - simpl. by apply split_plain.
  - change (Js.join ", " (x :: y :: l)) with (x +:+ ", " +:+ Js.join ", " (y :: l)).
    change (", " +:+ Js.join ", " (y :: l))
      with (String "," (" " +:+ Js.join ", " (y :: l))).
    rewrite split_at_sep by done. f_equal.
    change (" " +:+ Js.join ", " (y :: l))
      with (String " " (Js.join ", " (y :: l))).
    rewrite split_cons_ne by done. rewrite IH by done. done.
Qed.

(** For a role and allowed roles without colon and comma (and allowed
    roles that are trimmed), the answer names the offending role and the
    whole allowed set. *)
Lemma roleNotAllowed_report_plain (party : Party) (r : string) (allowed : list string) :
  Js.includes ":" r = false →
  Forall (λ x, Js.includes ":" x = false ∧ Js.includes "," x = false
               ∧ Js.trim x = x ∧ Js.truthy x = true) allowed →
  allowed ≠ [] →
  roleNotAllowedResponse party
    ("ROLE_NOT_ALLOWED:" +:+ r +:+ ":" +:+ Js.join ", " allowed)
  = {| http_status := 400;
       body := MessageAllowed
                 ("Role not allowed for " +:+ partyName party +:+ ": " +:+ r)
                 allowed |}.
Proof.
  intros Hr Hall Hne.
  assert (Js.includes ":" (Js.join ", " allowed) = false) as Hjoin.
  { clear Hne. induction allowed as [|x l IH]; [done|].
    apply Forall_cons in Hall as [(Hx & _) Hl]. specialize (IH Hl).
    destruct l as [|y l]; [done|].
    change (Js.join ", " (x :: y :: l)) with (x +:+ ", " +:+ Js.join ", " (y :: l)).
    revert IH. generalize (Js.join ", " (y :: l)). intros j Hj.
    induction x as [|a x IHx].
    - rewrite append_nil_l, !append_cons, append_nil_l.
      by rewrite !includes_char_cons, Hj.
    - rewrite append_cons. rewrite includes_char_cons in Hx |- *.
      apply orb_false_elim in Hx as [Ha Hx]. rewrite Ha. simpl. by apply IHx. }
  unfold roleNotAllowedResponse.
  change ("ROLE_NOT_ALLOWED:" +:+ r +:+ ":" +:+ Js.join ", " allowed)
    with ("ROLE_NOT_ALLOWED" +:+ String ":" (r +:+ String ":" (Js.join ", " allowed))).
  assert (Js.startsWith "ROLE_NOT_ALLOWED:"
            ("ROLE_NOT_ALLOWED" +:+ String ":" (r +:+ String ":" (Js.join ", " allowed)))
          = true) as -> by (simpl; by destruct (r +:+ _)).
  rewrite split_at_sep by done. rewrite split_at_sep by done.
  rewrite split_plain by done. simpl nth. f_equal. f_equal.
  rewrite split_join_comma; [|eapply Forall_impl; [exact Hall|]; by intros x (_ & Hc & _)|done].
  destruct allowed as [|x l]; [done|].
  apply Forall_cons in Hall as [(_ & _ & Htx & Hx) Hl].
  rewrite fmap_cons, Htx, filter_cons_True by (by rewrite Hx). f_equal.
  clear -Hl. induction l as [|y l IH]; [done|].
  apply Forall_cons in Hl as [(_ & _ & Hty & Hy) Hl].
  rewrite !fmap_cons.
  assert (Js.trim (" " +:+ y) = y) as -> by (by rewrite <- Hty at 2).
  rewrite filter_cons_True by (by rewrite Hy). f_equal. by apply IH.
Qed.

(** C5, the defect at work: the role "x:y" is submitted to a contract
    whose customer roles are customer_a and customer_b.  The payload is
    well formed and passes the validation of its items; the answer names
    "x" as the offending role and ["y"] as the allowed set, because the
    thrown message is cut at every colon.  Nothing is written. *)
Theorem C5_role_with_colon_misreported :
  let items := [sampleItem "x:y"] in
  requiredOf CUSTOMER sampleSlots = ["customer_a"; "customer_b"]
  ∧ Forall (λ it, itemValid it) items
  ∧ assertRolesAllowed (it_role <$> items) (requiredOf CUSTOMER sampleSlots)
    = Some "ROLE_NOT_ALLOWED:x:y:customer_a, customer_b"
  ∧ customerSign sampleEnv "DOC-1" items sampleDb
    = ({| http_status := 400;
          body := MessageAllowed "Role not allowed for CUSTOMER: x" ["y"] |},
       {| committed := sampleDb; working := sampleDb;
          issued := [StBegin; StSelectContract "DOC-1"; StRollback];
          outbox := [] |}).
Proof.
  intros items. split_and!.
  - reflexivity.
  - by_evaluation.
  - reflexivity.
  - vm_compute. reflexivity.
Qed.

(** ** Claims about a partial customer signature *)

Lemma withSignatures_uniqueKey (t cid : Z) (p : Party) (items : list Item)
    (db : Database) :
  uniqueKey (signatures db) → uniqueKey (signatures (withSignatures t cid p items db)).
Proof.
  unfold withSignatures. simpl. generalize (signatures db).
  induction items as [|it items IH]; intros sigs Hu; simpl; [done|].
  apply IH. by apply upsertRows_uniqueKey.
Qed.

Lemma withSignatures_other (t cid : Z) (p : Party) (items : list Item)
    (db : Database) (cid' : Z) (r : string) :
  r ∉ (it_role <$> items) →
  filter (sameKey cid' r) (signatures (withSignatures t cid p items db))
  = filter (sameKey cid' r) (signatures db).
Proof.
  unfold withSignatures. simpl. generalize (signatures db).
  induction items as [|it items IH]; intros sigs Hr; simpl; [done|].
  rewrite fmap_cons, not_elem_of_cons in Hr. destruct Hr as [Hne Hr].
  rewrite IH by done. apply upsertRows_other.
  - intros s [_ Hs] [_ Hs']. congruence.
  - intros s. done.
Qed.

Lemma storedImage_filter (db : Database) (cid : Z) (p : Party) (r : string) :
  storedImage db cid p r
  ↔ Exists (λ row, signer_role row = p ∧ optTruthy (signature_image row))
           (filter (sameKey cid r) (signatures db)).
Proof.
  unfold storedImage. rewrite !Exists_exists. split.
  - intros (row & Hin & Hc & Hr & Hp & Ht). exists row. split; [|done].
    apply list_elem_of_filter. by split.
  - intros (row & [[Hc Hr] Hin]%list_elem_of_filter & Hp & Ht). by exists row.
Qed.

(** C1, as stated, fails: the other required role was signed in an
    earlier call, so valid signatures for a strict subset of the customer
    roles complete the set; the status becomes CUSTOMER_SIGNED and the
    answer is the full success, not the partial one. *)
Lemma C1_counterexample :
  let items := [sampleItem "customer_b"] in
  (findContract "DOC-1" sampleDbOneSigned = Some (sampleContract PENDING None)
   ∧ requiredOf CUSTOMER sampleSlots = ["customer_a"; "customer_b"]
   ∧ Forall (λ it, itemValid it) items
   ∧ it_role <$> items = ["customer_b"])
  ∧ let '(resp, s') := customerSign sampleEnv "DOC-1" items sampleDbOneSigned in
    resp = json (Message "Customer signed successfully")
    ∧ statusOf (committed s') 1 = [CUSTOMER_SIGNED].
Proof.
  intros items. split.
  - split_and!; [reflexivity|reflexivity|by_evaluation|reflexivity].
  - vm_compute. done.
Qed.

(** C1, amended: on a PENDING contract, a non-empty payload of valid
    signatures for customer roles, when some required customer role
    outside the payload has no stored image, is committed (the signature
    table is the old one with the upserts of the payload, the contract
    rows are untouched, so the status is still PENDING) and answered 200
    "Customer signed partially" with exactly the required customer roles
    that have no stored image after the upserts, in the order of the
    required list. *)
Theorem C1_partial_customer_sign (env : Env) (doc : string) (items : list Item)
    (db : Database) (contract : Contract) (sigs : option (list SigSlot)) :
  uniqueKey (signatures db) →
  items ≠ [] →
  findContract doc db = Some contract →
  status contract = PENDING →
  config contract = Parsed sigs →
  Forall (λ it, itemValid it) items →
  Forall (λ it, it_role it ∈ requiredOf CUSTOMER sigs) items →
  (∃ r, r ∈ requiredOf CUSTOMER sigs ∧ (r ∉ it_role <$> items)
        ∧ ¬ storedImage db (c_id contract) CUSTOMER r) →
  let db' := withSignatures (now env) (c_id contract) CUSTOMER items db in
  let missing := filter (λ r, ¬ storedImage db' (c_id contract) CUSTOMER r)
                        (requiredOf CUSTOMER sigs) in
  let '(resp, s') := customerSign env doc items db in
  committed s' = db'
  ∧ contracts (committed s') = contracts db
  ∧ findContract doc (committed s') = Some contract
  ∧ last (issued s') = Some StCommit
  ∧ missing ≠ []
  ∧ ∃ signedCount,
      resp = json (MessagePartial "Customer signed partially" signedCount
                     (length (requiredOf CUSTOMER sigs)) missing).
Proof.
  intros Hu Hitems Hfind Hstatus Hcfg Hvalid Hallowed (r0 & Hr0 & Hout & Hlack) db' missing.
  assert (uniqueKey (signatures db')) as Hu' by (by apply withSignatures_uniqueKey).
  assert (assertSignedAll (requiredOf CUSTOMER sigs)
            (groupSignaturesToMap (selectSignatures (c_id contract) (signatures db')))
            CUSTOMER = missing) as Hmissing.
  { rewrite assertSignedAll_filter. apply list_filter_iff. intros r.
    rewrite <- lacksImage_stored by done.
    destruct (lacksImage _ CUSTOMER r); simpl; split; (done || tauto || congruence). }
  assert (missing ≠ []) as Hne.
  { intros Hnil. assert (r0 ∈ missing) as Hin; [|rewrite Hnil in Hin; by apply elem_of_nil in Hin].
    apply list_elem_of_filter. split; [|done].
    rewrite storedImage_filter. unfold db'. rewrite withSignatures_other by done.
    by rewrite <- storedImage_filter. }
  unfold customerSign, customerSignRoute.
  rewrite bool_decide_eq_false_2 by done.
  open_transaction. rewrite Hfind.
  rewrite (bool_decide_eq_false_2 (status contract = COMPLETED)) by (by rewrite Hstatus).
  rewrite (bool_decide_eq_false_2 (status contract = CUSTOMER_SIGNED))
    by (by rewrite Hstatus).
  unfold bind at 1. unfold requiredRoles. rewrite Hcfg. unfold ret at 1.
  rewrite (bool_decide_eq_false_2 (customer _ = []))
    by (intros Hnil; simpl in Hr0; rewrite Hnil in Hr0; by apply elem_of_nil in Hr0).
  run_validation items; [|by apply Exists_not_Forall in Hinvalid].
  run_allowed items; [|by apply Exists_not_Forall in Hbad].
  run_upserts.
  fold db'. change (customer (splitRolesBySigner (extractRequiredRolesFromConfig sigs)))
    with (requiredOf CUSTOMER sigs).
  rewrite Hmissing.
  rewrite (bool_decide_eq_false_2 (missing = [])) by done. simpl.
  split_and!; try done.
  - rewrite !app_comm_cons. apply last_snoc.
  - by eexists.
Qed.

Lemma C1_witness :
  let items := [sampleItem "customer_a"] in
  (∃ r, r ∈ requiredOf CUSTOMER sampleSlots ∧ (r ∉ it_role <$> items)
        ∧ ¬ storedImage sampleDb 1 CUSTOMER r)
  ∧ let '(resp, s') := customerSign sampleEnv "DOC-1" items sampleDb in
    findContract "DOC-1" (committed s') = Some (sampleContract PENDING None)
    ∧ ∃ signedCount,
        resp = json (MessagePartial "Customer signed partially" signedCount 2
                       ["customer_b"]).
Proof.
  intros items.
  assert (∃ r, r ∈ requiredOf CUSTOMER sampleSlots ∧ (r ∉ it_role <$> items)
               ∧ ¬ storedImage sampleDb 1 CUSTOMER r) as Hmore.
  { exists "customer_b". split_and!; by_evaluation. }
  split; [exact Hmore|].
  pose proof (C1_partial_customer_sign sampleEnv "DOC-1" items sampleDb
                (sampleContract PENDING None) sampleSlots
                ltac:(by_evaluation) ltac:(done) eq_refl eq_refl eq_refl
                ltac:(by_evaluation) ltac:(by_evaluation) Hmore) as H.
  cbv zeta in H.
  destruct (customerSign sampleEnv "DOC-1" items sampleDb) as [resp s'].
  destruct H as (_ & _ & H3 & _ & _ & n & H6).
  split; [exact H3|]. exists n. exact H6.
Defined.

(** ** The bookkeeping of the final mail *)

Lemma nextId_fresh (cs : list Contract) (c : Contract) :
  c ∈ cs → c_id c < nextId cs.
Proof.
  unfold nextId. induction cs as [|a cs IH]; [by intros ?%elem_of_nil|].
  rewrite elem_of_cons. simpl. intros [->|Hin]; [lia|].
  specialize (IH Hin). lia.
Qed.

Lemma ids_inj (cs : list Contract) (c c' : Contract) :
  NoDup (c_id <$> cs) → c ∈ cs → c' ∈ cs → c_id c = c_id c' → c = c'.
Proof.
  induction cs as [|a cs IH]; [by intros _ ?%elem_of_nil|].
  rewrite fmap_cons, NoDup_cons, !elem_of_cons.
  intros [Ha Hnd] [->|Hc] [->|Hc'] Hid; auto.
  - exfalso. apply Ha. rewrite Hid. by apply list_elem_of_fmap_2.
  - exfalso. apply Ha. rewrite <- Hid. by apply list_elem_of_fmap_2.
Qed.

Lemma findContract_elem (doc : string) (db : Database) (c : Contract) :
  findContract doc db = Some c → c ∈ contracts db.
Proof.
  unfold findContract. intros H.
  destruct (filter _ (contracts db)) as [|x l] eqn:Hf; [done|].
  simpl in H. injection H as ->.
  assert (c ∈ filter (λ c, document_id c = doc) (contracts db)) as Hin
    by (rewrite Hf; left).
  by apply list_elem_of_filter in Hin as [_ Hin].
Qed.

Lemma setStatus_id (cid : Z) (st : Status) (c : Contract) :
  c_id (setStatus cid st c) = c_id c.
Proof. unfold setStatus. by case_bool_decide. Qed.

Lemma setStatus_sent (cid : Z) (st : Status) (c : Contract) :
  final_sent_at (setStatus cid st c) = final_sent_at c.
Proof. unfold setStatus. by case_bool_decide. Qed.

Lemma setFinalSent_id (t cid : Z) (c : Contract) :
  c_id (setFinalSent t cid c) = c_id c.
Proof. unfold setFinalSent. by case_bool_decide. Qed.

Lemma setFinalSent_status (t cid : Z) (c : Contract) :
  status (setFinalSent t cid c) = status c.
Proof. unfold setFinalSent. by case_bool_decide. Qed.

Lemma setCustomerEmail_same (email : string) (cid : Z) (c : Contract) :
  c_id (setCustomerEmail email cid c) = c_id c
  ∧ status (setCustomerEmail email cid c) = status c
  ∧ final_sent_at (setCustomerEmail email cid c) = final_sent_at c.
Proof. unfold setCustomerEmail. by case_bool_decide. Qed.

(** The conditional update: what it writes and what it answers. *)
Lemma recordFinalSent_run (env : Env) (c : Contract) (s : Sys) :
  let '(r, s') := recordFinalSent env c s in
  committed s' = markFinalSent (now env) (c_id c) (committed s)
  ∧ http_status (answer r) = 200%nat
  ∧ (Forall (λ row, c_id row = c_id c → is_Some (final_sent_at row))
            (contracts (committed s)) →
     committed s' = committed s
     ∧ r = Respond (json (Message
           "Company signed successfully (PDF emailed, final_sent_at was already set)")))
  ∧ (Exists (unsent (c_id c)) (contracts (committed s)) →
     r = Respond (json (Message
           ("Company signed successfully (PDF emailed"
              +:+ (if ONEAUTHEN_ENABLED env then ", OneAuthen signed" else "")
              +:+ ")")))).
Proof.
  unfold recordFinalSent, bind, updateFinalSentAt. cbn [committed].
  case_bool_decide as Hrows; simpl.
  - split_and!; try done.
    + intros _. split; [|done].
      apply length_zero_iff_nil in Hrows.
      unfold markFinalSent. destruct (committed s) as [cs sg]. simpl in *. f_equal.
      induction cs as [|a cs IH]; [done|].
      rewrite filter_cons in Hrows. destruct (decide (unsent (c_id c) a)); [done|].
      rewrite fmap_cons, IH by done. unfold setFinalSent.
      by rewrite bool_decide_eq_false_2.
    + intros Hex. exfalso. apply length_zero_iff_nil in Hrows.
      apply Exists_exists in Hex as (x & Hx & Hun).
      assert (x ∈ filter (unsent (c_id c)) (contracts (committed s))) as Hin
        by (by apply list_elem_of_filter).
      rewrite Hrows in Hin. by apply elem_of_nil in Hin.
  - split_and!; try done.
    intros Hall. exfalso. apply Hrows.
    destruct (filter (unsent (c_id c)) (contracts (committed s))) as [|x l] eqn:Hf;
      [done|].
    assert (x ∈ filter (unsent (c_id c)) (contracts (committed s))) as Hin
      by (rewrite Hf; left).
    apply list_elem_of_filter in Hin as [[Hid Hnone] Hin].
    rewrite Forall_forall in Hall. specialize (Hall x Hin Hid).
    rewrite Hnone in Hall. by destruct Hall.
Qed.

(** * Further properties *)

(** ** Strings, again *)

Lemma append_length (a b : string) :
  String.length (a +:+ b) = (String.length a + String.length b)%nat.
Proof.
  induction a as [|c a IH]; [done|]. rewrite append_cons. simpl. by rewrite IH.
Qed.

Lemma substring_prefix (a s : string) :
  String.substring 0 (String.length a) (a +:+ s) = a.
Proof.
  induction a as [|c a IH].
  - rewrite append_nil_l. by destruct s.
  - rewrite append_cons. simpl. by rewrite IH.
Qed.

Lemma substring_skip (p s : string) (k : nat) :
  String.substring (String.length p) k (p +:+ s) = String.substring 0 k s.
Proof.
  induction p as [|c p IH]; [by rewrite append_nil_l|].
  rewrite append_cons. simpl. apply IH.
Qed.

Lemma substring_all (s : string) : String.substring 0 (String.length s) s = s.
Proof. induction s as [|c s IH]; [done|]. simpl. by rewrite IH. Qed.

Lemma trimEnd_cons (c d : ascii) (s t : string) :
  Js.trimEnd s = String d t → Js.trimEnd (String c s) = String c (String d t).
Proof. intros H. simpl. by rewrite H. Qed.

Lemma trimEnd_idem (s : string) : Js.trimEnd (Js.trimEnd s) = Js.trimEnd s.
Proof.
  induction s as [|c s IH]; [done|].
  destruct (Js.trimEnd s) as [|d t] eqn:Ht.
  - simpl. rewrite Ht. destruct (Js.is_ws c) eqn:Hc; [done|]. simpl. by rewrite Hc.
  - rewrite (trimEnd_cons c d s t Ht). by apply trimEnd_cons.
Qed.

Lemma trimStart_fixed (c : ascii) (s : string) :
  Js.is_ws c = false → Js.trimStart (String c s) = String c s.
Proof. intros H. simpl. by rewrite H. Qed.

Lemma trimStart_shape (s : string) :
  Js.trimStart s = EmptyString
  ∨ ∃ c r, Js.trimStart s = String c r ∧ Js.is_ws c = false.
Proof.
  induction s as [|c s IH]; [by left|]. simpl.
  destruct (Js.is_ws c) eqn:Hc; [done|]. right. by exists c, s.
Qed.

Lemma trimEnd_head (c : ascii) (s : string) :
  Js.is_ws c = false → ∃ r, Js.trimEnd (String c s) = String c r.
Proof.
  intros Hc. simpl. destruct (Js.trimEnd s); [|by eexists].
  rewrite Hc. by eexists.
Qed.

(** [trim] leaves a trimmed string as it is. *)
Lemma trim_idem (s : string) : Js.trim (Js.trim s) = Js.trim s.
Proof.
  unfold Js.trim. destruct (trimStart_shape s) as [->|(c & r & -> & Hc)]; [done|].
  destruct (trimEnd_head c r Hc) as [r' Hr']. rewrite Hr'.
  rewrite trimStart_fixed by done. rewrite <- Hr'. apply trimEnd_idem.
Qed.

(** ** The helpers [redact] and [uniqEmails] *)

(** X1: [redact] shows at most the first four and the last four
    characters of a secret: a secret longer than 10 characters comes out
    as these eight around "...", whatever lies between them; a shorter
    non-empty one comes out as "***"; the result never has more than 11
    characters. *)
Theorem X1_redact_hides_the_middle :
  (∀ s, (String.length (redact s) ≤ 11)%nat)
  ∧ (∀ a m b, String.length a = 4%nat → String.length b = 4%nat →
              (3 ≤ String.length m)%nat →
              redact (Some (a +:+ m +:+ b)) = a +:+ "..." +:+ b)
  ∧ (∀ str, (0 < String.length str ≤ 10)%nat → redact (Some str) = "***").
Proof.
  split_and!.
  - intros [str|]; simpl; [|lia].
    destruct (Js.truthy str); simpl; [|lia].
    destruct (Nat.leb_spec (String.length str) 10); [simpl; lia|].
    rewrite !append_length, length_slice0. unfold sliceLast.
    assert (∀ n k s, (String.length (String.substring n k s) ≤ k)%nat) as Hsub.
    { intros n k s. revert n k. induction s as [|c s IH]; intros [|n] [|k]; simpl;
        try lia; try apply IH. specialize (IH 0%nat k). lia. }
    specialize (Hsub (String.length str - 4)%nat 4%nat str).
    change (String.length "...") with 3%nat. lia.
  - intros a m b Ha Hb Hm. unfold redact.
    assert (String.length (a +:+ m +:+ b) = (8 + String.length m)%nat) as Hlen
      by (rewrite !append_length; lia).
    assert (Js.truthy (a +:+ m +:+ b) = true) as -> by (apply truthy_length; lia).
    simpl negb. cbv iota.
    destruct (Nat.leb_spec (String.length (a +:+ m +:+ b)) 10); [lia|].
    f_equal.
    + unfold Js.slice0. rewrite <- Ha. apply substring_prefix.
    + f_equal. unfold sliceLast. rewrite Hlen.
      replace (8 + String.length m - 4)%nat with (String.length (a +:+ m))
        by (rewrite append_length; lia).
      assert (a +:+ m +:+ b = (a +:+ m) +:+ b) as ->.
      { clear. induction a as [|c a IH]; [done|]. rewrite !append_cons. by rewrite IH. }
      rewrite substring_skip, <- Hb. apply substring_all.
  - intros str [Hpos Hle]. unfold redact.
    assert (Js.truthy str = true) as -> by (by apply truthy_length).
    simpl. by destruct (Nat.leb_spec (String.length str) 10); [|lia].
Qed.

(** X2: [uniqEmails] returns each address once; its members are exactly
    the non-empty trimmed values of the entries (null counts as empty),
    so every member is trimmed, and the list is empty exactly when every
    entry is blank. *)
Theorem X2_uniqEmails_members (arr : list (option string)) :
  NoDup (uniqEmails arr)
  ∧ (∀ e, e ∈ uniqEmails arr
          ↔ e ≠ EmptyString ∧ ∃ x, x ∈ arr ∧ Js.trim (default "" x) = e)
  ∧ (∀ e, e ∈ uniqEmails arr → Js.trim e = e)
  ∧ (uniqEmails arr = [] ↔ Forall (λ x, Js.trim (default "" x) = EmptyString) arr).
Proof.
  assert (∀ e, e ∈ uniqEmails arr
               ↔ e ≠ EmptyString ∧ ∃ x, x ∈ arr ∧ Js.trim (default "" x) = e) as Hmem.
  { intros e. unfold uniqEmails.
    rewrite elem_of_uniqueInOrder, list_elem_of_filter, list_elem_of_fmap.
    split.
    - intros [Ht (x & -> & Hx)]. split; [|by exists x].
      intros Heq. by rewrite Heq in Ht.
    - intros [Hne (x & Hx & <-)]. split; [|by exists x].
      by destruct (Js.trim (default "" x)). }
  split_and!.
  - unfold uniqEmails. rewrite uniqueInOrder_keepFirst. apply NoDup_keepFirst.
  - exact Hmem.
  - intros e (_ & x & _ & <-)%Hmem. apply trim_idem.
  - split.
    + intros Hnil. apply Forall_forall. intros x Hx.
      destruct (Js.trim (default "" x)) as [|c r] eqn:Ht; [done|].
      assert (String c r ∈ uniqEmails arr) as Hin
        by (apply Hmem; split; [done|by exists x]).
      rewrite Hnil in Hin. by apply elem_of_nil in Hin.
    + intros Hall. destruct (uniqEmails arr) as [|e l] eqn:Hu; [done|].
      assert (e ∈ e :: l) as Hin by left.
      apply Hmem in Hin as (Hne & x & Hx & Ht).
      rewrite Forall_forall in Hall. specialize (Hall x Hx). congruence.
Qed.

(** ** The signature store, further *)

Lemma overwrite_overwrite (t1 t2 : Z) (i1 n1 p1 i2 n2 p2 : option string)
    (s : Signature) :
  overwrite t2 i2 n2 p2 (overwrite t1 i1 n1 p1 s) = overwrite t2 i2 n2 p2 s.
Proof. done. Qed.

(** X3: two upserts for the same contract, role and party compose to the
    second one: the later call replaces image, name, position and time
    of the earlier one and adds no row. *)
Theorem X3_upsert_last_write_wins (t1 t2 cid : Z) (r : string) (p : Party)
    (i1 n1 p1 i2 n2 p2 : option string) (sigs : list Signature) :
  upsertRows t2 cid r p i2 n2 p2 (upsertRows t1 cid r p i1 n1 p1 sigs)
  = upsertRows t2 cid r p i2 n2 p2 sigs.
Proof.
  unfold upsertRows at 2 3.
  destruct (bool_decide_reflect (Exists (sameKey cid r) sigs)) as [Hex|Hex].
  - unfold upsertRows. rewrite bool_decide_eq_true_2.
    + rewrite <- list_fmap_compose. apply list_fmap_ext. intros i s _. simpl.
      destruct (bool_decide_reflect (sameKey cid r s)) as [Hk|Hk].
      * rewrite bool_decide_eq_true_2 by done. done.
      * by rewrite bool_decide_eq_false_2.
    + apply Exists_fmap. eapply Exists_impl; [exact Hex|].
      intros s Hs. simpl. by case_bool_decide.
  - unfold upsertRows. rewrite bool_decide_eq_true_2.
    + rewrite fmap_app. simpl.
      rewrite (bool_decide_eq_true_2 (sameKey cid r _)) by done.
      f_equal. apply not_Exists_Forall in Hex; [|apply _].
      induction Hex as [|s l Hs _ IH]; [done|].
      rewrite fmap_cons, IH. by rewrite bool_decide_eq_false_2.
    + apply Exists_app. right. by constructor.
Qed.

(** X4: an upsert never removes a row and never moves one: every row
    keeps its place, its contract, its role and its party, and a row of
    another key is not touched at all.  The table grows by at most one
    row. *)
Theorem X4_upsert_keeps_rows (t cid : Z) (r : string) (p : Party)
    (image name position : option string) (sigs : list Signature) :
  (∀ i row, sigs !! i = Some row →
     ∃ row', upsertRows t cid r p image name position sigs !! i = Some row'
             ∧ contract_id row' = contract_id row ∧ role row' = role row
             ∧ signer_role row' = signer_role row
             ∧ (¬ sameKey cid r row → row' = row))
  ∧ (length sigs ≤ length (upsertRows t cid r p image name position sigs)
     ≤ S (length sigs))%nat.
Proof.
  unfold upsertRows. case_bool_decide as Hex; split.
  - intros i row Hrow. rewrite list_lookup_fmap, Hrow. simpl.
    eexists. split; [done|]. case_bool_decide; split_and!; done.
  - rewrite length_fmap. lia.
  - intros i row Hrow. exists row. split_and!; try done.
    by apply lookup_app_l_Some.
  - rewrite length_app. simpl. lia.
Qed.

Lemma upsertRows_partyConsistent (t cid : Z) (r : string) (p : Party)
    (image name position : option string) (sigs : list Signature) :
  classOf r = Some p → partyConsistent sigs →
  partyConsistent (upsertRows t cid r p image name position sigs).
Proof.
  unfold partyConsistent, upsertRows. intros Hr Hc. case_bool_decide.
  - apply Forall_fmap. eapply Forall_impl; [exact Hc|]. intros s Hs. simpl.
    by case_bool_decide.
  - apply Forall_app. split; [done|]. by repeat constructor.
Qed.

Lemma upsertRows_imagesPresent (t cid : Z) (r : string) (p : Party)
    (image name position : option string) (sigs : list Signature) :
  isDataUrl image → imagesPresent sigs →
  imagesPresent (upsertRows t cid r p image name position sigs).
Proof.
  unfold imagesPresent, upsertRows. intros Hi Hc. case_bool_decide.
  - apply Forall_fmap. eapply Forall_impl; [exact Hc|]. intros s Hs. simpl.
    by case_bool_decide.
  - apply Forall_app. split; [done|]. by repeat constructor.
Qed.

Lemma isDataUrl_truthy (image : option string) : isDataUrl image → optTruthy image.
Proof. destruct image as [[|c s]|]; done. Qed.

Lemma withSignatures_nil (t cid : Z) (p : Party) (db : Database) :
  signatures (withSignatures t cid p [] db) = signatures db.
Proof. done. Qed.

Lemma withSignatures_cons (t cid : Z) (p : Party) (it : Item) (items : list Item)
    (db : Database) :
  withSignatures t cid p (it :: items) db
  = withSignatures t cid p items
      {| contracts := contracts db;
         signatures := upsertRows t cid (it_role it) p (it_image it) (it_name it)
                         (it_position it) (signatures db) |}.
Proof. done. Qed.

(** The payload of a route keeps the three properties of the store. *)
Lemma withSignatures_storeInv (t cid : Z) (p : Party) (items : list Item)
    (db : Database) :
  Forall (λ it, itemValid it) items →
  Forall (λ it, classOf (it_role it) = Some p) items →
  storeInv db → storeInv (withSignatures t cid p items db).
Proof.
  revert db. induction items as [|it items IH]; intros db Hv Hc Hinv.
  - by destruct db.
  - apply Forall_cons in Hv as [Hv1 Hv]. apply Forall_cons in Hc as [Hc1 Hc].
    rewrite withSignatures_cons. apply IH; [done|done|].
    destruct Hinv as (Hu & Hp & Hi). unfold storeInv. simpl. split_and!.
    + by apply upsertRows_uniqueKey.
    + by apply upsertRows_partyConsistent.
    + apply upsertRows_imagesPresent; [|done].
      unfold itemValid in Hv1. apply andb_prop_elim in Hv1. tauto.
Qed.

Lemma storedImage_upsert_self (t cid : Z) (r : string) (p : Party)
    (image name position : option string) (db : Database) :
  storeInv db → classOf r = Some p → isDataUrl image →
  storedImage {| contracts := contracts db;
                 signatures := upsertRows t cid r p image name position
                                 (signatures db) |} cid p r.
Proof.
  intros (Hu & Hp & _) Hr Hi.
  destruct (upsertRows_row t cid r p image name position _ Hu)
    as (row & Hrow & Hc & Hrr & Him & _).
  assert (row ∈ upsertRows t cid r p image name position (signatures db)) as Hin.
  { assert (row ∈ filter (sameKey cid r)
                    (upsertRows t cid r p image name position (signatures db)))
      as H by (rewrite Hrow; left).
    by apply list_elem_of_filter in H as [_ H]. }
  pose proof (upsertRows_partyConsistent t cid r p image name position _ Hr Hp) as Hp'.
  unfold partyConsistent in Hp'. rewrite Forall_forall in Hp'.
  specialize (Hp' row Hin). rewrite Hrr, Hr in Hp'. injection Hp' as Hparty.
  unfold storedImage. simpl. apply Exists_exists. exists row.
  split_and!; try done. rewrite Him. by apply isDataUrl_truthy.
Qed.

Lemma storedImage_upsert_keeps (t cid : Z) (r : string) (p : Party)
    (image name position : option string) (db : Database)
    (cid' : Z) (p' : Party) (r' : string) :
  storeInv db → classOf r = Some p → isDataUrl image →
  storedImage db cid' p' r' →
  storedImage {| contracts := contracts db;
                 signatures := upsertRows t cid r p image name position
                                 (signatures db) |} cid' p' r'.
Proof.
  intros Hinv Hr Hi Hst.
  destruct (decide (cid' = cid ∧ r' = r)) as [[-> ->]|Hne].
  - assert (p' = p) as ->.
    { destruct Hinv as (_ & Hp & _). unfold partyConsistent in Hp.
      rewrite Forall_forall in Hp. unfold storedImage in Hst.
      apply Exists_exists in Hst as (row & Hin & _ & Hrole & Hparty & _).
      specialize (Hp row Hin). rewrite Hrole, Hr, Hparty in Hp. by injection Hp. }
    by apply storedImage_upsert_self.
  - rewrite storedImage_filter in Hst |- *. simpl.
    rewrite upsertRows_other; [done| |done].
    intros s [Hc Hrr] [Hc' Hrr']. apply Hne. split; congruence.
Qed.

(** After the upserts of a valid payload every submitted role has a
    stored image, and what was stored before still is. *)
Lemma withSignatures_stored (t cid : Z) (p : Party) (items : list Item)
    (db : Database) :
  Forall (λ it, itemValid it) items →
  Forall (λ it, classOf (it_role it) = Some p) items →
  storeInv db →
  (∀ cid' p' r', storedImage db cid' p' r' →
                 storedImage (withSignatures t cid p items db) cid' p' r')
  ∧ (∀ it, it ∈ items →
           storedImage (withSignatures t cid p items db) cid p (it_role it)).
Proof.
  revert db. induction items as [|it items IH]; intros db Hv Hc Hinv.
  - split; [by destruct db|]. by intros it ?%elem_of_nil.
  - apply Forall_cons in Hv as [Hv1 Hv]. apply Forall_cons in Hc as [Hc1 Hc].
    assert (isDataUrl (it_image it)) as Himg
      by (unfold itemValid in Hv1; apply andb_prop_elim in Hv1; tauto).
    rewrite withSignatures_cons.
    set (db1 := {| contracts := contracts db;
                   signatures := upsertRows t cid (it_role it) p (it_image it)
                                   (it_name it) (it_position it) (signatures db) |}).
    assert (storeInv db1) as Hinv1.
    { apply (withSignatures_storeInv t cid p [it] db);
        [by apply Forall_singleton|by apply Forall_singleton|done]. }
    destruct (IH db1 Hv Hc Hinv1) as [Hkeep Hnew]. split.
    + intros cid' p' r' Hst. apply Hkeep. by apply storedImage_upsert_keeps.
    + intros it' [->|Hin]%elem_of_cons; [|by apply Hnew].
      apply Hkeep. by apply storedImage_upsert_self.
Qed.

(** ** The routes on an accepted payload *)

Lemma requiredOf_classOf (p : Party) (sigs : option (list SigSlot)) (r : string) :
  r ∈ requiredOf p sigs → classOf r = Some p.
Proof.
  unfold requiredOf, classOf. destruct p.
  - rewrite split_customer, list_elem_of_filter. intros [H _].
    by destruct (isCustomerRole r).
  - rewrite split_company, list_elem_of_filter. intros [[Hcu Hco] _].
    destruct (isCustomerRole r); [by exfalso; apply Hcu|].
    by destruct (isCompanyRole r).
Qed.

Lemma missing_as_stored (p : Party) (sigs : option (list SigSlot)) (cid : Z)
    (db : Database) :
  uniqueKey (signatures db) →
  assertSignedAll (requiredOf p sigs)
    (groupSignaturesToMap (selectSignatures cid (signatures db))) p
  = missingOf p sigs cid db.
Proof.
  intros Hu. unfold missingOf. rewrite assertSignedAll_filter.
  apply list_filter_iff. intros r. rewrite <- lacksImage_stored by done.
  destruct (lacksImage _ p r); simpl; split; (done || tauto || congruence).
Qed.

Lemma missingOf_nil (p : Party) (sigs : option (list SigSlot)) (cid : Z)
    (db : Database) :
  missingOf p sigs cid db = []
  ↔ ∀ r, r ∈ requiredOf p sigs → storedImage db cid p r.
Proof.
  unfold missingOf. split.
  - intros Hnil r Hr. destruct (decide (storedImage db cid p r)) as [|Hn]; [done|].
    assert (r ∈ filter (λ r, ¬ storedImage db cid p r) (requiredOf p sigs)) as Hin
      by (by apply list_elem_of_filter).
    rewrite Hnil in Hin. by apply elem_of_nil in Hin.
  - intros Hall.
    destruct (filter _ (requiredOf p sigs)) as [|x l] eqn:Hf; [done|].
    assert (x ∈ filter (λ r, ¬ storedImage db cid p r) (requiredOf p sigs)) as Hin
      by (rewrite Hf; left).
    apply list_elem_of_filter in Hin as [Hn Hx]. by specialize (Hall x Hx).
Qed.

(** What customer-sign does with a payload that passes every check. *)
Lemma customerSign_accepted (env : Env) (doc : string) (items : list Item)
    (db : Database) (contract : Contract) (sigs : option (list SigSlot)) :
  uniqueKey (signatures db) →
  items ≠ [] →
  findContract doc db = Some contract →
  status contract = PENDING →
  config contract = Parsed sigs →
  Forall (λ it, itemValid it) items →
  Forall (λ it, it_role it ∈ requiredOf CUSTOMER sigs) items →
  let db' := withSignatures (now env) (c_id contract) CUSTOMER items db in
  let missing := missingOf CUSTOMER sigs (c_id contract) db' in
  let '(resp, s') := customerSign env doc items db in
  (missing ≠ [] ∧ committed s' = db' ∧ outbox s' = []
   ∧ resp = json (MessagePartial "Customer signed partially"
                    (signedCount CUSTOMER (c_id contract) db')
                    (length (requiredOf CUSTOMER sigs)) missing))
  ∨ (missing = []
     ∧ committed s' = withStatus (c_id contract) CUSTOMER_SIGNED db db'
     ∧ ((optTruthy (company_email contract) = false ∧ outbox s' = []
         ∧ resp = json (Message "Customer signed successfully"))
        ∨ (optTruthy (company_email contract) = true
           ∧ sendMailError env (companyNotice contract) = None
           ∧ outbox s' = [companyNotice contract]
           ∧ resp = json (Message "Customer signed successfully"))
        ∨ (optTruthy (company_email contract) = true
           ∧ ∃ err, sendMailError env (companyNotice contract) = Some err
                    ∧ outbox s' = []
                    ∧ resp = serverError "Customer sign failed" err))).
Proof.
  intros Hu Hitems Hfind Hstatus Hcfg Hvalid Hallowed db' missing.
  assert (uniqueKey (signatures db')) as Hu' by (by apply withSignatures_uniqueKey).
  pose proof (missing_as_stored CUSTOMER sigs (c_id contract) db' Hu') as Hmissing.
  fold missing in Hmissing.
  assert (requiredOf CUSTOMER sigs ≠ []) as Hreq.
  { destruct items as [|it items']; [done|]. apply Forall_cons in Hallowed as [H _].
    intros Hnil. rewrite Hnil in H. by apply elem_of_nil in H. }
  unfold customerSign, customerSignRoute.
  rewrite bool_decide_eq_false_2 by done.
  open_transaction. rewrite Hfind.
  rewrite (bool_decide_eq_false_2 (status contract = COMPLETED)) by (by rewrite Hstatus).
  rewrite (bool_decide_eq_false_2 (status contract = CUSTOMER_SIGNED))
    by (by rewrite Hstatus).
  unfold bind at 1. unfold requiredRoles. rewrite Hcfg. unfold ret at 1.
  rewrite (bool_decide_eq_false_2 (customer _ = [])) by done.
  run_validation items; [|by apply Exists_not_Forall in Hinvalid].
  run_allowed items; [|by apply Exists_not_Forall in Hbad].
  run_upserts.
  fold db'. change (customer (splitRolesBySigner (extractRequiredRolesFromConfig sigs)))
    with (requiredOf CUSTOMER sigs).
  rewrite Hmissing.
  destruct (bool_decide_reflect (missing = [])) as [Hnil|Hne]; simpl.
  - destruct (optTruthy (company_email contract)) eqn:Hmail; simpl.
    + unfold sendMail. simpl. fold (companyNotice contract).
      destruct (sendMailError env (companyNotice contract)) as [err|] eqn:Herr; simpl.
      * right. split; [done|]. split; [done|]. right. right. split; [done|].
        by exists err.
      * right. split; [done|]. split; [done|]. right. left. done.
    + right. split; [done|]. split; [done|]. by left.
  - left. by split_and!.
Qed.

(** What company-sign does with a payload that passes every check. *)
Lemma companySign_accepted (env : Env) (doc : string) (items : list Item)
    (db : Database) (contract : Contract) (sigs : option (list SigSlot)) :
  uniqueKey (signatures db) →
  items ≠ [] →
  findContract doc db = Some contract →
  status contract = CUSTOMER_SIGNED →
  config contract = Parsed sigs →
  Forall (λ it, itemValid it) items →
  Forall (λ it, it_role it ∈ requiredOf COMPANY sigs) items →
  let db' := withSignatures (now env) (c_id contract) COMPANY items db in
  let missing := missingOf COMPANY sigs (c_id contract) db' in
  let completed := withStatus (c_id contract) COMPLETED db db' in
  let '(resp, s') := companySign env doc items db in
  (missing ≠ [] ∧ committed s' = db' ∧ outbox s' = []
   ∧ resp = json (MessagePartial "Company signed partially"
                    (signedCount COMPANY (c_id contract) db')
                    (length (requiredOf COMPANY sigs)) missing))
  ∨ (missing = []
     ∧ ((recipientsOf contract = [] ∧ committed s' = completed ∧ outbox s' = []
         ∧ resp = json (Message "Company signed successfully (no recipients)"))
        ∨ (recipientsOf contract ≠ [] ∧ is_Some (final_sent_at contract)
           ∧ committed s' = completed ∧ outbox s' = []
           ∧ resp = json (Message "Company signed successfully (PDF already sent)"))
        ∨ (recipientsOf contract ≠ [] ∧ final_sent_at contract = None
           ∧ ((∃ err, renderPdfFromUrl env (pdfUrlOf env doc) = inl err
                      ∧ committed s' = completed ∧ outbox s' = []
                      ∧ resp = serverError "Failed to render PDF" err)
              ∨ (∃ rendered err,
                   renderPdfFromUrl env (pdfUrlOf env doc) = inr rendered
                   ∧ finalDocument env rendered = inl err
                   ∧ committed s' = completed ∧ outbox s' = []
                   ∧ resp = serverError "Failed to sign PDF with OneAuthen" err)
              ∨ (∃ rendered pdf err,
                   renderPdfFromUrl env (pdfUrlOf env doc) = inr rendered
                   ∧ finalDocument env rendered = inr pdf
                   ∧ sendMailError env (finalMail contract pdf) = Some err
                   ∧ committed s' = completed ∧ outbox s' = []
                   ∧ resp = serverError "Company sign failed" err)
              ∨ (∃ rendered pdf,
                   renderPdfFromUrl env (pdfUrlOf env doc) = inr rendered
                   ∧ finalDocument env rendered = inr pdf
                   ∧ sendMailError env (finalMail contract pdf) = None
                   ∧ committed s' = markFinalSent (now env) (c_id contract) completed
                   ∧ outbox s' = [finalMail contract pdf]
                   ∧ resp = json (Message
                       ("Company signed successfully (PDF emailed"
                          +:+ (if ONEAUTHEN_ENABLED env then ", OneAuthen signed" else "")
                          +:+ ")"))))))).
Proof.
  intros Hu Hitems Hfind Hstatus Hcfg Hvalid Hallowed db' missing completed.
  assert (uniqueKey (signatures db')) as Hu' by (by apply withSignatures_uniqueKey).
  pose proof (missing_as_stored COMPANY sigs (c_id contract) db' Hu') as Hmissing.
  fold missing in Hmissing.
  assert (requiredOf COMPANY sigs ≠ []) as Hreq.
  { destruct items as [|it items']; [done|]. apply Forall_cons in Hallowed as [H _].
    intros Hnil. rewrite Hnil in H. by apply elem_of_nil in H. }
  unfold companySign, companySignRoute, companySignUntilMail.
  rewrite bool_decide_eq_false_2 by done.
  unfold bind at 1. open_transaction. rewrite Hfind.
  rewrite (bool_decide_eq_true_2 (status contract = CUSTOMER_SIGNED)) by done.
  cbn [negb].
  unfold bind at 1. unfold requiredRoles. rewrite Hcfg. unfold ret at 1.
  rewrite (bool_decide_eq_false_2 (company _ = [])) by done.
  run_validation items; [|by apply Exists_not_Forall in Hinvalid].
  run_allowed items; [|by apply Exists_not_Forall in Hbad].
  run_upserts.
  fold db'. change (company (splitRolesBySigner (extractRequiredRolesFromConfig sigs)))
    with (requiredOf COMPANY sigs).
  rewrite Hmissing.
  destruct (bool_decide_reflect (missing = [])) as [Hnil|Hne]; simpl;
    [|left; by split_and!].
  fold (recipientsOf contract). fold (pdfUrlOf env doc).
  destruct (bool_decide_reflect (recipientsOf contract = [])) as [Hto|Hto]; simpl;
    [right; split; [done|]; by left|].
  destruct (bool_decide_reflect (is_Some (final_sent_at contract))) as [Hsent|Hsent];
    simpl; [right; split; [done|]; right; left; done|].
  assert (final_sent_at contract = None) as Hnull
    by (destruct (final_sent_at contract); [exfalso; eauto|done]).
  destruct (renderPdfFromUrl env (pdfUrlOf env doc)) as [err|rendered] eqn:Hrender;
    simpl.
  { right. split; [done|]. right. right. split; [done|]. split; [done|].
    left. by exists err. }
  fold (finalDocument env rendered).
  destruct (finalDocument env rendered) as [err|pdf] eqn:Hdoc; simpl.
  { right. split; [done|]. right. right. split; [done|]. split; [done|].
    right. left. by exists rendered, err. }
  unfold sendMail. simpl. fold (finalMail contract pdf).
  destruct (sendMailError env (finalMail contract pdf)) as [err|] eqn:Hmail; simpl.
  - right. split; [done|]. right. right. split; [done|]. split; [done|].
    right. right. left. by exists rendered, pdf, err.
  - unfold recordFinalSent, bind, updateFinalSentAt. cbn [committed contracts].
    rewrite bool_decide_eq_false_2.
    + simpl. right. split; [done|]. right. right. split; [done|]. split; [done|].
      right. right. right. by exists rendered, pdf.
    + apply findContract_elem in Hfind.
      assert (setStatus (c_id contract) COMPLETED contract
              ∈ filter (unsent (c_id contract))
                  (setStatus (c_id contract) COMPLETED <$> contracts db)) as Hin.
      { apply list_elem_of_filter. split.
        - unfold unsent. by rewrite setStatus_id, setStatus_sent.
        - by apply list_elem_of_fmap_2. }
      intros Hlen. apply length_zero_iff_nil in Hlen. simpl in Hlen.
      rewrite Hlen in Hin. by apply elem_of_nil in Hin.
Qed.

(** ** Completion of a party *)

Lemma allowed_classOf (p : Party) (sigs : option (list SigSlot)) (items : list Item) :
  Forall (λ it, it_role it ∈ requiredOf p sigs) items →
  Forall (λ it, classOf (it_role it) = Some p) items.
Proof.
  intros H. eapply Forall_impl; [exact H|]. intros it. apply requiredOf_classOf.
Qed.

Lemma complete_after_upserts (t : Z) (p : Party) (sigs : option (list SigSlot))
    (cid : Z) (items : list Item) (db : Database) :
  storeInv db →
  Forall (λ it, itemValid it) items →
  Forall (λ it, it_role it ∈ requiredOf p sigs) items →
  (∀ r, r ∈ requiredOf p sigs → r ∈ it_role <$> items ∨ storedImage db cid p r) →
  missingOf p sigs cid (withSignatures t cid p items db) = [].
Proof.
  intros Hinv Hvalid Hallowed Hcover. apply missingOf_nil. intros r Hr.
  destruct (withSignatures_stored t cid p items db Hvalid
              (allowed_classOf p sigs items Hallowed) Hinv) as [Hkeep Hnew].
  destruct (Hcover r Hr) as [(it & -> & Hit)%list_elem_of_fmap|Hst].
  - by apply Hnew.
  - by apply Hkeep.
Qed.

(** X5: on a PENDING contract, a valid payload of customer roles after
    which every required customer role is signed (in this call or in
    earlier ones) is committed together with the status CUSTOMER_SIGNED.
    The company is then notified at its trimmed address, if it has one;
    when that mail is refused the call answers 500 "Customer sign
    failed", but the signatures and the new status stay committed. *)
Theorem X5_customer_completes (env : Env) (doc : string) (items : list Item)
    (db : Database) (contract : Contract) (sigs : option (list SigSlot)) :
  storeInv db →
  items ≠ [] →
  findContract doc db = Some contract →
  status contract = PENDING →
  config contract = Parsed sigs →
  Forall (λ it, itemValid it) items →
  Forall (λ it, it_role it ∈ requiredOf CUSTOMER sigs) items →
  (∀ r, r ∈ requiredOf CUSTOMER sigs →
        r ∈ it_role <$> items ∨ storedImage db (c_id contract) CUSTOMER r) →
  let db' := withSignatures (now env) (c_id contract) CUSTOMER items db in
  let '(resp, s') := customerSign env doc items db in
  committed s' = withStatus (c_id contract) CUSTOMER_SIGNED db db'
  ∧ (∀ r, r ∈ requiredOf CUSTOMER sigs →
          storedImage (committed s') (c_id contract) CUSTOMER r)
  ∧ (optTruthy (company_email contract) = false →
     outbox s' = [] ∧ resp = json (Message "Customer signed successfully"))
  ∧ (optTruthy (company_email contract) = true →
     sendMailError env (companyNotice contract) = None →
     outbox s' = [companyNotice contract]
     ∧ resp = json (Message "Customer signed successfully"))
  ∧ (∀ err, optTruthy (company_email contract) = true →
     sendMailError env (companyNotice contract) = Some err →
     outbox s' = [] ∧ resp = serverError "Customer sign failed" err).
Proof.
  intros Hinv Hitems Hfind Hstatus Hcfg Hvalid Hallowed Hcover db'.
  pose proof (complete_after_upserts (now env) CUSTOMER sigs (c_id contract) items db
                Hinv Hvalid Hallowed Hcover) as Hnil.
  fold db' in Hnil.
  pose proof (customerSign_accepted env doc items db contract sigs
                (proj1 Hinv) Hitems Hfind Hstatus Hcfg Hvalid Hallowed) as H.
  cbv zeta in H. fold db' in H.
  destruct (customerSign env doc items db) as [resp s'].
  destruct H as [(Hne & _)|(_ & Hdb & Hmail)]; [done|].
  split; [done|]. split.
  - intros r Hr. rewrite Hdb.
    apply (proj1 (missingOf_nil CUSTOMER sigs (c_id contract) db') Hnil) in Hr.
    exact Hr.
  - destruct Hmail as [(Hno & Hout & Hresp)
                      |[(Hyes & Hok & Hout & Hresp)|(Hyes & err & Herr & Hout & Hresp)]];
      split_and!; try congruence; try done.
    + intros err' _ Herr'. rewrite Herr in Herr'. injection Herr' as <-. done.
Qed.

Lemma X5_witness :
  let items := [sampleItem "customer_b"] in
  (storeInv sampleDbOneSigned
   ∧ ∀ r, r ∈ requiredOf CUSTOMER sampleSlots →
          r ∈ it_role <$> items ∨ storedImage sampleDbOneSigned 1 CUSTOMER r)
  ∧ let '(resp, s') := customerSign sampleEnv "DOC-1" items sampleDbOneSigned in
    statusOf (committed s') 1 = [CUSTOMER_SIGNED]
    ∧ resp = json (Message "Customer signed successfully").
Proof.
  intros items.
  assert (storeInv sampleDbOneSigned) as Hinv.
  { unfold storeInv. split_and!; by_evaluation. }
  assert (∀ r, r ∈ requiredOf CUSTOMER sampleSlots →
               r ∈ it_role <$> items ∨ storedImage sampleDbOneSigned 1 CUSTOMER r)
    as Hcover.
  { intros r Hr. change (requiredOf CUSTOMER sampleSlots)
      with ["customer_a"; "customer_b"] in Hr.
    apply elem_of_cons in Hr as [->|Hr].
    - right. by_evaluation.
    - apply list_elem_of_singleton in Hr as ->. left. by_evaluation. }
  split; [by split|].
  pose proof (X5_customer_completes sampleEnv "DOC-1" items sampleDbOneSigned
                (sampleContract PENDING None) sampleSlots Hinv
                ltac:(done) eq_refl eq_refl eq_refl
                ltac:(by_evaluation) ltac:(by_evaluation) Hcover) as H.
  cbv zeta in H.
  destruct (customerSign sampleEnv "DOC-1" items sampleDbOneSigned) as [resp s'].
  destruct H as (Hdb & _ & _ & Hok & _).
  split.
  - rewrite Hdb. reflexivity.
  - apply Hok; reflexivity.
Defined.

(** X6: when the company completes its roles on a CUSTOMER_SIGNED
    contract, the status COMPLETED is committed with the signatures before
    the final document is produced.  A failure of the renderer, of the
    external signature or of the mail answers 500, sends nothing and
    writes nothing more: the contract stays COMPLETED with its
    [final_sent_at] as it was. *)
Theorem X6_pipeline_failure_keeps_completed (env : Env) (doc : string)
    (items : list Item) (db : Database) (contract : Contract)
    (sigs : option (list SigSlot)) :
  storeInv db →
  items ≠ [] →
  findContract doc db = Some contract →
  status contract = CUSTOMER_SIGNED →
  config contract = Parsed sigs →
  Forall (λ it, itemValid it) items →
  Forall (λ it, it_role it ∈ requiredOf COMPANY sigs) items →
  (∀ r, r ∈ requiredOf COMPANY sigs →
        r ∈ it_role <$> items ∨ storedImage db (c_id contract) COMPANY r) →
  let db' := withSignatures (now env) (c_id contract) COMPANY items db in
  let completed := withStatus (c_id contract) COMPLETED db db' in
  let '(resp, s') := companySign env doc items db in
  (committed s' = completed
   ∨ committed s' = markFinalSent (now env) (c_id contract) completed)
  ∧ (http_status resp = 200%nat ∨ http_status resp = 500%nat)
  ∧ (http_status resp = 500%nat → committed s' = completed ∧ outbox s' = [])
  ∧ (recipientsOf contract ≠ [] → final_sent_at contract = None →
     (∀ err, renderPdfFromUrl env (pdfUrlOf env doc) = inl err →
             resp = serverError "Failed to render PDF" err)
     ∧ (∀ rendered err,
          renderPdfFromUrl env (pdfUrlOf env doc) = inr rendered →
          finalDocument env rendered = inl err →
          resp = serverError "Failed to sign PDF with OneAuthen" err)
     ∧ (∀ rendered pdf err,
          renderPdfFromUrl env (pdfUrlOf env doc) = inr rendered →
          finalDocument env rendered = inr pdf →
          sendMailError env (finalMail contract pdf) = Some err →
          resp = serverError "Company sign failed" err)
     ∧ (http_status resp = 200%nat →
        ∃ rendered pdf,
          renderPdfFromUrl env (pdfUrlOf env doc) = inr rendered
          ∧ finalDocument env rendered = inr pdf
          ∧ sendMailError env (finalMail contract pdf) = None)).
Proof.
  intros Hinv Hitems Hfind Hstatus Hcfg Hvalid Hallowed Hcover db' completed.
  pose proof (complete_after_upserts (now env) COMPANY sigs (c_id contract) items db
                Hinv Hvalid Hallowed Hcover) as Hnil.
  fold db' in Hnil.
  pose proof (companySign_accepted env doc items db contract sigs
                (proj1 Hinv) Hitems Hfind Hstatus Hcfg Hvalid Hallowed) as H.
  cbv zeta in H. fold db' in H. fold completed in H.
  destruct (companySign env doc items db) as [resp s'].
  destruct H as [(Hne & _)|(_ & H)]; [done|].
  destruct H as [(Hto & Hdb & Hout & ->)
               |[(Hto & Hsent & Hdb & Hout & ->)
                |(Hto & Hnull & [(err & Hr & Hdb & Hout & ->)
                                |[(rd & err & Hr & Hd & Hdb & Hout & ->)
                                 |[(rd & pdf & err & Hr & Hd & Hm & Hdb & Hout & ->)
                                  |(rd & pdf & Hr & Hd & Hm & Hdb & Hout & ->)]]])]];
    simpl; (split; [auto|]); (split; [auto|]); (split; [done || auto|]);
    intros Hto' Hnull'; try done;
    try (rewrite Hnull' in Hsent; by destruct Hsent).
  all: split_and!;
    [ intros e He; rewrite Hr in He; by simplify_eq
    | intros rd' e Hr' Hd'; rewrite Hr in Hr'; simplify_eq; try done;
      rewrite Hd in Hd'; by simplify_eq
    | intros rd' pdf' e Hr' Hd' Hm'; rewrite Hr in Hr'; simplify_eq; try done;
      rewrite Hd in Hd'; simplify_eq; try done;
      rewrite Hm in Hm'; by simplify_eq
    | intros Hst; try done; by eauto ].
Qed.

Lemma X6_witness :
  let env := {| now := 9; FRONTEND_BASE_URL := "http://localhost:5173";
                FINAL_VIEW_PATH := "/view-signed"; ONEAUTHEN_ENABLED := false;
                sendMailError := λ _, None;
                renderPdfFromUrl := λ _, inl "timeout";
                signPdfWithOneAuthen := λ pdf, inr pdf |} in
  let items := [sampleItem "company_w"] in
  let db := tables worldCustomerSigned in
  storeInv db
  ∧ let '(resp, s') := companySign env "DOC-1" items db in
    http_status resp = 500%nat
    ∧ statusOf (committed s') 1 = [COMPLETED]
    ∧ final_sent_at <$> contracts (committed s') = [None]
    ∧ outbox s' = [].
Proof.
  intros env items db.
  assert (storeInv db) as Hinv by (unfold storeInv; split_and!; by_evaluation).
  split; [exact Hinv|].
  assert (∀ r, r ∈ requiredOf COMPANY sampleSlots →
               r ∈ it_role <$> items ∨ storedImage db 1 COMPANY r) as Hcover.
  { intros r Hr. change (requiredOf COMPANY sampleSlots) with ["company_w"] in Hr.
    apply list_elem_of_singleton in Hr as ->. left. by_evaluation. }
  pose proof (X6_pipeline_failure_keeps_completed env "DOC-1" items db
                (sampleContract CUSTOMER_SIGNED None) sampleSlots Hinv
                ltac:(done) eq_refl eq_refl eq_refl
                ltac:(by_evaluation) ltac:(by_evaluation) Hcover) as H.
  cbv zeta in H.
  destruct (companySign env "DOC-1" items db) as [resp s'].
  destruct H as (_ & _ & Hfail & Hrender).
  assert (recipientsOf (sampleContract CUSTOMER_SIGNED None) ≠ []) as Hto
    by by_evaluation.
  destruct (Hrender Hto eq_refl) as (Hr & _).
  assert (resp = serverError "Failed to render PDF" "timeout") as ->
    by (by apply Hr).
  destruct (Hfail eq_refl) as [-> ->]. by split_and!.
Defined.



(** ** What the answer says about the tables *)

Ltac unchanged :=
  simpl; left; split;
  [ split_and!; [done|repeat constructor; simpl; tauto|done]
  | rewrite ?roleNotAllowedResponse_status; auto 6 ].

Lemma customerSign_status (env : Env) (doc : string) (items : list Item)
    (db : Database) :
  let '(resp, s') := customerSign env doc items db in
  ((committed s' = db ∧ Forall (λ st, ¬ isWrite st) (issued s') ∧ outbox s' = [])
   ∧ (http_status resp = 400%nat ∨ http_status resp = 404%nat
      ∨ http_status resp = 409%nat ∨ http_status resp = 500%nat))
  ∨ http_status resp = 200%nat ∨ http_status resp = 500%nat.
Proof.
  unfold customerSign, customerSignRoute.
  case_bool_decide as Hitems; [unchanged|].
  open_transaction.
  destruct (findContract doc db) as [contract|] eqn:Hfind; [|unchanged].
  case_bool_decide as Hcompleted; [unchanged|].
  case_bool_decide as Hsigned; [unchanged|].
  unfold bind at 1. unfold requiredRoles.
  destruct (config contract) as [err|sigs] eqn:Hcfg; [unchanged|].
  unfold ret at 1.
  case_bool_decide as Hreq; [unchanged|].
  run_validation items; [|unchanged].
  run_allowed items; [|unchanged].
  run_upserts.
  destruct (bool_decide (assertSignedAll _ _ _ = [])); simpl; [|by right; left].
  destruct (optTruthy (company_email contract)); simpl; [|by right; left].
  unfold sendMail. simpl.
  destruct (sendMailError env _); simpl; [by right; right|by right; left].
Qed.

Lemma companySign_status (env : Env) (doc : string) (items : list Item)
    (db : Database) :
  let '(resp, s') := companySign env doc items db in
  ((committed s' = db ∧ Forall (λ st, ¬ isWrite st) (issued s') ∧ outbox s' = [])
   ∧ (http_status resp = 400%nat ∨ http_status resp = 404%nat
      ∨ http_status resp = 409%nat ∨ http_status resp = 500%nat))
  ∨ http_status resp = 200%nat ∨ http_status resp = 500%nat.
Proof.
  unfold companySign, companySignRoute, companySignUntilMail.
  case_bool_decide as Hitems; [unchanged|].
  unfold bind at 1. open_transaction.
  destruct (findContract doc db) as [contract|] eqn:Hfind; [|unchanged].
  destruct (bool_decide_reflect (status contract = CUSTOMER_SIGNED)) as [Hsigned|Hsigned];
    cbn [negb]; [|unchanged].
  unfold bind at 1. unfold requiredRoles.
  destruct (config contract) as [err|sigs] eqn:Hcfg; [unchanged|].
  unfold ret at 1.
  destruct (bool_decide_reflect
              (company (splitRolesBySigner (extractRequiredRolesFromConfig sigs)) = []))
    as [Hreq|Hreq]; [unchanged|].
  run_validation items; [|unchanged].
  run_allowed items; [|unchanged].
  run_upserts.
  destruct (bool_decide (assertSignedAll _ _ _ = [])); simpl; [|by right; left].
  destruct (bool_decide (uniqEmails _ = [])); simpl; [by right; left|].
  destruct (bool_decide (is_Some (final_sent_at contract))); simpl; [by right; left|].
  destruct (renderPdfFromUrl env _); simpl; [by right; right|].
  destruct (if ONEAUTHEN_ENABLED env then _ else _); simpl; [by right; right|].
  unfold sendMail. simpl.
  destruct (sendMailError env _); simpl; [by right; right|].
  unfold recordFinalSent, bind, updateFinalSentAt. cbn [committed contracts].
  case_bool_decide; simpl; by right; left.
Qed.

(** X8: a signing route answers 400, 404 or 409 only before its first
    write: after such an answer the tables are those before the call, no
    writing statement was issued and no mail was sent.  Every other
    answer is 200 or 500. *)
Theorem X8_client_errors_write_nothing (party : Party) (env : Env) (doc : string)
    (items : list Item) (db : Database) :
  let '(resp, s') := signRoute party env doc items db in
  (http_status resp ≠ 200%nat → http_status resp ≠ 500%nat →
   committed s' = db ∧ Forall (λ st, ¬ isWrite st) (issued s') ∧ outbox s' = [])
  ∧ (http_status resp = 200%nat ∨ http_status resp = 400%nat
     ∨ http_status resp = 404%nat ∨ http_status resp = 409%nat
     ∨ http_status resp = 500%nat).
Proof.
  assert (∀ (resp : Response) (s' : Sys),
            ((committed s' = db ∧ Forall (λ st, ¬ isWrite st) (issued s')
              ∧ outbox s' = [])
             ∧ (http_status resp = 400%nat ∨ http_status resp = 404%nat
                ∨ http_status resp = 409%nat ∨ http_status resp = 500%nat))
            ∨ http_status resp = 200%nat ∨ http_status resp = 500%nat →
            (http_status resp ≠ 200%nat → http_status resp ≠ 500%nat →
             committed s' = db ∧ Forall (λ st, ¬ isWrite st) (issued s')
             ∧ outbox s' = [])
            ∧ (http_status resp = 200%nat ∨ http_status resp = 400%nat
               ∨ http_status resp = 404%nat ∨ http_status resp = 409%nat
               ∨ http_status resp = 500%nat)) as Hno.
  { intros resp s' [[Hsame Hst]|[?|?]]; split; auto 6; try done.
    all: destruct Hst as [?|[?|[?|?]]]; auto 6. }
  destruct party; simpl signRoute.
  - pose proof (customerSign_status env doc items db) as Hst.
    destruct (customerSign env doc items db) as [resp s']. by apply Hno.
  - pose proof (companySign_status env doc items db) as Hst.
    destruct (companySign env doc items db) as [resp s']. by apply Hno.
Qed.

(** X9: a signing call for a document id that no contract has is answered
    404 "Contract not found"; a call on a contract whose stored
    configuration does not parse is answered 500 with the message of the
    parser.  In both cases the transaction is rolled back and nothing is
    written. *)
Theorem X9_unknown_contract_or_unreadable_config (party : Party) (env : Env)
    (doc : string) (items : list Item) (db : Database) :
  items ≠ [] →
  let '(resp, s') := signRoute party env doc items db in
  (findContract doc db = None →
   resp = bad 404 "Contract not found" ∧ committed s' = db
   ∧ issued s' = [StBegin; StSelectContract doc; StRollback])
  ∧ (∀ contract err,
       findContract doc db = Some contract →
       status contract = expectedStatus party →
       config contract = BadJson err →
       resp = serverError (match party with
                           | CUSTOMER => "Customer sign failed"
                           | COMPANY => "Company sign failed"
                           end) err
       ∧ committed s' = db
       ∧ issued s' = [StBegin; StSelectContract doc; StRollback]).
Proof.
  intros Hitems.
  destruct (signRoute party env doc items db) as [resp s'] eqn:Hrun.
  split; [intros Hfind|intros contract err Hfind Hst Hcfg]; revert Hrun;
    destruct party; simpl signRoute;
    unfold customerSign, customerSignRoute, companySign, companySignRoute,
      companySignUntilMail;
    rewrite bool_decide_eq_false_2 by done; try unfold bind at 1;
    open_transaction; rewrite Hfind.
  - simpl. by intros [= <- <-].
  - simpl. by intros [= <- <-].
  - simpl in Hst.
    rewrite (bool_decide_eq_false_2 (status contract = COMPLETED))
      by (by rewrite Hst).
    rewrite (bool_decide_eq_false_2 (status contract = CUSTOMER_SIGNED))
      by (by rewrite Hst).
    unfold bind at 1. unfold requiredRoles. rewrite Hcfg. simpl.
    by intros [= <- <-].
  - simpl in Hst.
    rewrite (bool_decide_eq_true_2 (status contract = CUSTOMER_SIGNED)) by done.
    cbn [negb]. unfold bind at 1. unfold requiredRoles. rewrite Hcfg. simpl.
    by intros [= <- <-].
Qed.

Lemma X9_witness :
  [sampleItem "customer_a"] ≠ []
  ∧ (customerSign sampleEnv "DOC-404" [sampleItem "customer_a"] sampleDb).1
    = bad 404 "Contract not found".
Proof.
  assert ([sampleItem "customer_a"] ≠ []) as Hne by done.
  split; [exact Hne|].
  pose proof (X9_unknown_contract_or_unreadable_config CUSTOMER sampleEnv "DOC-404"
                [sampleItem "customer_a"] sampleDb Hne) as H.
  simpl signRoute in H.
  destruct (customerSign sampleEnv "DOC-404" [sampleItem "customer_a"] sampleDb)
    as [resp s'].
  destruct H as [H _]. by destruct (H eq_refl) as [-> _].
Defined.

(** ** The writes of a call in flight *)

Lemma companySignUntilMail_accepted (env : Env) (doc : string) (items : list Item)
    (db : Database) (contract : Contract) (sigs : option (list SigSlot)) :
  uniqueKey (signatures db) →
  items ≠ [] →
  findContract doc db = Some contract →
  status contract = CUSTOMER_SIGNED →
  config contract = Parsed sigs →
  Forall (λ it, itemValid it) items →
  Forall (λ it, it_role it ∈ requiredOf COMPANY sigs) items →
  let db' := withSignatures (now env) (c_id contract) COMPANY items db in
  let missing := missingOf COMPANY sigs (c_id contract) db' in
  let '(r, s') := companySignUntilMail env doc items (fresh db) in
  (missing ≠ [] ∧ committed s' = db')
  ∨ (missing = [] ∧ requiredOf COMPANY sigs ≠ []
     ∧ committed s' = withStatus (c_id contract) COMPLETED db db').
Proof.
  intros Hu Hitems Hfind Hstatus Hcfg Hvalid Hallowed db' missing.
  assert (uniqueKey (signatures db')) as Hu' by (by apply withSignatures_uniqueKey).
  pose proof (missing_as_stored COMPANY sigs (c_id contract) db' Hu') as Hmissing.
  fold missing in Hmissing.
  assert (requiredOf COMPANY sigs ≠ []) as Hreq.
  { destruct items as [|it items']; [done|]. apply Forall_cons in Hallowed as [H _].
    intros Hnil. rewrite Hnil in H. by apply elem_of_nil in H. }
  unfold companySignUntilMail.
  rewrite bool_decide_eq_false_2 by done.
  open_transaction. rewrite Hfind.
  rewrite (bool_decide_eq_true_2 (status contract = CUSTOMER_SIGNED)) by done.
  cbn [negb].
  unfold bind at 1. unfold requiredRoles. rewrite Hcfg. unfold ret at 1.
  rewrite (bool_decide_eq_false_2 (company _ = [])) by done.
  run_validation items; [|by apply Exists_not_Forall in Hinvalid].
  run_allowed items; [|by apply Exists_not_Forall in Hbad].
  run_upserts.
  fold db'. change (company (splitRolesBySigner (extractRequiredRolesFromConfig sigs)))
    with (requiredOf COMPANY sigs).
  rewrite Hmissing.
  destruct (bool_decide_reflect (missing = [])) as [Hnil|Hne]; simpl; [|by left].
  destruct (bool_decide (uniqEmails _ = [])); simpl; [by right|].
  destruct (bool_decide (is_Some (final_sent_at contract))); simpl; [by right|].
  destruct (renderPdfFromUrl env _); simpl; [by right|].
  destruct (if ONEAUTHEN_ENABLED env then _ else _); simpl; [by right|].
  unfold sendMail. simpl.
  destruct (sendMailError env _); simpl; by right.
Qed.

Lemma replay_upserts (t cid : Z) (party : Party) (items rest : list Item)
    (w d : Database) :
  foldl (replayStatement t)
    {| rp_items := items ++ rest; rp_working := w; rp_committed := d |}
    ((λ it, StUpsert cid (it_role it) party) <$> items)
  = {| rp_items := rest; rp_working := withSignatures t cid party items w;
       rp_committed := d |}.
Proof.
  revert w. induction items as [|it items IH]; intros w.
  - simpl. unfold withSignatures. simpl. by destruct w.
  - simpl. rewrite IH. by rewrite withSignatures_cons.
Qed.

Lemma replay_no_writes (t : Z) (items : list Item) (log : list Statement)
    (db : Database) :
  Forall (λ st, ¬ isWrite st) log → replay t items log db = db.
Proof.
  unfold replay. intros Hlog.
  assert (foldl (replayStatement t)
            {| rp_items := items; rp_working := db; rp_committed := db |} log
          = {| rp_items := items; rp_working := db; rp_committed := db |}) as ->; [|done].
  induction Hlog as [|st log Hst _ IH]; [done|].
  destruct st; simpl in *; try done; by exfalso; apply Hst.
Qed.

(** The log of an accepted call: the transaction is opened, the contract
    is read, the items are upserted, and [tail] follows. *)
Lemma replay_accepted (t cid : Z) (party : Party) (items : list Item) (doc : string)
    (tail : list Statement) (db : Database) :
  replay t items
    (StBegin :: StSelectContract doc
       :: ((λ it, StUpsert cid (it_role it) party) <$> items) ++ tail) db
  = rp_committed
      (foldl (replayStatement t)
         {| rp_items := []; rp_working := withSignatures t cid party items db;
            rp_committed := db |} tail).
Proof.
  unfold replay. simpl. rewrite foldl_app.
  pose proof (replay_upserts t cid party items [] db db) as H.
  rewrite app_nil_r in H. by rewrite H.
Qed.

Lemma customerSign_lands (env : Env) (doc : string) (items : list Item)
    (read db : Database) (contract : Contract) (sigs : option (list SigSlot)) :
  uniqueKey (signatures read) →
  items ≠ [] →
  findContract doc read = Some contract →
  status contract = PENDING →
  config contract = Parsed sigs →
  Forall (λ it, itemValid it) items →
  Forall (λ it, it_role it ∈ requiredOf CUSTOMER sigs) items →
  let missing := missingOf CUSTOMER sigs (c_id contract)
                   (withSignatures (now env) (c_id contract) CUSTOMER items read) in
  let db' := withSignatures (now env) (c_id contract) CUSTOMER items db in
  replay (now env) items (issued (customerSignRoute env doc items (fresh read)).2) db
  = if bool_decide (missing = [])
    then withStatus (c_id contract) CUSTOMER_SIGNED db db' else db'.
Proof.
  intros Hu Hitems Hfind Hstatus Hcfg Hvalid Hallowed missing db'.
  pose proof (missing_as_stored CUSTOMER sigs (c_id contract)
                (withSignatures (now env) (c_id contract) CUSTOMER items read)
                (withSignatures_uniqueKey _ _ _ _ _ Hu)) as Hmissing.
  fold missing in Hmissing.
  assert (requiredOf CUSTOMER sigs ≠ []) as Hreq.
  { destruct items as [|it items']; [done|]. apply Forall_cons in Hallowed as [H _].
    intros Hnil. rewrite Hnil in H. by apply elem_of_nil in H. }
  unfold customerSignRoute.
  rewrite bool_decide_eq_false_2 by done.
  open_transaction. rewrite Hfind.
  rewrite (bool_decide_eq_false_2 (status contract = COMPLETED)) by (by rewrite Hstatus).
  rewrite (bool_decide_eq_false_2 (status contract = CUSTOMER_SIGNED))
    by (by rewrite Hstatus).
  unfold bind at 1. unfold requiredRoles. rewrite Hcfg. unfold ret at 1.
  rewrite (bool_decide_eq_false_2 (customer _ = [])) by done.
  run_validation items; [|by apply Exists_not_Forall in Hinvalid].
  run_allowed items; [|by apply Exists_not_Forall in Hbad].
  run_upserts.
  change (customer (splitRolesBySigner (extractRequiredRolesFromConfig sigs)))
    with (requiredOf CUSTOMER sigs).
  rewrite Hmissing.
  destruct (bool_decide (missing = [])); simpl.
  - destruct (optTruthy (company_email contract)); simpl.
    + unfold sendMail. simpl.
      destruct (sendMailError env _); simpl;
        rewrite <- !app_assoc; by rewrite replay_accepted.
    + rewrite <- !app_assoc. by rewrite replay_accepted.
  - rewrite <- !app_assoc. by rewrite replay_accepted.
Qed.

Lemma companySign_lands (env : Env) (doc : string) (items : list Item)
    (read db : Database) (contract : Contract) (sigs : option (list SigSlot)) :
  uniqueKey (signatures read) →
  items ≠ [] →
  findContract doc read = Some contract →
  status contract = CUSTOMER_SIGNED →
  config contract = Parsed sigs →
  Forall (λ it, itemValid it) items →
  Forall (λ it, it_role it ∈ requiredOf COMPANY sigs) items →
  let missing := missingOf COMPANY sigs (c_id contract)
                   (withSignatures (now env) (c_id contract) COMPANY items read) in
  let db' := withSignatures (now env) (c_id contract) COMPANY items db in
  let '(r, s) := companySignUntilMail env doc items (fresh read) in
  replay (now env) items (issued s) db
  = (if bool_decide (missing = [])
     then withStatus (c_id contract) COMPLETED db db' else db')
  ∧ ∀ c, r = Next c → c = contract ∧ missing = [] ∧ final_sent_at contract = None.
Proof.
  intros Hu Hitems Hfind Hstatus Hcfg Hvalid Hallowed missing db'.
  pose proof (missing_as_stored COMPANY sigs (c_id contract)
                (withSignatures (now env) (c_id contract) COMPANY items read)
                (withSignatures_uniqueKey _ _ _ _ _ Hu)) as Hmissing.
  fold missing in Hmissing.
  assert (requiredOf COMPANY sigs ≠ []) as Hreq.
  { destruct items as [|it items']; [done|]. apply Forall_cons in Hallowed as [H _].
    intros Hnil. rewrite Hnil in H. by apply elem_of_nil in H. }
  unfold companySignUntilMail.
  rewrite bool_decide_eq_false_2 by done.
  open_transaction. rewrite Hfind.
  rewrite (bool_decide_eq_true_2 (status contract = CUSTOMER_SIGNED)) by done.
  cbn [negb].
  unfold bind at 1. unfold requiredRoles. rewrite Hcfg. unfold ret at 1.
  rewrite (bool_decide_eq_false_2 (company _ = [])) by done.
  run_validation items; [|by apply Exists_not_Forall in Hinvalid].
  run_allowed items; [|by apply Exists_not_Forall in Hbad].
  run_upserts.
  change (company (splitRolesBySigner (extractRequiredRolesFromConfig sigs)))
    with (requiredOf COMPANY sigs).
  rewrite Hmissing.
  destruct (bool_decide_reflect (missing = [])) as [Hnil|Hne]; simpl;
    [|rewrite <- !app_assoc; by rewrite replay_accepted].
  destruct (bool_decide (uniqEmails _ = [])); simpl;
    [rewrite <- !app_assoc; by rewrite replay_accepted|].
  destruct (bool_decide_reflect (is_Some (final_sent_at contract))) as [Hsent|Hsent];
    simpl; [rewrite <- !app_assoc; by rewrite replay_accepted|].
  assert (final_sent_at contract = None) as Hnull
    by (destruct (final_sent_at contract); [exfalso; eauto|done]).
  destruct (renderPdfFromUrl env _); simpl;
    [rewrite <- !app_assoc; by rewrite replay_accepted|].
  destruct (if ONEAUTHEN_ENABLED env then _ else _); simpl;
    [rewrite <- !app_assoc; by rewrite replay_accepted|].
  unfold sendMail. simpl.
  destruct (sendMailError env _); simpl;
    rewrite <- !app_assoc; rewrite replay_accepted; split; try done.
  by intros c [= <-].
Qed.

(** What a call in flight writes when it commits on the tables [db]:
    nothing, or its payload, with the next status when what it has read
    and its payload leave no required role of its party unsigned. *)
Lemma landed_cases (p : Signing) (db : Database) :
  uniqueKey (signatures (sg_read p)) →
  (landed p db = db ∧ ∃ resp, (served p).1 = Respond resp)
  ∨ ∃ contract sigs,
      findContract (sg_documentId p) (sg_read p) = Some contract
      ∧ config contract = Parsed sigs
      ∧ status contract = expectedStatus (sg_party p)
      ∧ sg_items p ≠ []
      ∧ Forall (λ it, itemValid it) (sg_items p)
      ∧ Forall (λ it, it_role it ∈ requiredOf (sg_party p) sigs) (sg_items p)
      ∧ landed p db
        = (if bool_decide
                (missingOf (sg_party p) sigs (c_id contract)
                   (withSignatures (now (sg_env p)) (c_id contract) (sg_party p)
                      (sg_items p) (sg_read p)) = [])
           then withStatus (c_id contract) (nextStatus (sg_party p)) db
                  (withSignatures (now (sg_env p)) (c_id contract) (sg_party p)
                     (sg_items p) db)
           else withSignatures (now (sg_env p)) (c_id contract) (sg_party p)
                  (sg_items p) db)
      ∧ ∀ c, (served p).1 = Next c →
             c = contract ∧ sg_party p = COMPANY ∧ final_sent_at contract = None
             ∧ missingOf COMPANY sigs (c_id contract)
                 (withSignatures (now (sg_env p)) (c_id contract) COMPANY
                    (sg_items p) (sg_read p)) = [].
Proof.
  destruct p as [party env doc items read]. unfold landed, served. simpl. intros Hu.
  destruct (decide (items = [])) as [->|Hitems].
  { left. destruct party; simpl; split; try done; by eexists. }
  destruct party.
  - pose proof (customerSign_cases env doc items read) as Hc.
    pose proof (customerSign_lands env doc items read db) as Hl.
    unfold customerSign in Hc.
    destruct (customerSignRoute env doc items (fresh read)) as [r s] eqn:Hrun.
    simpl in *.
    destruct Hc as [(_ & Hnw & _)|(contract & sigs & Hfind & Hst & Hcfg & Hv & Ha & _)].
    + left. split; [by apply replay_no_writes|by eexists].
    + right. exists contract, sigs. split_and!; try done.
      by apply Hl.
  - pose proof (companySignUntilMail_cases env doc items read) as Hc.
    pose proof (companySign_lands env doc items read db) as Hl.
    destruct (companySignUntilMail env doc items (fresh read)) as [r s] eqn:Hrun.
    simpl.
    destruct Hc as [(_ & Hnw & (resp & -> & _) & _)
                   |(contract & sigs & Hfind & Hst & Hcfg & Hv & Ha & _)].
    + left. split; [by apply replay_no_writes|by eexists].
    + right. exists contract, sigs.
      specialize (Hl contract sigs Hu Hitems Hfind Hst Hcfg Hv Ha).
      cbv zeta in Hl. destruct Hl as [Hland Hnext].
      split_and!; try done.
      intros c Hc. destruct (Hnext c Hc) as (-> & Hnil & Hnull). by split_and!.
Qed.

(** A call that is served alone does what its route does on the tables. *)
Lemma landed_alone (p : Signing) :
  uniqueKey (signatures (sg_read p)) →
  landed p (sg_read p) = committed (served p).2.
Proof.
  destruct p as [party env doc items read]. unfold landed, served. simpl. intros Hu.
  destruct (decide (items = [])) as [->|Hne]; [by destruct party|].
  destruct party.
  - pose proof (customerSign_cases env doc items read) as Hc.
    pose proof (customerSign_lands env doc items read read) as Hl.
    pose proof (customerSign_accepted env doc items read) as Hacc.
    unfold customerSign in Hc, Hacc.
    destruct (customerSignRoute env doc items (fresh read)) as [r s] eqn:Hrun.
    simpl in Hc. simpl.
    destruct Hc as [(-> & Hnw & _)|(contract & sigs & Hfind & Hst & Hcfg & Hv & Ha & _)].
    + by apply replay_no_writes.
    + specialize (Hl contract sigs Hu Hne Hfind Hst Hcfg Hv Ha).
      specialize (Hacc contract sigs Hu Hne Hfind Hst Hcfg Hv Ha).
      simpl in Hl, Hacc. rewrite Hl.
      destruct Hacc as [(Hm & -> & _)|(Hm & -> & _)].
      * by rewrite bool_decide_eq_false_2.
      * by rewrite bool_decide_eq_true_2.
  - pose proof (companySignUntilMail_cases env doc items read) as Hc.
    pose proof (companySign_lands env doc items read read) as Hl.
    pose proof (companySignUntilMail_accepted env doc items read) as Hacc.
    destruct (companySignUntilMail env doc items (fresh read)) as [r s] eqn:Hrun.
    simpl.
    destruct Hc as [(-> & Hnw & _)|(contract & sigs & Hfind & Hst & Hcfg & Hv & Ha & _)].
    + by apply replay_no_writes.
    + specialize (Hl contract sigs Hu Hne Hfind Hst Hcfg Hv Ha).
      specialize (Hacc contract sigs Hu Hne Hfind Hst Hcfg Hv Ha).
      simpl in Hl, Hacc. destruct Hl as [Hl _]. rewrite Hl.
      destruct Hacc as [(Hm & ->)|(Hm & _ & ->)].
      * by rewrite bool_decide_eq_false_2.
      * by rewrite bool_decide_eq_true_2.
Qed.

(** ** The workflow over time *)

Lemma storedImage_sigs (db db' : Database) (cid : Z) (p : Party) (r : string) :
  signatures db' = signatures db → storedImage db cid p r → storedImage db' cid p r.
Proof. unfold storedImage. by intros ->. Qed.

Lemma signedAsStatus_mono (db db' : Database) (c : Contract) :
  (∀ cid p r, storedImage db cid p r → storedImage db' cid p r) →
  signedAsStatus db c → signedAsStatus db' c.
Proof.
  intros Hmono (sigs & Hcfg & Hcu & Hco). exists sigs. split; [done|].
  split; intros H; [destruct (Hcu H) as [? ?]|destruct (Hco H) as [? ?]];
    split; auto.
Qed.

Lemma signedAsStatus_same (db db' : Database) (c c' : Contract) :
  signatures db' = signatures db →
  c_id c' = c_id c → status c' = status c → config c' = config c →
  signedAsStatus db c → signedAsStatus db' c'.
Proof.
  intros Hs Hid Hst Hcfg (sigs & Hc & Hcu & Hco). exists sigs.
  rewrite Hid, Hst, Hcfg. split; [done|].
  split; intros H; [destruct (Hcu H) as [? Ha]|destruct (Hco H) as [? Ha]];
    split; auto; intros r Hr; eapply storedImage_sigs; eauto.
Qed.

Lemma storeInv_sigs (db db' : Database) :
  signatures db' = signatures db → storeInv db → storeInv db'.
Proof. unfold storeInv. by intros ->. Qed.

Lemma setStatus_config (cid : Z) (st : Status) (c : Contract) :
  config (setStatus cid st c) = config c.
Proof. unfold setStatus. by case_bool_decide. Qed.

Lemma upsertRows_Forall_key (P : Z → string → Party → Prop) (t cid : Z) (r : string)
    (p : Party) (image name position : option string) (sigs : list Signature) :
  Forall (λ row, P (contract_id row) (role row) (signer_role row)) sigs →
  P cid r p →
  Forall (λ row, P (contract_id row) (role row) (signer_role row))
         (upsertRows t cid r p image name position sigs).
Proof.
  unfold upsertRows. intros Hall Hnew. case_bool_decide.
  - apply Forall_fmap. eapply Forall_impl; [exact Hall|]. intros s Hs. simpl.
    by case_bool_decide.
  - apply Forall_app. split; [done|]. by apply Forall_singleton.
Qed.

Lemma withSignatures_Forall_key (P : Z → string → Party → Prop) (t cid : Z)
    (p : Party) (items : list Item) (db : Database) :
  Forall (λ row, P (contract_id row) (role row) (signer_role row)) (signatures db) →
  Forall (λ it, P cid (it_role it) p) items →
  Forall (λ row, P (contract_id row) (role row) (signer_role row))
         (signatures (withSignatures t cid p items db)).
Proof.
  revert db. induction items as [|it items IH]; intros db Hall Hitems; [done|].
  apply Forall_cons in Hitems as [H1 Hitems].
  rewrite withSignatures_cons. apply IH; [|done]. simpl.
  by apply upsertRows_Forall_key.
Qed.

Lemma rowBacked_contracts (cs cs' : list Contract) (row : Signature) :
  (∀ c, c ∈ cs → ∃ c', c' ∈ cs' ∧ c_id c' = c_id c ∧ config c' = config c) →
  rowBacked cs row → rowBacked cs' row.
Proof.
  intros Hcs (c & sigs & Hin & Hid & Hcfg & Hr).
  destruct (Hcs c Hin) as (c' & Hin' & Hid' & Hcfg').
  exists c', sigs. rewrite Hid', Hcfg'. by split_and!.
Qed.

Lemma storedImage_upsert_inv (t cid : Z) (r : string) (p : Party)
    (image name position : option string) (db : Database)
    (cid' : Z) (p' : Party) (r' : string) :
  storeInv db → classOf r = Some p →
  storedImage {| contracts := contracts db;
                 signatures := upsertRows t cid r p image name position
                                 (signatures db) |} cid' p' r' →
  (cid' = cid ∧ r' = r ∧ p' = p) ∨ storedImage db cid' p' r'.
Proof.
  intros (Hu & Hp & Hi) Hr Hst.
  destruct (decide (cid' = cid ∧ r' = r)) as [[-> ->]|Hne].
  - left. split; [done|]. split; [done|].
    pose proof (upsertRows_partyConsistent t cid r p image name position _ Hr Hp) as Hp'.
    unfold partyConsistent in Hp'. rewrite Forall_forall in Hp'.
    unfold storedImage in Hst. simpl in Hst.
    apply Exists_exists in Hst as (row & Hin & _ & Hrole & Hparty & _).
    specialize (Hp' row Hin). rewrite Hrole, Hr, Hparty in Hp'. by injection Hp'.
  - right. rewrite storedImage_filter in Hst |- *. simpl in Hst.
    rewrite upsertRows_other in Hst; [done| |done].
    intros s [Hc Hrr] [Hc' Hrr']. apply Hne. split; congruence.
Qed.

(** The upserts of a payload keep the order of two stores: what they
    leave stored in the smaller one, they leave stored in the larger. *)
Lemma withSignatures_mono (t cid : Z) (p : Party) (items : list Item)
    (read db : Database) :
  Forall (λ it, itemValid it) items →
  Forall (λ it, classOf (it_role it) = Some p) items →
  storeInv read → storeInv db →
  (∀ cid' q r, storedImage read cid' q r → storedImage db cid' q r) →
  ∀ cid' q r, storedImage (withSignatures t cid p items read) cid' q r →
              storedImage (withSignatures t cid p items db) cid' q r.
Proof.
  revert read db. induction items as [|it items IH]; intros read db Hv Hc Hr Hd Hmono.
  - intros cid' q r. unfold withSignatures, storedImage. simpl. apply Hmono.
  - apply Forall_cons in Hv as [Hv1 Hv]. apply Forall_cons in Hc as [Hc1 Hc].
    assert (isDataUrl (it_image it)) as Himg
      by (unfold itemValid in Hv1; apply andb_prop_elim in Hv1; tauto).
    rewrite !withSignatures_cons. apply IH; try done.
    + apply (withSignatures_storeInv t cid p [it] read);
        [by apply Forall_singleton|by apply Forall_singleton|done].
    + apply (withSignatures_storeInv t cid p [it] db);
        [by apply Forall_singleton|by apply Forall_singleton|done].
    + intros cid' q r Hst.
      apply storedImage_upsert_inv in Hst as [(-> & -> & ->)|Hst]; [| |done|done].
      * by apply storedImage_upsert_self.
      * apply storedImage_upsert_keeps; try done. by apply Hmono.
Qed.

Lemma required_nonempty (p : Party) (sigs : option (list SigSlot)) (items : list Item) :
  items ≠ [] → Forall (λ it, it_role it ∈ requiredOf p sigs) items →
  requiredOf p sigs ≠ [].
Proof.
  intros Hitems Ha. destruct items as [|it items']; [done|].
  apply Forall_cons in Ha as [H _]. intros Hnil. rewrite Hnil in H.
  by apply elem_of_nil in H.
Qed.

(** The status of every contract is backed by its signatures after a
    call in flight has committed. *)
Lemma signed_after_landing (t : Z) (party : Party) (items : list Item)
    (read db : Database) (contract : Contract) (sigs : option (list SigSlot))
    (move : bool) :
  NoDup (c_id <$> contracts db) →
  storeInv db →
  Forall (signedAsStatus db) (contracts db) →
  storeInv read →
  Forall (signedAsStatus read) (contracts read) →
  behind read db →
  contract ∈ contracts read →
  config contract = Parsed sigs →
  status contract = expectedStatus party →
  items ≠ [] →
  Forall (λ it, itemValid it) items →
  Forall (λ it, it_role it ∈ requiredOf party sigs) items →
  (move = true →
   missingOf party sigs (c_id contract)
     (withSignatures t (c_id contract) party items read) = []) →
  let db' := withSignatures t (c_id contract) party items db in
  let after := if move then withStatus (c_id contract) (nextStatus party) db db'
               else db' in
  Forall (signedAsStatus after) (contracts after).
Proof.
  intros Hnd Hinv Hall Hrinv Hrall [Hrows Hseen] Hin Hcfg Hstatus Hitems Hvalid
    Hallowed Hmove db' after.
  pose proof (allowed_classOf party sigs items Hallowed) as Hclass.
  pose proof (required_nonempty party sigs items Hitems Hallowed) as Hreq.
  destruct (withSignatures_stored t (c_id contract) party items db Hvalid Hclass Hinv)
    as [Hkeep _]. fold db' in Hkeep.
  pose proof (withSignatures_mono t (c_id contract) party items read db
                Hvalid Hclass Hrinv Hinv Hseen) as Hmono. fold db' in Hmono.
  rewrite Forall_forall in Hall.
  destruct move; subst after.
  - unfold withStatus. simpl. apply Forall_fmap, Forall_forall. intros c Hc. simpl.
    destruct (decide (c_id c = c_id contract)) as [Hid|Hid].
    + destruct (Hrows contract Hin) as (c0 & Hc0 & Hid0 & Hcfg0).
      assert (c = c0) as -> by (eapply ids_inj; eauto; congruence).
      rewrite Hcfg in Hcfg0.
      exists sigs. rewrite setStatus_config, setStatus_id. split; [done|].
      unfold setStatus. rewrite bool_decide_eq_true_2 by done. simpl.
      specialize (Hmove eq_refl). rewrite Hid.
      assert (allStored party sigs (c_id contract)
                {| contracts := setStatus (c_id contract) (nextStatus party)
                                  <$> contracts db;
                   signatures := signatures db' |}) as Hparty.
      { split; [done|]. intros r Hr.
        eapply storedImage_sigs; [|apply Hmono]; [done|].
        by apply (proj1 (missingOf_nil party sigs (c_id contract) _) Hmove). }
      destruct party; simpl in *.
      * split; [by intros _|done].
      * split; intros _; [|done].
        rewrite Forall_forall in Hrall.
        destruct (Hrall contract Hin) as (sg & Hcfg' & Hcu & _).
        rewrite Hcfg in Hcfg'. injection Hcfg' as <-.
        destruct Hcu as [Hne Ha]; [by rewrite Hstatus|]. split; [done|].
        intros r Hr. eapply storedImage_sigs; [|by apply Hkeep, Hseen, Ha]. done.
    + assert (setStatus (c_id contract) (nextStatus party) c = c) as ->
        by (unfold setStatus; by rewrite bool_decide_eq_false_2).
      eapply (signedAsStatus_mono db); [|by apply Hall].
      intros cid q r Hs. eapply storedImage_sigs; [|by apply Hkeep]. done.
  - apply Forall_forall. intros c Hc.
    eapply (signedAsStatus_mono db); [done|]. by apply Hall.
Qed.

Lemma grows_refl (db : Database) : grows db db.
Proof. split; [|done]. intros i c Hi. exists c. by split_and!. Qed.

Lemma grows_trans (db1 db2 db3 : Database) :
  grows db1 db2 → grows db2 db3 → grows db1 db3.
Proof.
  intros [H12 S12] [H23 S23]. split; [|by auto].
  intros i c Hi.
  destruct (H12 i c Hi) as (c2 & Hi2 & Hid2 & Hdoc2 & Hcfg2 & Hmail2 & Hst2 & Hs2).
  destruct (H23 i c2 Hi2) as (c3 & Hi3 & Hid3 & Hdoc3 & Hcfg3 & Hmail3 & Hst3 & Hs3).
  exists c3. split_and!; try congruence; auto.
Qed.

Lemma grows_fmap (f : Contract → Contract) (db db' : Database) :
  contracts db' = f <$> contracts db →
  (∀ c, c_id (f c) = c_id c ∧ document_id (f c) = document_id c
        ∧ config (f c) = config c ∧ company_email (f c) = company_email c
        ∧ (status c ≠ PENDING → status (f c) ≠ PENDING)
        ∧ (∀ t, final_sent_at c = Some t → final_sent_at (f c) = Some t)) →
  (∀ cid q r, storedImage db cid q r → storedImage db' cid q r) →
  grows db db'.
Proof.
  intros Hmap Hf Hs. split; [|done]. intros i c Hi. exists (f c).
  rewrite Hmap, list_lookup_fmap, Hi. split; [done|]. apply Hf.
Qed.

Lemma behind_grows (read db db' : Database) :
  behind read db → grows db db' → behind read db'.
Proof.
  intros [Hrows Hseen] [Hkeep Hstored]. split; [|by auto].
  intros c Hc. destruct (Hrows c Hc) as (c1 & Hc1 & Hid1 & Hcfg1).
  apply list_elem_of_lookup_1 in Hc1 as [i Hi].
  destruct (Hkeep i c1 Hi) as (c2 & Hi2 & Hid2 & _ & Hcfg2 & _).
  exists c2. split_and!; try congruence. by eapply list_elem_of_lookup_2.
Qed.

Lemma readInv_grows (p : Signing) (db db' : Database) :
  readInv db p → grows db db' → readInv db' p.
Proof. intros (? & ? & ?) ?. split_and!; try done. by eapply behind_grows. Qed.

Lemma fullySigned_grows (db db' : Database) (i : nat) (c c' : Contract) :
  grows db db' → contracts db !! i = Some c → contracts db' !! i = Some c' →
  fullySigned db c → fullySigned db' c'.
Proof.
  intros [Hkeep Hstored] Hi Hi' (Hst & sigs & Hcfg & [Hcu1 Hcu2] & [Hco1 Hco2]).
  destruct (Hkeep i c Hi) as (c2 & Hi2 & Hid2 & _ & Hcfg2 & _ & Hst2 & _).
  rewrite Hi' in Hi2. injection Hi2 as <-.
  split; [by auto|]. exists sigs. rewrite Hid2, Hcfg2.
  split_and!; [done| |]; (split; [done|]; intros r Hr; auto).
Qed.

Lemma completed_fullySigned (db : Database) (c : Contract) :
  signedAsStatus db c → status c = COMPLETED → fullySigned db c.
Proof.
  intros (sigs & Hcfg & Hcu & Hco) Hst. split; [by rewrite Hst|].
  exists sigs. split_and!; [done| |by apply Hco]. apply Hcu. by rewrite Hst.
Qed.

(** What one step does to the tables. *)
Lemma step_effect (w w' : World) :
  Forall (readInv (tables w)) (signing w) → step w w' → Effect w (tables w').
Proof.
  intros Hread Hstep.
  destruct Hstep as [documentId sigs email w
                    |documentId email w
                    |party env documentId items w
                    |p before after w Hsplit
                    |p before after w Hsplit
                    |env c before after w Hsplit]; simpl.
  - by eapply effect_created.
  - unfold sendSignEmail. destruct (findContract documentId (tables w)) as [c|].
    + by eapply effect_address.
    + by apply effect_none.
  - by apply effect_none.
  - by apply effect_none.
  - assert (p ∈ signing w) as Hp.
    { rewrite Hsplit. apply elem_of_app. right. left. }
    rewrite Forall_forall in Hread. destruct (Hread p Hp) as ((Hu & _) & _).
    destruct (landed_cases p (tables w) Hu)
      as [[-> _]|(contract & sigs & Hfind & Hcfg & Hst & Hitems & Hv & Ha & -> & _)];
      [by apply effect_none|].
    apply findContract_elem in Hfind.
    eapply (effect_signed w _ p contract sigs); try done.
    by intros ?%bool_decide_eq_true.
  - pose proof (recordFinalSent_run env c (fresh (tables w))) as H.
    destruct (recordFinalSent env c (fresh (tables w))) as [r s']. simpl in *.
    destruct H as (-> & _).
    eapply (effect_sent w _ (now env) c); [|done].
    rewrite Hsplit. apply elem_of_app. right. left.
Qed.

Lemma effect_grows (w : World) (db' : Database) :
  storeInv (tables w) → Effect w db' → grows (tables w) db'.
Proof.
  intros Hstore
    [->|doc sigs email ->|email cid ->|t f Hf ->
    |p contract sigs move Hp Hin Hcfg Hst Hne Hv Ha Hm ->].
  - apply grows_refl.
  - split; [|done]. intros i c Hi. exists c. simpl.
    rewrite lookup_app_l by (by eapply lookup_lt_Some). by split_and!.
  - apply (grows_fmap (setCustomerEmail email cid)); [done| |done].
    intros c. unfold setCustomerEmail. by case_bool_decide.
  - apply (grows_fmap (setFinalSent t (c_id f))); [done| |done].
    intros c. unfold setFinalSent. case_bool_decide as Hun; [|done].
    split_and!; try done. intros t'. destruct Hun as [_ Hnone]. by rewrite Hnone.
  - pose proof (allowed_classOf _ sigs _ Ha) as Hclass.
    destruct (withSignatures_stored (now (sg_env p)) (c_id contract) (sg_party p)
                (sg_items p) (tables w) Hv Hclass Hstore) as [Hkeep _].
    destruct move.
    + apply (grows_fmap (setStatus (c_id contract) (nextStatus (sg_party p))));
        [done| |].
      * intros c. unfold setStatus. case_bool_decide; [|done]. simpl.
        split_and!; try done. intros _. by destruct (sg_party p).
      * intros cid q r Hs. eapply storedImage_sigs; [|by apply Hkeep]. done.
    + apply (grows_fmap (λ c, c)); [by rewrite list_fmap_id|done|done].
Qed.

Lemma effect_origin (w : World) (db' : Database) (i : nat) (c' : Contract) (t : Z) :
  Effect w db' → contracts db' !! i = Some c' → final_sent_at c' = Some t →
  ∃ c, contracts (tables w) !! i = Some c ∧ c_id c = c_id c'
       ∧ (final_sent_at c = Some t
          ∨ (final_sent_at c = None ∧ ∃ f, f ∈ finalizing w ∧ c_id f = c_id c)).
Proof.
  intros [->|doc sigs email ->|email cid ->|t' f Hf ->
         |p contract sigs move Hp Hin Hcfg Hst Hne Hv Ha Hm ->] Hi Ht.
  - exists c'. auto.
  - simpl in Hi. apply lookup_app_Some in Hi as [Hi|[_ Hi]].
    + exists c'. auto.
    + apply list_lookup_singleton_Some in Hi as [_ <-]. done.
  - simpl in Hi. rewrite list_lookup_fmap in Hi.
    destruct (contracts (tables w) !! i) as [c|] eqn:Hc; [|done].
    injection Hi as <-. exists c.
    destruct (setCustomerEmail_same email cid c) as (Hid & _ & Hsent).
    rewrite Hsent in Ht. auto.
  - simpl in Hi. rewrite list_lookup_fmap in Hi.
    destruct (contracts (tables w) !! i) as [c|] eqn:Hc; [|done].
    injection Hi as <-. exists c. rewrite setFinalSent_id. split_and!; try done.
    revert Ht. unfold setFinalSent. case_bool_decide as Hun; [|by left].
    intros _. right. destruct Hun as [Hid Hnone]. split; [done|]. by exists f.
  - assert (∃ c, contracts (tables w) !! i = Some c ∧ c_id c = c_id c'
                 ∧ final_sent_at c = final_sent_at c') as (c & Hc & Hid & Hsent).
    { destruct move; simpl in Hi.
      - rewrite list_lookup_fmap in Hi.
        destruct (contracts (tables w) !! i) as [c|] eqn:Hc; [|done].
        injection Hi as <-. exists c. by rewrite setStatus_id, setStatus_sent.
      - by exists c'. }
    exists c. split_and!; try done. left. congruence.
Qed.

Lemma tables_fmap (f : Contract → Contract) (db db' : Database) :
  contracts db' = f <$> contracts db →
  signatures db' = signatures db →
  (∀ c, c_id (f c) = c_id c ∧ config (f c) = config c ∧ status (f c) = status c) →
  NoDup (c_id <$> contracts db) →
  storeInv db →
  Forall (rowBacked (contracts db)) (signatures db) →
  Forall (signedAsStatus db) (contracts db) →
  NoDup (c_id <$> contracts db')
  ∧ storeInv db'
  ∧ Forall (rowBacked (contracts db')) (signatures db')
  ∧ Forall (signedAsStatus db') (contracts db').
Proof.
  intros Hmap Hsigs Hf Hnd Hstore Hback Hall. split_and!.
  - rewrite Hmap, <- list_fmap_compose.
    erewrite list_fmap_ext; [exact Hnd|]. intros i c _. simpl. apply Hf.
  - by apply (storeInv_sigs db).
  - rewrite Hsigs, Hmap. eapply Forall_impl; [exact Hback|]. intros row.
    apply rowBacked_contracts. intros c Hc. exists (f c).
    destruct (Hf c) as (? & ? & _). split; [|done].
    apply list_elem_of_fmap. by exists c.
  - rewrite Hmap. apply Forall_fmap. eapply Forall_impl; [exact Hall|].
    intros c Hc. simpl. destruct (Hf c) as (? & ? & ?).
    by apply (signedAsStatus_same db _ c).
Qed.

Lemma effect_tables (w : World) (db' : Database) :
  serverInv w → Effect w db' →
  NoDup (c_id <$> contracts db')
  ∧ storeInv db'
  ∧ Forall (rowBacked (contracts db')) (signatures db')
  ∧ Forall (signedAsStatus db') (contracts db').
Proof.
  intros (Hnd & Hstore & Hback & Hall & Hread & _)
    [->|doc sigs email ->|email cid ->|t f Hf ->
    |p contract sigs move Hp Hin Hcfg Hst Hne Hv Ha Hm ->].
  - done.
  - assert (∀ x, x ∈ c_id <$> contracts (tables w) → x ≠ nextId (contracts (tables w)))
      as Hfresh.
    { intros x (c & -> & Hc)%list_elem_of_fmap. pose proof (nextId_fresh _ _ Hc). lia. }
    unfold createContract. simpl. split_and!.
    + rewrite fmap_app. simpl. apply NoDup_app. split_and!; [done| |apply NoDup_singleton].
      intros x Hx ->%list_elem_of_singleton. by apply (Hfresh _ Hx).
    + done.
    + eapply Forall_impl; [exact Hback|]. intros row.
      apply rowBacked_contracts. intros c Hc. exists c. split; [|done].
      apply elem_of_app. by left.
    + apply Forall_app. split.
      * eapply Forall_impl; [exact Hall|]. intros c Hc.
        by apply (signedAsStatus_same (tables w) _ c c).
      * constructor; [|constructor]. exists sigs. simpl. by split_and!.
  - apply (tables_fmap (setCustomerEmail email cid) (tables w)); try done.
    intros c. unfold setCustomerEmail. by case_bool_decide.
  - apply (tables_fmap (setFinalSent t (c_id f)) (tables w)); try done.
    intros c. unfold setFinalSent. by case_bool_decide.
  - rewrite Forall_forall in Hread. destruct (Hread p Hp) as (Hrinv & Hrall & Hbehind).
    pose proof (allowed_classOf _ sigs _ Ha) as Hclass.
    set (db1 := withSignatures (now (sg_env p)) (c_id contract) (sg_party p)
                  (sg_items p) (tables w)).
    assert (storeInv db1) as Hstore1 by (by apply withSignatures_storeInv).
    assert (Forall (rowBacked (contracts (tables w))) (signatures db1)) as Hback1.
    { destruct Hbehind as [Hrows _].
      destruct (Hrows contract Hin) as (c0 & Hc0 & Hid0 & Hcfg0).
      apply (withSignatures_Forall_key
               (λ cid r q, ∃ c sg, c ∈ contracts (tables w) ∧ c_id c = cid
                                   ∧ config c = Parsed sg ∧ r ∈ requiredOf q sg));
        [exact Hback|].
      eapply Forall_impl; [exact Ha|]. intros it Hit. simpl.
      exists c0, sigs. split_and!; try done. congruence. }
    pose proof (signed_after_landing (now (sg_env p)) (sg_party p) (sg_items p)
                  (sg_read p) (tables w) contract sigs move Hnd Hstore Hall Hrinv
                  Hrall Hbehind Hin Hcfg Hst Hne Hv Ha Hm) as Hsigned.
    cbv zeta in Hsigned. fold db1 in Hsigned.
    destruct move; [|by split_and!].
    split_and!; [| | |done].
    + simpl. rewrite <- list_fmap_compose.
      erewrite list_fmap_ext; [exact Hnd|]. intros i c _. simpl. apply setStatus_id.
    + by apply (storeInv_sigs db1).
    + simpl. eapply Forall_impl; [exact Hback1|]. intros row.
      apply rowBacked_contracts. intros c Hc.
      exists (setStatus (c_id contract) (nextStatus (sg_party p)) c).
      rewrite setStatus_id, setStatus_config. split; [|done].
      apply list_elem_of_fmap. by exists c.
Qed.

(** Every step keeps what the server satisfies. *)
Lemma step_serverInv (w w' : World) : serverInv w → step w w' → serverInv w'.
Proof.
  intros Hinv Hstep.
  pose proof Hinv as (Hnd & Hstore & Hback & Hall & Hread & Hsent & Hfin).
  pose proof (step_effect w w' Hread Hstep) as Heff.
  pose proof (effect_grows w _ Hstore Heff) as Hgrows.
  destruct (effect_tables w _ Hinv Heff) as (Hnd' & Hstore' & Hback' & Hall').
  assert (∀ p, p ∈ signing w → readInv (tables w') p) as Hread_old.
  { intros p Hp. rewrite Forall_forall in Hread. eapply readInv_grows; eauto. }
  assert (∀ f, f ∈ finalizing w →
               ∃ c, c ∈ contracts (tables w') ∧ c_id c = c_id f
                    ∧ fullySigned (tables w') c) as Hfin_old.
  { intros f Hf. rewrite Forall_forall in Hfin.
    destruct (Hfin f Hf) as (c & Hc & Hid & Hfull).
    apply list_elem_of_lookup_1 in Hc as [i Hi].
    destruct (proj1 Hgrows i c Hi) as (c' & Hi' & Hid' & _).
    exists c'. split_and!; [by eapply list_elem_of_lookup_2|congruence|].
    by eapply fullySigned_grows. }
  assert (Forall (λ c, is_Some (final_sent_at c) → fullySigned (tables w') c)
                 (contracts (tables w'))) as Hsent'.
  { apply Forall_lookup. intros i c' Hi' [t Ht].
    destruct (effect_origin w _ i c' t Heff Hi' Ht) as (c & Hi & Hid & Horigin).
    assert (fullySigned (tables w) c) as Hfull.
    { rewrite Forall_forall in Hsent.
      destruct Horigin as [Hset|(Hnone & f & Hf & Hidf)].
      - apply Hsent; [by eapply list_elem_of_lookup_2|by rewrite Hset].
      - rewrite Forall_forall in Hfin.
        destruct (Hfin f Hf) as (c0 & Hc0 & Hid0 & Hfull).
        assert (c0 = c) as <-; [|done].
        apply (ids_inj (contracts (tables w)));
          [done|done|by eapply list_elem_of_lookup_2|congruence]. }
    by eapply fullySigned_grows. }
  unfold serverInv. split_and!; try done.
  - apply Forall_forall. intros q Hq.
    destruct Hstep as [documentId sigs email w
                      |documentId email w
                      |party env documentId items w
                      |p before after w Hsplit
                      |p before after w Hsplit
                      |env c before after w Hsplit]; simpl in *; auto.
    + apply elem_of_cons in Hq as [->|Hq]; [|by auto].
      split_and!; simpl; try done. split; [|done]. intros c Hc. by exists c.
    + rewrite Hsplit in Hread_old.
      apply elem_of_app in Hq as [Hq|Hq];
        [apply Hread_old, elem_of_app; by left|].
      apply elem_of_cons in Hq as [->|Hq];
        [|apply Hread_old, elem_of_app; right; by right].
      assert (readInv (tables w) p) as (Hrinv & Hrall & [Hrows Hseen]).
      { apply Hread_old, elem_of_app. right. left. }
      unfold look, readInv. simpl. split_and!.
      * done.
      * eapply Forall_impl; [exact Hrall|]. intros c.
        apply signedAsStatus_mono. intros cid r' q' Hs.
        eapply storedImage_sigs; [|by apply Hseen]. done.
      * split; [exact Hrows|]. intros cid r' q' Hs.
        eapply storedImage_sigs; [|exact Hs]. done.
    + apply Hread_old. rewrite Hsplit.
      apply elem_of_app in Hq as [Hq|Hq]; apply elem_of_app; [by left|].
      right. by right.
  - apply Forall_forall. intros f Hf.
    destruct Hstep as [documentId sigs email w
                      |documentId email w
                      |party env documentId items w
                      |p before after w Hsplit
                      |p before after w Hsplit
                      |env c before after w Hsplit]; simpl in *; auto.
    + destruct (served p).1 as [resp|c] eqn:Hserved; [by auto|].
      apply elem_of_cons in Hf as [->|Hf]; [|by auto].
      assert (p ∈ signing w) as Hp.
      { rewrite Hsplit. apply elem_of_app. right. left. }
      rewrite Forall_forall in Hread.
      destruct (Hread p Hp) as ((Hu & _) & _ & [Hrows _]).
      destruct (landed_cases p (tables w) Hu)
        as [[_ [resp Hresp]]
           |(contract & sigs & Hfind & Hcfg & Hst & Hitems & Hv & Ha & Hland & Hnext)];
        [congruence|].
      destruct (Hnext c Hserved) as (-> & Hparty & Hnull & Hnil).
      rewrite Hparty in Hland. rewrite bool_decide_eq_true_2 in Hland by done.
      apply findContract_elem in Hfind.
      destruct (Hrows contract Hfind) as (c0 & Hc0 & Hid0 & Hcfg0).
      assert (setStatus (c_id contract) COMPLETED c0 ∈ contracts (landed p (tables w)))
        as Hin.
      { rewrite Hland. simpl. apply list_elem_of_fmap. by exists c0. }
      exists (setStatus (c_id contract) COMPLETED c0).
      split_and!; [done|by rewrite setStatus_id|].
      apply completed_fullySigned.
      * rewrite Forall_forall in Hall'. by apply Hall'.
      * unfold setStatus. by rewrite bool_decide_eq_true_2.
    + apply Hfin_old. rewrite Hsplit.
      apply elem_of_app in Hf as [Hf|Hf]; apply elem_of_app; [by left|].
      right. by right.
Qed.

Lemma rtc_serverInv (w w' : World) :
  rtc step w w' → serverInv w → serverInv w' ∧ grows (tables w) (tables w').
Proof.
  induction 1 as [w|w1 w2 w3 Hstep _ IH]; intros Hinv.
  - split; [done|apply grows_refl].
  - destruct (IH (step_serverInv _ _ Hinv Hstep)) as [Hinv3 Hgrows]. split; [done|].
    eapply grows_trans; [|exact Hgrows].
    pose proof Hinv as (_ & Hstore & _ & _ & Hread & _).
    apply effect_grows; [done|]. by apply step_effect.
Qed.

Lemma reachable_serverInv (w : World) : reachable w → serverInv w.
Proof.
  intros H. apply (rtc_serverInv emptyWorld w H).
  unfold serverInv, storeInv, uniqueKey, partyConsistent, imagesPresent. simpl.
  split_and!; constructor.
Qed.

(** A call that nothing interleaves with. *)
Lemma step_alone (party : Party) (env : Env) (documentId : string) (items : list Item)
    (w : World) :
  let p := {| sg_party := party; sg_env := env; sg_documentId := documentId;
              sg_items := items; sg_read := tables w |} in
  rtc step w {| tables := landed p (tables w);
                finalizing := match (served p).1 with
                              | Next c => c :: finalizing w
                              | Respond _ => finalizing w
                              end;
                signing := signing w |}.
Proof.
  intros p.
  eapply rtc_l; [exact (step_sign_begin party env documentId items w)|].
  eapply rtc_l; [|apply rtc_refl].
  exact (step_sign_end p [] (signing w)
           {| tables := tables w; finalizing := finalizing w;
              signing := p :: signing w |} eq_refl).
Qed.

(** The run of the sample contract. *)
Lemma sample_run : rtc step emptyWorld worldCreated ∧ rtc step worldCreated worldSent.
Proof.
  split.
  - eapply rtc_l;
      [exact (step_create "DOC-1" sampleSlots "office@example.com" emptyWorld)|].
    apply rtc_refl.
  - etrans;
      [exact (step_alone CUSTOMER sampleEnv "DOC-1"
                [sampleItem "customer_a"; sampleItem "customer_b"] worldCreated)|].
    etrans;
      [exact (step_alone COMPANY sampleEnv "DOC-1" [sampleItem "company_w"]
                worldCustomerSigned)|].
    eapply rtc_l;
      [exact (step_record_final_sent sampleEnv (sampleContract CUSTOMER_SIGNED None)
                [] [] worldMailed eq_refl)|].
    apply rtc_refl.
Qed.

Lemma sample_reachable : reachable worldSent.
Proof. destruct sample_run as [H1 H2]. unfold reachable. by etrans. Qed.

(** The same run around a customer-sign call that reads the contract
    before the other requests and commits after them: it has read PENDING,
    so its status update writes CUSTOMER_SIGNED over COMPLETED. *)
Lemma stale_run : rtc step worldCreated (whileStale worldSent)
                  ∧ step (whileStale worldSent) worldStale.
Proof.
  split.
  - eapply rtc_l;
      [exact (step_sign_begin CUSTOMER sampleEnv "DOC-1"
                [sampleItem "customer_a"; sampleItem "customer_b"] worldCreated)|].
    etrans;
      [exact (step_alone CUSTOMER sampleEnv "DOC-1"
                [sampleItem "customer_a"; sampleItem "customer_b"]
                (whileStale worldCreated))|].
    etrans;
      [exact (step_alone COMPANY sampleEnv "DOC-1" [sampleItem "company_w"]
                (whileStale worldCustomerSigned))|].
    eapply rtc_l;
      [exact (step_record_final_sent sampleEnv (sampleContract CUSTOMER_SIGNED None)
                [] [] (whileStale worldMailed) eq_refl)|].
    apply rtc_refl.
  - exact (step_sign_end staleCall [] [] (whileStale worldSent) eq_refl).
Qed.

Lemma stale_reachable : reachable (whileStale worldSent) ∧ reachable worldStale.
Proof.
  destruct sample_run as [H0 _]. destruct stale_run as [H1 H2].
  assert (reachable (whileStale worldSent)) as H by (unfold reachable; by etrans).
  split; [done|]. unfold reachable. eapply rtc_r; [exact H|exact H2].
Qed.

(** X10: in every state the server reaches through its routes, the
    signatures table has one row per contract and role, every stored image
    is a data URL, and every row belongs to a contract of the contracts
    table whose configuration requires the row's role of the row's party
    (so a role with customer in its name is stored as CUSTOMER and the
    other required roles as COMPANY). *)
Theorem X10_stored_signatures_are_backed (w : World) :
  reachable w →
  uniqueKey (signatures (tables w))
  ∧ ∀ row, row ∈ signatures (tables w) →
      isDataUrl (signature_image row)
      ∧ classOf (role row) = Some (signer_role row)
      ∧ ∃ c sigs, c ∈ contracts (tables w) ∧ c_id c = contract_id row
                  ∧ config c = Parsed sigs
                  ∧ role row ∈ extractRequiredRolesFromConfig sigs
                  ∧ role row ∈ requiredOf (signer_role row) sigs.
Proof.
  intros Hreach.
  pose proof (reachable_serverInv w Hreach) as (_ & (Hu & Hp & Himg) & Hb & _).
  split; [done|]. intros row Hrow.
  unfold partyConsistent, imagesPresent in Hp, Himg.
  rewrite Forall_forall in Hb. rewrite Forall_forall in Hp.
  rewrite Forall_forall in Himg.
  split; [by apply Himg|]. split; [by apply Hp|].
  destruct (Hb row Hrow) as (c & sigs & Hin & Hid & Hcfg & Hr).
  exists c, sigs. split_and!; try done.
  revert Hr. unfold requiredOf.
  destruct (signer_role row); [rewrite split_customer|rewrite split_company];
    rewrite list_elem_of_filter; tauto.
Qed.

Lemma X10_witness :
  reachable worldSent ∧ uniqueKey (signatures (tables worldSent)).
Proof.
  split; [exact sample_reachable|].
  exact (proj1 (X10_stored_signatures_are_backed worldSent sample_reachable)).
Defined.

(** X11: in every reachable state the status of a contract is backed by
    its signatures: the stored configuration parses; a contract that is not
    PENDING has at least one required customer role and a stored customer
    image for each of them; a COMPLETED contract has, besides, at least one
    required company role and a stored company image for each. *)
Theorem X11_status_is_backed_by_signatures (w : World) (c : Contract) :
  reachable w → c ∈ contracts (tables w) →
  ∃ sigs, config c = Parsed sigs
    ∧ (status c ≠ PENDING →
       requiredOf CUSTOMER sigs ≠ []
       ∧ ∀ r, r ∈ requiredOf CUSTOMER sigs → storedImage (tables w) (c_id c) CUSTOMER r)
    ∧ (status c = COMPLETED →
       requiredOf COMPANY sigs ≠ []
       ∧ ∀ r, r ∈ requiredOf COMPANY sigs → storedImage (tables w) (c_id c) COMPANY r).
Proof.
  intros Hreach Hc.
  pose proof (reachable_serverInv w Hreach) as (_ & _ & _ & Hall & _).
  rewrite Forall_forall in Hall. exact (Hall c Hc).
Qed.

Lemma X11_witness :
  reachable worldSent
  ∧ storedImage (tables worldSent) 1 COMPANY "company_w".
Proof.
  split; [exact sample_reachable|].
  assert (sampleContract COMPLETED (Some 7) ∈ contracts (tables worldSent)) as Hin
    by (vm_compute; left).
  destruct (X11_status_is_backed_by_signatures worldSent _ sample_reachable Hin)
    as (sigs & Hcfg & _ & Hco).
  simpl in Hcfg. injection Hcfg as <-.
  destruct (Hco eq_refl) as [_ Hall]. apply Hall. by_evaluation.
Defined.

(** X12: from a reachable state on, whatever requests follow and however
    they interleave, a contract row is never removed and keeps its place,
    its id, its document id, its configuration and its company address; a
    status that has left PENDING never returns to PENDING; a
    [final_sent_at] that is set keeps its value; a role that has a stored
    image keeps having one.  The status can move backward from COMPLETED
    to CUSTOMER_SIGNED: a customer-sign call that read the contract while
    it was PENDING and commits after the company has signed writes
    CUSTOMER_SIGNED over COMPLETED. *)
Theorem X12_rows_kept_status_leaves_pending_once (w w' : World) (i : nat)
    (c : Contract) :
  reachable w → rtc step w w' → contracts (tables w) !! i = Some c →
  (∃ c', contracts (tables w') !! i = Some c'
         ∧ c_id c' = c_id c ∧ document_id c' = document_id c
         ∧ config c' = config c ∧ company_email c' = company_email c
         ∧ (status c ≠ PENDING → status c' ≠ PENDING)
         ∧ (∀ t, final_sent_at c = Some t → final_sent_at c' = Some t))
  ∧ (∀ contractId party r, storedImage (tables w) contractId party r →
                           storedImage (tables w') contractId party r)
  ∧ ∃ v v' d d', reachable v ∧ step v v'
                 ∧ contracts (tables v) !! 0%nat = Some d
                 ∧ contracts (tables v') !! 0%nat = Some d'
                 ∧ status d = COMPLETED ∧ status d' = CUSTOMER_SIGNED.
Proof.
  intros Hreach Hrun Hi.
  pose proof (reachable_serverInv w Hreach) as Hinv.
  destruct (rtc_serverInv w w' Hrun Hinv) as [_ [Hrows Hstored]].
  split; [by apply Hrows|]. split; [exact Hstored|].
  destruct stale_reachable as [Hv _]. destruct stale_run as [_ Hstep].
  exists (whileStale worldSent), worldStale,
    (sampleContract COMPLETED (Some 7)), (sampleContract CUSTOMER_SIGNED (Some 7)).
  by split_and!.
Qed.

Lemma X12_witness :
  reachable worldCreated ∧ rtc step worldCreated worldSent
  ∧ ∃ c', contracts (tables worldSent) !! 0%nat = Some c'
          ∧ c_id c' = 1 ∧ document_id c' = "DOC-1".
Proof.
  destruct sample_run as [H1 H2].
  split; [exact H1|]. split; [exact H2|].
  assert (contracts (tables worldCreated) !! 0%nat = Some (sampleContract PENDING None))
    as Hi by reflexivity.
  destruct (X12_rows_kept_status_leaves_pending_once worldCreated worldSent 0 _ H1 H2 Hi)
    as ((c' & Hi' & Hid & Hdoc & _) & _).
  exists c'. by split_and!.
Defined.

(** ** The bookkeeping of the final mail, over time *)





(** ** The request body *)

Lemma safeStr_head (s : option string) (max : nat) (r : string) :
  (0 < max)%nat → safeStr s max = Some r →
  ∃ c t, r = String c t ∧ Js.is_ws c = false.
Proof.
  intros Hmax. unfold safeStr. destruct s as [x|]; [|done].
  unfold Js.trim. destruct (trimStart_shape x) as [->|(c & r0 & -> & Hc)]; [done|].
  destruct (trimEnd_head c r0 Hc) as [r' ->]. simpl Js.truthy. cbv iota.
  intros [= <-]. destruct (_ <? _)%nat; [|by eauto].
  destruct max as [|m]; [lia|]. simpl. by eauto.
Qed.

Lemma imap_keys {A} (g : nat → string) (l : list A) :
  (imap (λ i x, (g i, x)) l).*1 = g <$> seq 0 (length l).
Proof.
  revert g. induction l as [|x l IH]; intros g; [done|]. simpl. f_equal.
  change (imap ((λ i y, (g i, y)) ∘ S) l) with (imap (λ i y, ((g ∘ S) i, y)) l).
  rewrite IH. rewrite <- fmap_S_seq. by rewrite <- list_fmap_compose.
Qed.

Lemma orElse_truthy (a b : option Json) : toBoolean a = true → orElse a b = a.
Proof. unfold orElse. by intros ->. Qed.

Lemma orElse_falsy (a b : option Json) : toBoolean a = false → orElse a b = b.
Proof. unfold orElse. by intros ->. Qed.

Lemma nullish_nonNull (a b : option Json) :
  nullish a b = if nonNull a then a else b.
Proof. by destruct a as [[]|]. Qed.

(** [String] throws only on an object with a property [toString] of its
    own, or on an array that holds such a value. *)
Lemma jsString_throws (v : Json) :
  jsString v = None →
  (∃ ps, v = JObject ps ∧ "toString" ∈ ps.*1)
  ∨ (∃ l x, v = JArray l ∧ x ∈ l ∧ jsString x = None).
Proof.
  destruct v as [|[]|shown|s|l|ps]; simpl; try done.
  - intros H. right.
    destruct (mapM _ l) as [texts|] eqn:Hm; [done|].
    assert (¬ is_Some (mapM (λ x, match x with JNull => Some "" | _ => jsString x end)
                         l)) as Hnot
      by (rewrite Hm; by intros [? ?]).
    rewrite mapM_is_Some in Hnot. apply not_Forall_Exists in Hnot; [|apply _].
    apply Exists_exists in Hnot as (x & Hx & Hnone).
    exists l, x. split_and!; [done|done|].
    simpl in Hnone. destruct x; simpl in *; try (exfalso; apply Hnone; by eauto).
    + destruct b; exfalso; apply Hnone; by eauto.
    + destruct (mapM _ elements); [exfalso; apply Hnone; by eauto|done].
    + case_bool_decide; [done|exfalso; apply Hnone; by eauto].
  - case_bool_decide; [|done]. intros _. left. by exists ps.
Qed.

Lemma safeStrOf_throws (v : option Json) (max : nat) :
  safeStrOf v max = None ↔ ∃ y, v = Some y ∧ jsString y = None.
Proof.
  unfold safeStrOf. destruct v as [y|]; [|split; [done|by intros (? & ? & _)]].
  destruct y as [|b|shown|s|l|ps];
    [split; [done|by intros (? & [= <-] & ?)]| | | | |].
  all: match goal with
       | |- context [jsString ?y] => destruct (jsString y) as [text|] eqn:Hj
       end;
    cbn [fmap option_fmap option_map]; split; try done;
    first [ by (intros (? & [= <-] & H); congruence) | by (intros _; eauto) ].
Qed.

Lemma safeStrOf_text (v : option Json) (max : nat) (r : option string) (text : string) :
  (0 < max)%nat → safeStrOf v max = Some r → r = Some text →
  (0 < String.length text ≤ max)%nat ∧ ∃ c t, text = String c t ∧ Js.is_ws c = false.
Proof.
  intros Hmax Hv ->. unfold safeStrOf in Hv.
  destruct v as [y|]; [|done]. destruct y as [|b|shown|s|l|ps]; [done| | | | |].
  all: match type of Hv with
       | context [jsString ?y] => destruct (jsString y) as [x|] eqn:Hj
       end; [|done];
    cbn [fmap option_fmap option_map] in Hv; injection Hv as Hv;
    change (safeStr (Some x) max = Some text) in Hv;
    (split; [exact (safeStr_length (Some x) max text Hmax Hv)
            |exact (safeStr_head (Some x) max text Hmax Hv)]).
Qed.

Lemma normalizeEntry_throws (role : string) (v : Json) :
  normalizeEntry role v = None
  ↔ ∃ y, (nameOf v = Some y ∨ positionOf v = Some y) ∧ jsString y = None.
Proof.
  assert (∀ x : Json, (∀ k, field x k = None) →
            ¬ ∃ y, (nameOf x = Some y ∨ positionOf x = Some y) ∧ jsString y = None)
    as Hplain.
  { intros x Hf (y & [Hy|Hy] & Hnone); unfold nameOf, positionOf in Hy;
      rewrite !Hf in Hy; simpl in Hy; injection Hy as <-; done. }
  destruct v as [|b|shown|s|l|ps]; simpl;
    try (split; [done|intros H; exfalso; revert H; by apply Hplain]).
  - destruct (safeStrOf (nameOf (JObject ps)) 100) as [name|] eqn:Hn.
    + destruct (safeStrOf (positionOf (JObject ps)) 255) as [position|] eqn:Hp.
      * split; [done|]. intros (y & [Hy|Hy] & Hnone).
        -- assert (safeStrOf (nameOf (JObject ps)) 100 = None) as Hn'
             by (apply safeStrOf_throws; by exists y).
           congruence.
        -- assert (safeStrOf (positionOf (JObject ps)) 255 = None) as Hp'
             by (apply safeStrOf_throws; by exists y).
           congruence.
      * split; [|done]. intros _.
        apply safeStrOf_throws in Hp as (y & Hy & Hnone). by eauto.
    + split; [|done]. intros _.
      apply safeStrOf_throws in Hn as (y & Hy & Hnone). by eauto.
Qed.

Lemma normalizeEntry_item (role : string) (v : Json) (it : Item) :
  normalizeEntry role v = Some it →
  it_role it = role
  ∧ (∀ n, it_name it = Some n →
          (0 < String.length n ≤ 100)%nat ∧ ∃ c t, n = String c t ∧ Js.is_ws c = false)
  ∧ (∀ n, it_position it = Some n →
          (0 < String.length n ≤ 255)%nat
          ∧ ∃ c t, n = String c t ∧ Js.is_ws c = false).
Proof.
  destruct v as [|b|shown|s|l|ps]; simpl; try (by intros [= <-]).
  - destruct (safeStrOf (nameOf (JObject ps)) 100) as [name|] eqn:Hn; [|done].
    destruct (safeStrOf (positionOf (JObject ps)) 255) as [position|] eqn:Hp; [|done].
    intros [= <-]. simpl. split; [done|].
    split; intros n Heq; eapply safeStrOf_text; eauto; lia.
Qed.

Lemma normalizeEntries_items (l : list (string * Json)) (out : list Item) :
  normalizeEntries l = Some out →
  it_role <$> out = l.*1
  ∧ ∀ it, it ∈ out → ∃ k x, (k, x) ∈ l ∧ normalizeEntry k x = Some it.
Proof.
  revert out. induction l as [|[k x] l IH]; intros out; simpl.
  - intros [= <-]. split; [done|]. by intros it ?%elem_of_nil.
  - destruct (normalizeEntry k x) as [it|] eqn:Hit; [|done].
    destruct (normalizeEntries l) as [rest|]; [|done].
    intros [= <-]. destruct (IH rest eq_refl) as [Hroles Hin].
    split.
    + rewrite fmap_cons, Hroles.
      by destruct (normalizeEntry_item k x it Hit) as [-> _].
    + intros it' [->|Hit']%elem_of_cons.
      * exists k, x. split; [by left|done].
      * destruct (Hin it' Hit') as (k' & x' & ? & ?). exists k', x'.
        split; [by right|done].
Qed.

Lemma normalizeEntries_throws (l : list (string * Json)) :
  normalizeEntries l = None ↔ ∃ k x, (k, x) ∈ l ∧ normalizeEntry k x = None.
Proof.
  induction l as [|[k x] l IH]; simpl.
  - split; [done|]. by intros (? & ? & ?%elem_of_nil & _).
  - destruct (normalizeEntry k x) as [it|] eqn:Hit.
    + destruct (normalizeEntries l) as [rest|].
      * split; [done|]. intros (k' & x' & [[= -> ->]|Hin]%elem_of_cons & Hnone);
          [congruence|].
        assert (Some rest = None) as H by (apply IH; by exists k', x').
        done.
      * split; [|done]. intros _.
        destruct (proj1 IH eq_refl) as (k' & x' & Hin & Hnone).
        exists k', x'. split; [by right|done].
    + split; [|done]. intros _. exists k, x. split; [by left|done].
Qed.

(** X13: the normalized payload has one item per key of the submitted
    object, in the order of the keys; an array is read as an object whose
    keys are its indices; any other value gives no item.  A name that is
    kept is not empty, has at most 100 characters and no leading white
    space; a position likewise with at most 255.  The normalizer throws
    exactly when the name or the position it reads from some entry has no
    string form, which needs an object with a property [toString] of its
    own, or an array that holds one. *)
Theorem X13_payload_one_item_per_key (signatures : option Json) :
  ((∀ ps, signatures ≠ Some (JObject ps)) → (∀ l, signatures ≠ Some (JArray l)) →
   normalizeSignaturesPayload signatures = Some [])
  ∧ (∀ v, signatures = Some v → typeofObject signatures = true →
       toBoolean signatures = true →
       (normalizeSignaturesPayload signatures = None
        ↔ ∃ k x y, (k, x) ∈ entries v
                   ∧ (nameOf x = Some y ∨ positionOf x = Some y)
                   ∧ jsString y = None))
  ∧ (∀ y, jsString y = None →
          (∃ ps, y = JObject ps ∧ "toString" ∈ ps.*1)
          ∨ (∃ l x, y = JArray l ∧ x ∈ l ∧ jsString x = None))
  ∧ (∀ items, normalizeSignaturesPayload signatures = Some items →
       (∀ ps, signatures = Some (JObject ps) → it_role <$> items = ps.*1)
       ∧ (∀ l, signatures = Some (JArray l) →
               it_role <$> items = pretty <$> seq 0 (length l))
       ∧ ∀ it, it ∈ items →
           (∀ n, it_name it = Some n →
                 (0 < String.length n ≤ 100)%nat
                 ∧ ∃ c t, n = String c t ∧ Js.is_ws c = false)
           ∧ (∀ n, it_position it = Some n →
                   (0 < String.length n ≤ 255)%nat
                   ∧ ∃ c t, n = String c t ∧ Js.is_ws c = false)).
Proof.
  split_and!.
  - intros Hobj Harr. unfold normalizeSignaturesPayload.
    destruct signatures as [[|b|shown|s|l|ps]|]; simpl; try done.
    + by destruct (negb b).
    + by destruct (negb (negb _)).
    + by destruct (negb (Js.truthy s)).
    + by destruct (Harr l).
    + by destruct (Hobj ps).
  - intros v -> Hobj Htrue. unfold normalizeSignaturesPayload.
    rewrite Hobj, Htrue. simpl. rewrite normalizeEntries_throws.
    split.
    + intros (k & x & Hin & Hnone).
      apply normalizeEntry_throws in Hnone as (y & Hy & Hnone). by exists k, x, y.
    + intros (k & x & y & Hin & Hy & Hnone). exists k, x. split; [done|].
      apply normalizeEntry_throws. by exists y.
  - exact jsString_throws.
  - intros items. unfold normalizeSignaturesPayload.
    destruct (negb _ || negb _) eqn:Hguard.
    { intros [= <-]. split_and!.
      - by intros ps ->.
      - by intros l ->.
      - by intros it ?%elem_of_nil. }
    destruct signatures as [v|]; [|done]. intros Hrun.
    destruct (normalizeEntries_items _ _ Hrun) as [Hroles Hin].
    split_and!.
    + by intros ps [= ->].
    + intros l [= ->]. rewrite Hroles. apply imap_keys.
    + intros it (k & x & _ & Hit)%Hin.
      by destruct (normalizeEntry_item k x it Hit) as (_ & ? & ?).
Qed.

Lemma imageOf_first (v : Json) (k : string) :
  firstKey toBoolean imageKeys v k → imageOf v = field v k.
Proof.
  intros (i & Hi & Ht & Hbefore). unfold imageOf.
  assert (∀ j k', (j < i)%nat → imageKeys !! j = Some k' →
                  ∀ b, orElse (field v k') b = b) as Hskip.
  { intros j k' Hj Hk' b. apply orElse_falsy. by eapply Hbefore. }
  destruct i as [|[|[|[|i]]]]; simpl in Hi; try done; injection Hi as <-.
  - by rewrite !(orElse_truthy (field v "image")).
  - rewrite (Hskip 0%nat "image") by (done || lia).
    by rewrite !(orElse_truthy (field v "signature_image")).
  - rewrite (Hskip 0%nat "image"), (Hskip 1%nat "signature_image") by (done || lia).
    by rewrite !(orElse_truthy (field v "dataUrl")).
  - rewrite (Hskip 0%nat "image"), (Hskip 1%nat "signature_image"),
      (Hskip 2%nat "dataUrl") by (done || lia).
    by rewrite !(orElse_truthy (field v "signature")).
Qed.

Lemma imageOf_none (v : Json) :
  (∀ k, k ∈ imageKeys → toBoolean (field v k) = false) → imageOf v = Some JNull.
Proof.
  intros H. unfold imageOf.
  rewrite (orElse_falsy (field v "image")) by (apply H; by_evaluation).
  rewrite (orElse_falsy (field v "signature_image")) by (apply H; by_evaluation).
  rewrite (orElse_falsy (field v "dataUrl")) by (apply H; by_evaluation).
  by rewrite (orElse_falsy (field v "signature")) by (apply H; by_evaluation).
Qed.

Lemma nullish_first (v : Json) (k1 k2 k3 k : string) :
  firstKey nonNull [k1; k2; k3] v k →
  nullish (field v k1) (nullish (field v k2) (nullish (field v k3) (Some JNull)))
  = field v k.
Proof.
  intros (i & Hi & Ht & Hbefore). rewrite !nullish_nonNull.
  destruct i as [|[|[|i]]]; simpl in Hi; try done; injection Hi as <-.
  - by rewrite Ht.
  - rewrite (Hbefore 0%nat k1) by (done || lia). by rewrite Ht.
  - rewrite (Hbefore 0%nat k1), (Hbefore 1%nat k2) by (done || lia). by rewrite Ht.
Qed.

Lemma nullish_none (v : Json) (k1 k2 k3 : string) :
  (∀ k, k ∈ [k1; k2; k3] → nonNull (field v k) = false) →
  nullish (field v k1) (nullish (field v k2) (nullish (field v k3) (Some JNull)))
  = Some JNull.
Proof.
  intros H. rewrite !nullish_nonNull.
  rewrite (H k1), (H k2), (H k3); [done|..]; set_solver.
Qed.

Lemma safeStrOf_nonNull (x : option Json) (max : nat) (r : option string) :
  nonNull x = true → safeStrOf x max = Some r →
  ∃ text, x ≫= jsString = Some text ∧ r = safeStr (Some text) max.
Proof.
  unfold safeStrOf. destruct x as [y|]; [|done].
  destruct y as [|b|shown|s|l|ps]; [done| | | | |]; intros _; simpl mbind.
  all: match goal with
       | |- context [jsString ?y] => destruct (jsString y) as [text|] eqn:Hj
       end; [|done];
    cbn [fmap option_fmap option_map]; intros [= <-]; by exists text.
Qed.

(** X14: in the object form of a signature the image is read from the
    first of the properties image, signature_image, dataUrl and signature
    whose value is truthy, and is kept only when that value is a string:
    an empty image gives way to the next property, while a truthy image
    that is not a string hides the others and leaves no image.  Name and
    position are read from the first of signer_name, name, signerName and
    of signer_position, position, signerPosition that is neither null nor
    absent, and pass through [safeStr]: a blank signer_name leaves no
    name whatever the property name holds.  Without such a property there
    is no image, no name, no position. *)
Theorem X14_fallback_order (role : string) (ps : list (string * Json)) (it : Item) :
  normalizeEntry role (JObject ps) = Some it →
  let v := JObject ps in
  it_role it = role
  ∧ (∀ k, firstKey toBoolean imageKeys v k → it_image it = asString (field v k))
  ∧ ((∀ k, k ∈ imageKeys → toBoolean (field v k) = false) → it_image it = None)
  ∧ (∀ k, firstKey nonNull nameKeys v k →
          ∃ text, field v k ≫= jsString = Some text
                  ∧ it_name it = safeStr (Some text) 100)
  ∧ ((∀ k, k ∈ nameKeys → nonNull (field v k) = false) → it_name it = None)
  ∧ (∀ k, firstKey nonNull positionKeys v k →
          ∃ text, field v k ≫= jsString = Some text
                  ∧ it_position it = safeStr (Some text) 255)
  ∧ ((∀ k, k ∈ positionKeys → nonNull (field v k) = false) →
     it_position it = None).
Proof.
  intros Hrun v. unfold normalizeEntry in Hrun. fold v in Hrun.
  destruct (safeStrOf (nameOf v) 100) as [name|] eqn:Hn; [|done].
  destruct (safeStrOf (positionOf v) 255) as [position|] eqn:Hp; [|done].
  injection Hrun as <-. simpl. split_and!.
  - done.
  - intros k Hk. by rewrite (imageOf_first v k Hk).
  - intros Hnone. by rewrite (imageOf_none v Hnone).
  - intros k Hk. unfold nameOf in Hn. rewrite (nullish_first v _ _ _ k Hk) in Hn.
    destruct Hk as (_ & _ & Ht & _). by apply (safeStrOf_nonNull _ 100).
  - intros Hnone. unfold nameOf in Hn. rewrite (nullish_none v _ _ _ Hnone) in Hn.
    simpl in Hn. by injection Hn as <-.
  - intros k Hk. unfold positionOf in Hp.
    rewrite (nullish_first v _ _ _ k Hk) in Hp.
    destruct Hk as (_ & _ & Ht & _). by apply (safeStrOf_nonNull _ 255).
  - intros Hnone. unfold positionOf in Hp.
    rewrite (nullish_none v _ _ _ Hnone) in Hp.
    simpl in Hp. by injection Hp as <-.
Qed.

Lemma X14_witness :
  let ps := [("image", JString "");
             ("signature_image", JString "data:image/png;base64,AAAA");
             ("signer_name", JString " ");
             ("name", JString "Bob")] in
  ∃ it, normalizeEntry "customer_a" (JObject ps) = Some it
        ∧ it_image it = Some "data:image/png;base64,AAAA"
        ∧ it_name it = None.
Proof.
  intros ps.
  destruct (normalizeEntry "customer_a" (JObject ps)) as [it|] eqn:Hrun;
    [|by vm_compute in Hrun].
  exists it. split; [done|].
  pose proof (X14_fallback_order "customer_a" ps it Hrun) as H.
  cbv zeta in H. destruct H as (_ & Himage & _ & Hname & _).
  split.
  - rewrite (Himage "signature_image"); [reflexivity|].
    exists 1%nat. split_and!; [done|done|].
    intros [|j] k' Hj Hk'; [|lia]. by injection Hk' as <-.
  - destruct (Hname "signer_name") as (text & Htext & ->).
    + exists 0%nat. split_and!; [done|done|]. intros j k' Hj. lia.
    + by injection Htext as <-.
Defined.

Lemma normalize_short (ps : list (string * string)) :
  normalizeEntries ((λ p, (p.1, JString p.2)) <$> ps)
  = Some ((λ p, {| it_role := p.1; it_image := Some p.2; it_name := None;
                   it_position := None |}) <$> ps).
Proof.
  induction ps as [|[r s] ps IH]; [done|].
  rewrite !fmap_cons. cbn [normalizeEntries normalizeEntry fst snd]. by rewrite IH.
Qed.

Lemma normalize_long (ps : list (string * string)) :
  Forall (λ p, p.2 ≠ "") ps →
  normalizeEntries ((λ p, (p.1, JObject [("image", JString p.2)])) <$> ps)
  = Some ((λ p, {| it_role := p.1; it_image := Some p.2; it_name := None;
                   it_position := None |}) <$> ps).
Proof.
  induction 1 as [|[r s] ps Hs _ IH]; [done|].
  rewrite !fmap_cons. cbn [normalizeEntries fst snd]. rewrite IH.
  assert (normalizeEntry r (JObject [("image", JString s)])
          = Some {| it_role := r; it_image := Some s; it_name := None;
                    it_position := None |}) as ->; [|done].
  simpl in Hs. unfold normalizeEntry, nameOf, positionOf, imageOf, field. simpl.
  unfold orElse. simpl. by destruct s.
Qed.

(** X15: the two forms of the payload are interchangeable.  A body that
    gives every role its image as a plain string and the body that gives
    it as an object with the property image (the images not being empty)
    are normalized to the same items, without an exception, so each
    signing route answers both alike and leaves the same tables. *)
Theorem X15_short_and_long_form_agree (party : Party) (env : Env) (doc : string)
    (ps : list (string * string)) (db : Database) :
  Forall (λ p, p.2 ≠ "") ps →
  let items := (λ p, {| it_role := p.1; it_image := Some p.2; it_name := None;
                        it_position := None |}) <$> ps in
  normalizeSignaturesPayload (Some (shortForm ps)) = Some items
  ∧ normalizeSignaturesPayload (Some (longForm ps))
    = normalizeSignaturesPayload (Some (shortForm ps))
  ∧ signRequest party env doc (Some (longForm ps)) db
    = signRequest party env doc (Some (shortForm ps)) db
  ∧ signRequest party env doc (Some (shortForm ps)) db
    = Some (signRoute party env doc items db).
Proof.
  intros Hne items.
  assert (normalizeSignaturesPayload (Some (shortForm ps)) = Some items) as Hshort
    by apply normalize_short.
  assert (normalizeSignaturesPayload (Some (longForm ps)) = Some items) as Hlong
    by (by apply normalize_long).
  split_and!.
  - done.
  - by rewrite Hshort, Hlong.
  - unfold signRequest. by rewrite Hshort, Hlong.
  - unfold signRequest. by rewrite Hshort.
Qed.

Lemma X15_witness :
  Forall (λ p : string * string, p.2 ≠ "")
    [("customer_a", "data:image/png;base64,AAAA")]
  ∧ signRequest CUSTOMER sampleEnv "DOC-1"
      (Some (JObject [("customer_a",
                       JObject [("image", JString "data:image/png;base64,AAAA")])]))
      sampleDb
    = signRequest CUSTOMER sampleEnv "DOC-1"
        (Some (JObject [("customer_a", JString "data:image/png;base64,AAAA")]))
        sampleDb.
Proof.
  assert (Forall (λ p : string * string, p.2 ≠ "")
            [("customer_a", "data:image/png;base64,AAAA")])
    as Hne by (by apply Forall_singleton).
  split; [exact Hne|].
  pose proof (X15_short_and_long_form_agree CUSTOMER sampleEnv "DOC-1"
                [("customer_a", "data:image/png;base64,AAAA")] sampleDb Hne) as H.
  cbv zeta in H. by destruct H as (_ & _ & H & _).
Defined.

(** X16: a signing request whose body has no signatures property, or has
    one that is neither an object nor an array (null, a boolean, a number,
    a string), is answered 400 "signatures required"; an empty object and
    an empty array are answered 400 "signatures payload is empty".  In
    both cases no statement is sent to the database. *)
Theorem X16_body_without_signatures (party : Party) (env : Env) (doc : string)
    (signatures : option Json) (db : Database) :
  ((∀ ps, signatures ≠ Some (JObject ps)) → (∀ l, signatures ≠ Some (JArray l)) →
   signRequest party env doc signatures db
   = Some (bad 400 "signatures required", fresh db))
  ∧ (signatures = Some (JObject []) ∨ signatures = Some (JArray []) →
     signRequest party env doc signatures db
     = Some (bad 400 "signatures payload is empty", fresh db)).
Proof.
  split.
  - intros Hobj Harr. unfold signRequest.
    destruct signatures as [[|b|shown|s|l|ps]|]; simpl; try done.
    + by destruct b.
    + by destruct (String.eqb shown "0").
    + by destruct s.
    + by destruct (Harr l).
    + by destruct (Hobj ps).
  - intros [->| ->]; unfold signRequest; simpl; by destruct party.
Qed.

(** ** The address test *)

Lemma append_eq_nil (s t : string) : s +:+ t = "" → s = "" ∧ t = "".
Proof. destruct s; [by rewrite append_nil_l|by rewrite append_cons]. Qed.

Lemma append_eq_cons (s t : string) (c : ascii) (u : string) :
  s +:+ t = String c u →
  (s = "" ∧ t = String c u) ∨ ∃ s', s = String c s' ∧ u = s' +:+ t.
Proof.
  destruct s as [|d s'].
  - rewrite append_nil_l. by left.
  - rewrite append_cons. intros [= -> <-]. right. by exists s'.
Qed.

Lemma nullable_lang (r : Re) : nullable r = true ↔ lang r "".
Proof.
  split.
  - induction r as [| |p|a IHa b IHb|a IHa b IHb|a IHa]; simpl; try done.
    + intros _. constructor.
    + intros [Ha Hb]%andb_true_iff.
      change "" with ("" +:+ ""). constructor; auto.
    + intros [Ha|Hb]%orb_true_iff; [apply lang_alt_l|apply lang_alt_r]; auto.
    + intros _. constructor.
  - intros H. remember "" as s eqn:Hs. induction H as
      [|p c Hp|a b s t Ha IHa Hb IHb|a b s Ha IHa|a b s Hb IHb|a|a s t Ha IHa Ht IHt];
      simpl; try done.
    + apply append_eq_nil in Hs as [-> ->]. by rewrite IHa, IHb.
    + by rewrite IHa.
    + rewrite IHb by done. by destruct (nullable a).
Qed.

Lemma deriv_lang (c : ascii) (r : Re) (s : string) :
  lang (deriv c r) s ↔ lang r (String c s).
Proof.
  split.
  - revert s. induction r as [| |p|a IHa b IHb|a IHa b IHb|a IHa]; simpl; intros s H.
    + inversion H.
    + inversion H.
    + destruct (p c) eqn:Hp; inversion H; subst. by constructor.
    + inversion H as [| | | ? ? ? H1 | ? ? ? H2 | |]; subst.
      * inversion H1 as [| |? ? s1 s2 Hs1 Hs2| | | |]; subst.
        rewrite <- append_cons. constructor; auto.
      * destruct (nullable a) eqn:Hn; [|inversion H2].
        rewrite <- (append_nil_l (String c s)). constructor; [|auto].
        by apply nullable_lang.
    + inversion H; subst; [apply lang_alt_l|apply lang_alt_r]; auto.
    + inversion H as [| |? ? s1 s2 Hs1 Hs2| | | |]; subst.
      rewrite <- append_cons. constructor; auto.
  - intros H. remember (String c s) as t eqn:Ht. revert s Ht.
    induction H as
      [|p d Hp|a b s1 t1 Ha IHa Hb IHb|a b s1 Ha IHa|a b s1 Hb IHb|a
       |a s1 t1 Ha IHa Hstar IHstar]; intros s Ht; simpl.
    + done.
    + injection Ht as -> <-. rewrite Hp. constructor.
    + apply append_eq_cons in Ht as [[-> ->]|(s' & -> & ->)].
      * apply lang_alt_r. apply nullable_lang in Ha. rewrite Ha. by apply IHb.
      * apply lang_alt_l. constructor; [by apply IHa|done].
    + apply lang_alt_l. by apply IHa.
    + apply lang_alt_r. by apply IHb.
    + done.
    + apply append_eq_cons in Ht as [[-> ->]|(s' & -> & ->)].
      * by apply IHstar.
      * constructor; [by apply IHa|done].
Qed.

Lemma reMatch_lang (r : Re) (s : string) : reMatch r s = true ↔ lang r s.
Proof.
  revert r. induction s as [|c s IH]; intros r; simpl.
  - apply nullable_lang.
  - rewrite IH. apply deriv_lang.
Qed.

Lemma lang_star_class (p : ascii → bool) (w : string) :
  lang (ReStar (ReClass p)) w ↔ allChars p w = true.
Proof.
  split.
  - intros H. remember (ReStar (ReClass p)) as r eqn:Hr.
    induction H as [| | | | |a|a s t Ha _ Ht IHt]; try done.
    injection Hr as ->. inversion Ha; subst.
    rewrite append_cons, append_nil_l. simpl. rewrite IHt by done.
    by rewrite andb_true_r.
  - induction w as [|c w IH]; simpl; [intros _; constructor|].
    intros [Hc Hw]%andb_true_iff.
    change (String c w) with (String c "" +:+ w) at 1.
    rewrite append_cons, append_nil_l.
    rewrite <- (append_nil_l w), <- append_cons.
    constructor; [by constructor|auto].
Qed.

Lemma lang_plus_class (p : ascii → bool) (w : string) :
  lang (RePlus (ReClass p)) w ↔ Js.truthy w = true ∧ allChars p w = true.
Proof.
  unfold RePlus. split.
  - intros H. inversion H as [| |? ? s t Hs Ht| | | |]; subst.
    inversion Hs; subst. rewrite append_cons, append_nil_l. simpl.
    apply lang_star_class in Ht. by rewrite Ht, andb_true_r.
  - destruct w as [|c w]; simpl; [by intros [? _]|].
    intros [_ [Hc Hw]%andb_true_iff].
    rewrite <- (append_nil_l w), <- append_cons.
    constructor; [by constructor|by apply lang_star_class].
Qed.

Lemma lang_char (c : ascii) (w : string) :
  lang (ReClass (Ascii.eqb c)) w ↔ w = String c "".
Proof.
  split.
  - intros H. inversion H as [|p d Hd| | | | |]; subst.
    apply Ascii.eqb_eq in Hd. by subst.
  - intros ->. constructor. apply Ascii.eqb_refl.
Qed.

Lemma plainWord_lang (w : string) :
  lang (RePlus (ReClass plainChar)) w ↔ plainWord w = true.
Proof. rewrite lang_plus_class. unfold plainWord. by rewrite andb_true_iff. Qed.

Lemma emailRe_lang (t : string) :
  lang emailRe t ↔
  ∃ a b c, t = a +:+ "@" +:+ b +:+ "." +:+ c
           ∧ plainWord a = true ∧ plainWord b = true ∧ plainWord c = true.
Proof.
  unfold emailRe. split.
  - intros H.
    inversion H as [| |? ? a r1 Ha H1| | | |]; subst.
    inversion H1 as [| |? ? at' r2 Hat H2| | | |]; subst.
    inversion H2 as [| |? ? b r3 Hb H3| | | |]; subst.
    inversion H3 as [| |? ? dot c Hdot Hc| | | |]; subst.
    apply lang_char in Hat as ->. apply lang_char in Hdot as ->.
    exists a, b, c. by rewrite <- !plainWord_lang.
  - intros (a & b & c & -> & Ha & Hb & Hc).
    constructor; [by apply plainWord_lang|].
    constructor; [by apply lang_char|].
    constructor; [by apply plainWord_lang|].
    constructor; [by apply lang_char|by apply plainWord_lang].
Qed.

Lemma allChars_app (p : ascii → bool) (a b : string) :
  allChars p (a +:+ b) = allChars p a && allChars p b.
Proof.
  induction a as [|c a IH]; [by rewrite append_nil_l|].
  rewrite append_cons. simpl. by rewrite IH, andb_assoc.
Qed.

Lemma allChars_impl (p q : ascii → bool) (w : string) :
  (∀ c, p c = true → q c = true) → allChars p w = true → allChars q w = true.
Proof.
  intros Hpq. induction w as [|c w IH]; [done|]. simpl.
  intros [Hc Hw]%andb_true_iff. by rewrite (Hpq c Hc), IH.
Qed.

Lemma textOf_string (s : string) : textOf (Some (JString s)) = Some s.
Proof. by destruct s. Qed.

Lemma isEmail_text (e : option Json) :
  isEmail e = Some true ↔
  ∃ text a b c, textOf e = Some text
                ∧ Js.trim text = a +:+ "@" +:+ b +:+ "." +:+ c
                ∧ plainWord a = true ∧ plainWord b = true ∧ plainWord c = true.
Proof.
  unfold isEmail. destruct (textOf e) as [text|]; simpl.
  - split.
    + intros [= H]. apply reMatch_lang, emailRe_lang in H as (a & b & c & ?).
      by exists text, a, b, c.
    + intros (? & a & b & c & [= <-] & H). f_equal.
      apply reMatch_lang, emailRe_lang. by exists a, b, c.
  - split; [done|]. by intros (? & ? & ? & ? & ? & _).
Qed.

Lemma email_no_ws (a b c : string) :
  plainWord a = true → plainWord b = true → plainWord c = true →
  allChars (λ ch, negb (Js.is_ws ch)) (a +:+ "@" +:+ b +:+ "." +:+ c) = true.
Proof.
  unfold plainWord. intros [_ Ha]%andb_true_iff [_ Hb]%andb_true_iff
    [_ Hc]%andb_true_iff.
  assert (∀ w, allChars plainChar w = true →
               allChars (λ ch, negb (Js.is_ws ch)) w = true) as Hplain.
  { intros w. apply allChars_impl. intros ch. unfold plainChar.
    by destruct (Js.is_ws ch). }
  by rewrite !allChars_app, (Hplain a Ha), (Hplain b Hb), (Hplain c Hc).
Qed.

(** X17: [isEmail] accepts a value exactly when its text, with the white
    space at both ends removed, is a local part, one [@], and a domain with
    a dot inside: three non-empty runs of code units that contain neither
    white space nor [@], joined by [@] and by a dot.  An accepted text has
    no white space left once trimmed, the test gives the same answer on
    the trimmed text, and a value that is absent, null or an empty string
    is refused.  The text of a string is the string.  The test throws
    exactly on a truthy value that has no string form. *)
Theorem X17_isEmail_shape (e : option Json) :
  (isEmail e = Some true ↔
   ∃ text a b c, textOf e = Some text
                 ∧ Js.trim text = a +:+ "@" +:+ b +:+ "." +:+ c
                 ∧ plainWord a = true ∧ plainWord b = true ∧ plainWord c = true)
  ∧ (isEmail e = Some true →
     ∃ text, textOf e = Some text
             ∧ allChars (λ c, negb (Js.is_ws c)) (Js.trim text) = true)
  ∧ (∀ text, textOf e = Some text →
             isEmail (Some (JString (Js.trim text))) = isEmail e)
  ∧ (toBoolean e = false → isEmail e = Some false)
  ∧ (∀ s, textOf (Some (JString s)) = Some s)
  ∧ (isEmail e = None ↔ ∃ v, e = Some v ∧ toBoolean e = true ∧ jsString v = None).
Proof.
  split; [apply isEmail_text|]. split_and!.
  - intros (text & a & b & c & Ht & Hshape & Ha & Hb & Hc)%isEmail_text.
    exists text. split; [done|]. rewrite Hshape. by apply email_no_ws.
  - intros text Ht. unfold isEmail. rewrite textOf_string, Ht. simpl.
    by rewrite trim_idem.
  - intros Hf. unfold isEmail, textOf. destruct e as [v|]; [|done].
    by rewrite Hf.
  - apply textOf_string.
  - unfold isEmail, textOf. destruct e as [v|].
    + destruct (toBoolean (Some v)) eqn:Hv.
      * destruct (jsString v) eqn:Hj; cbn [fmap option_fmap option_map].
        -- split; [done|]. intros (? & [= <-] & _ & ?). congruence.
        -- split; [|done]. intros _. by exists v.
      * cbn [fmap option_fmap option_map]. split; [done|].
        by intros (? & _ & ? & _).
    + cbn [fmap option_fmap option_map]. split; [done|]. by intros (? & ? & _).
Qed.

(** ** POST /api/send-sign-email *)

Lemma setCustomerEmail_fields (address : string) (cid : Z) (x : Contract) :
  let x' := setCustomerEmail address cid x in
  c_id x' = c_id x ∧ document_id x' = document_id x ∧ config x' = config x
  ∧ status x' = status x ∧ company_email x' = company_email x
  ∧ final_sent_at x' = final_sent_at x
  ∧ customer_email x' = if bool_decide (c_id x = cid) then Some address
                        else customer_email x.
Proof. unfold setCustomerEmail. by case_bool_decide. Qed.

(** X18: the send-sign-email route, case by case.  Without an email or a
    document id it answers 400 "email & documentId required"; an email
    that has no string form is caught and answered 500 "Send email
    failed"; an email that fails [isEmail] is answered 400 "invalid
    email"; an unknown document id is answered 404 "Contract not found";
    in these cases nothing is changed.  Otherwise the trimmed address,
    which has no white space, is stored as customer_email of the contract
    found before the mail goes out: no other column, no other contract and
    no signature changes.  When the transporter accepts the mail the
    answer is 200, one mail went to the address and one row was added to
    email_logs; when it refuses, the answer is 500 "Send email failed",
    no log row is written, and the address stays stored. *)
Theorem X18_send_sign_email (env : Env) (email : option Json)
    (documentId : option string) (db : Database) (logs : list EmailLog) :
  let '(resp, desk) := sendSignEmailRoute env email documentId db logs in
  (toBoolean email = false ∨ optTruthy documentId = false →
   resp = bad 400 "email & documentId required" ∧ desk = (db, logs, []))
  ∧ (toBoolean email = true → optTruthy documentId = true →
     (isEmail email = None →
      resp = bad 500 "Send email failed" ∧ desk = (db, logs, []))
     ∧ (isEmail email = Some false →
        resp = bad 400 "invalid email" ∧ desk = (db, logs, []))
     ∧ (isEmail email = Some true →
        ∃ doc text,
          documentId = Some doc ∧ email ≫= jsString = Some text
          ∧ allChars (λ ch, negb (Js.is_ws ch)) (Js.trim text) = true
          ∧ (findContract doc db = None →
             resp = bad 404 "Contract not found" ∧ desk = (db, logs, []))
          ∧ ∀ c, findContract doc db = Some c →
              let address := Js.trim text in
              let db' := withCustomerEmail address (c_id c) db in
              db' = sendSignEmail doc text db
              ∧ signatures db' = signatures db
              ∧ (∀ i x, contracts db !! i = Some x →
                   ∃ x', contracts db' !! i = Some x'
                         ∧ c_id x' = c_id x ∧ document_id x' = document_id x
                         ∧ config x' = config x ∧ status x' = status x
                         ∧ company_email x' = company_email x
                         ∧ final_sent_at x' = final_sent_at x
                         ∧ customer_email x'
                           = if bool_decide (c_id x = c_id c) then Some address
                             else customer_email x)
              ∧ (sendMailError env (signMail address) = None →
                 resp = json (Message "Email sent successfully")
                 ∧ desk = (db',
                           logs ++ [ {| log_contract_id := c_id c;
                                        log_email := address |} ],
                           [signMail address]))
              ∧ (∀ err, sendMailError env (signMail address) = Some err →
                   resp = bad 500 "Send email failed" ∧ desk = (db', logs, [])))).
Proof.
  unfold sendSignEmailRoute.
  destruct (toBoolean email) eqn:Hemail; simpl.
  2:{ split; [done|]. by intros. }
  destruct (optTruthy documentId) eqn:Hdoc; simpl.
  2:{ split; [done|]. by intros. }
  destruct documentId as [doc|]; [|done]. simpl default.
  destruct email as [v|]; [|done].
  assert (textOf (Some v) = jsString v) as Htext by (unfold textOf; by rewrite Hemail).
  destruct (isEmail (Some v)) as [[|]|] eqn:He.
  2,3: by (split; [by intros [?|?]|intros _ _; split_and!; try done]).
  apply isEmail_text in He as (text & a & b & c' & Ht & Hshape & Ha & Hb & Hc).
  rewrite Htext in Ht. simpl mbind. rewrite Ht.
  assert (allChars (λ ch, negb (Js.is_ws ch)) (Js.trim text) = true) as Hws
    by (rewrite Hshape; by apply email_no_ws).
  assert (∀ c, findContract doc db = Some c →
               withCustomerEmail (Js.trim text) (c_id c) db = sendSignEmail doc text db)
    as Hsame by (intros c0 Hc0; unfold sendSignEmail; by rewrite Hc0).
  assert (∀ c i x, contracts db !! i = Some x →
            ∃ x', contracts (withCustomerEmail (Js.trim text) (c_id c) db) !! i
                  = Some x'
                  ∧ c_id x' = c_id x ∧ document_id x' = document_id x
                  ∧ config x' = config x ∧ status x' = status x
                  ∧ company_email x' = company_email x
                  ∧ final_sent_at x' = final_sent_at x
                  ∧ customer_email x'
                    = if bool_decide (c_id x = c_id c)
                      then Some (Js.trim text) else customer_email x)
    as Hrows.
  { intros c i x Hi. eexists. simpl. rewrite list_lookup_fmap, Hi. split; [done|].
    apply setCustomerEmail_fields. }
  destruct (findContract doc db) as [c|] eqn:Hfind.
  - destruct (sendMailError env (signMail (Js.trim text))) as [err|] eqn:Hmail;
      (split; [by intros [?|?]|]); intros _ _; (split_and!; try done);
      intros _; exists doc, text; (split_and!; try done);
      try (intros Hnone; congruence);
      intros c0 Hc0; rewrite Hfind in Hc0; injection Hc0 as <-; cbv zeta;
      (split_and!; auto; try done);
      first [ exact (Hrows c) | intros; congruence ].
  - split; [by intros [?|?]|]. intros _ _. split_and!; try done.
    intros _. exists doc, text. split_and!; try done.
    intros c0 Hc0. congruence.
Qed.

(** ** POST /api/contracts and GET /api/contracts/:documentId *)

Lemma findContract_create_other (doc d : string) (sigs : option (list SigSlot))
    (address : string) (db : Database) :
  d ≠ doc → findContract d (createContract doc sigs address db) = findContract d db.
Proof.
  intros Hne. unfold findContract, createContract. simpl.
  rewrite filter_app, filter_cons_False, filter_nil, app_nil_r; [done|].
  simpl. congruence.
Qed.

Lemma findContract_create_fresh (doc : string) (sigs : option (list SigSlot))
    (address : string) (db : Database) :
  findContract doc db = None →
  findContract doc (createContract doc sigs address db)
  = Some {| c_id := nextId (contracts db); document_id := doc; config := Parsed sigs;
            status := PENDING; company_email := Some address;
            customer_email := None; final_sent_at := None |}.
Proof.
  unfold findContract, createContract. simpl. intros Hnone.
  rewrite filter_app, filter_cons_True, filter_nil by done.
  destruct (filter _ (contracts db)); [done|done].
Qed.

Lemma slotOf_throws (s : Json) :
  slotOf s = None →
  ∃ y, (field s "role" = Some y ∨ field s "id" = Some y) ∧ jsString y = None.
Proof.
  unfold slotOf.
  set (idText := match field s "id" with
                 | None | Some JNull => Some None
                 | Some i => Some <$> jsString i
                 end).
  assert (idText = None → ∃ y, field s "id" = Some y ∧ jsString y = None) as Hid.
  { unfold idText. destruct (field s "id") as [i|]; [|done].
    destruct (jsString i) as [text|] eqn:Hj; [by destruct i|].
    intros _. by exists i. }
  assert (∀ f : option string → SigSlot, f <$> idText = None →
            ∃ y, (field s "role" = Some y ∨ field s "id" = Some y)
                 ∧ jsString y = None) as Hrest.
  { intros f Hf. destruct idText; [done|].
    destruct (Hid eq_refl) as (y & Hy & Hnone). by eauto. }
  clearbody idText.
  destruct (field s "role") as [r|]; [|by apply Hrest].
  destruct (jsString r) as [text|] eqn:Hj.
  - destruct r; try (by apply Hrest);
      (destruct (safeStr (Some text) 100); [done|by apply Hrest]).
  - destruct r; try done; intros _; eexists; (split; [by left|done]).
Qed.

Lemma configOf_throws (v : Json) :
  configOf v = None →
  ∃ l s y, field v "signatures" = Some (JArray l) ∧ s ∈ l
           ∧ (field s "role" = Some y ∨ field s "id" = Some y) ∧ jsString y = None.
Proof.
  unfold configOf. destruct (field v "signatures") as [[| | | |l|]|]; try done.
  destruct (mapM slotOf l) as [slots|] eqn:Hm; [done|]. intros _.
  assert (¬ is_Some (mapM slotOf l)) as Hnot by (rewrite Hm; by intros [? ?]).
  rewrite mapM_is_Some in Hnot. apply not_Forall_Exists in Hnot; [|apply _].
  apply Exists_exists in Hnot as (s & Hs & Hnone).
  assert (slotOf s = None) as Hslot.
  { simpl in Hnone. destruct (slotOf s); [|done]. exfalso. apply Hnone. by eauto. }
  destruct (slotOf_throws s Hslot) as (y & Hy & Hj). by exists l, s, y.
Qed.

(** X19: a contract that is created can be fetched.  The create route
    refuses a missing or falsy config with 400 "config required" and, for
    a truthy config, a server without COMPANY_EMAIL with 500, and then
    writes nothing.  Otherwise it answers with the document id
    DOC-<clock>; when no contract had that id, the fetch route finds the
    new row: it is PENDING, holds the roles of the configuration that was
    submitted and the company address, has no customer address and no
    final_sent_at, and its key is new.  The signatures and the answer of
    a lookup by any other document id are as before.  Only a creation
    writes.  (A configuration is left without description only when the
    string form of one of its roles or ids throws.) *)
Theorem X19_create_then_get (companyEmail : option string) (dateNow : Z)
    (cfg : option Json) (db : Database) :
  (toBoolean cfg = false →
   createContractRoute companyEmail dateNow cfg db
   = Some (ReplyMessage 400 "config required", db))
  ∧ (toBoolean cfg = true → optTruthy companyEmail = false →
     createContractRoute companyEmail dateNow cfg db
     = Some (ReplyMessage 500 "Server misconfiguration: COMPANY_EMAIL not set", db))
  ∧ (∀ v address sigs,
       cfg = Some v → toBoolean cfg = true →
       companyEmail = Some address → address ≠ "" →
       configOf v = Some sigs →
       let doc := "DOC-" +:+ pretty dateNow in
       let db' := createContract doc sigs address db in
       createContractRoute companyEmail dateNow cfg db = Some (ReplyCreated doc, db')
       ∧ signatures db' = signatures db
       ∧ (∀ d, d ≠ doc → getContractRoute d db' = getContractRoute d db)
       ∧ (findContract doc db = None →
          ∃ row,
            getContractRoute doc db' = ReplyContract row
            ∧ document_id row = doc
            ∧ status row = PENDING
            ∧ config row = Parsed sigs
            ∧ company_email row = Some address
            ∧ customer_email row = None
            ∧ final_sent_at row = None
            ∧ c_id row ∉ (c_id <$> contracts db)))
  ∧ (∀ reply db', createContractRoute companyEmail dateNow cfg db = Some (reply, db') →
                  (∀ doc, reply ≠ ReplyCreated doc) → db' = db)
  ∧ (∀ v, configOf v = None →
          ∃ l s y, field v "signatures" = Some (JArray l) ∧ s ∈ l
                   ∧ (field s "role" = Some y ∨ field s "id" = Some y)
                   ∧ jsString y = None).
Proof.
  split_and!.
  - intros Hf. unfold createContractRoute. by rewrite Hf.
  - intros Ht He. unfold createContractRoute. by rewrite Ht, He.
  - intros v address sigs -> Ht -> Ha Hcfg doc db'.
    assert (Js.truthy address = true) as Htruthy by (by destruct address).
    unfold createContractRoute. rewrite Ht. simpl. rewrite Htruthy, Hcfg. simpl.
    split_and!; try done.
    + intros d Hd. unfold getContractRoute, db'.
      by rewrite findContract_create_other.
    + intros Hfresh. eexists. unfold getContractRoute, db'.
      rewrite findContract_create_fresh by done. simpl. split_and!; try done.
      intros (c & Hid & Hin)%list_elem_of_fmap.
      pose proof (nextId_fresh _ _ Hin) as Hlt. simpl in Hid. lia.
  - intros reply db'. unfold createContractRoute.
    destruct (toBoolean cfg); simpl; [|by intros [= <- <-]].
    destruct (optTruthy companyEmail); simpl; [|by intros [= <- <-]].
    destruct (cfg ≫= configOf); [|done].
    intros [= <- <-] H. by destruct (H ("DOC-" +:+ pretty dateNow)).
  - exact configOf_throws.
Qed.

(** ** The mutual-TLS agent of the signing authority *)

Ltac agent_goal :=
  first
    [ done
    | by eauto
    | by intros x [= <-]
    | split; intros ?;
      first [ done | by eauto
            | by match goal with H : is_Some None |- _ => destruct H end ]
    | intros p; match goal with
                | |- (if Js.truthy ?s then _ else _) = _ → _ =>
                    destruct s; [done|]; intros [= <-]; by eauto
                end ].

(** X20: when [buildOneAuthenAgent] returns, the agent keeps its
    connections alive and carries exactly one identity: the P12 bundle
    when ONEAUTHEN_P12_PATH is set, even if a certificate and a key are
    configured too, and otherwise the certificate with its key; a
    passphrase goes only with a bundle and is never empty; the CA chain is
    there exactly when ONEAUTHEN_CA_PATH is set; every content was read
    from a configured path that exists.  Without a P12 path and without
    both the certificate and the key path it throws before any file is
    looked at. *)
Theorem X20_agent_has_one_identity (paths : AgentPaths) (fs : Fs) :
  (∀ options, buildOneAuthenAgent paths fs = inr options →
     keepAlive options = true
     ∧ (is_Some (pfx options) ↔ ONEAUTHEN_P12_PATH paths ≠ "")
     ∧ (is_Some (cert options) ↔ ONEAUTHEN_P12_PATH paths = "")
     ∧ (is_Some (key options) ↔ is_Some (cert options))
     ∧ (is_Some (ca options) ↔ ONEAUTHEN_CA_PATH paths ≠ "")
     ∧ (∀ p, passphrase options = Some p →
             p = ONEAUTHEN_P12_PASSPHRASE paths ∧ p ≠ "" ∧ is_Some (pfx options))
     ∧ (∀ x, pfx options = Some x →
             existsSync fs (ONEAUTHEN_P12_PATH paths) = true
             ∧ readFileSync fs (ONEAUTHEN_P12_PATH paths) = inr x)
     ∧ (∀ x, cert options = Some x →
             existsSync fs (ONEAUTHEN_CERT_PATH paths) = true
             ∧ readFileSync fs (ONEAUTHEN_CERT_PATH paths) = inr x)
     ∧ (∀ x, key options = Some x →
             existsSync fs (ONEAUTHEN_KEY_PATH paths) = true
             ∧ readFileSync fs (ONEAUTHEN_KEY_PATH paths) = inr x)
     ∧ (∀ x, ca options = Some x →
             existsSync fs (ONEAUTHEN_CA_PATH paths) = true
             ∧ readFileSync fs (ONEAUTHEN_CA_PATH paths) = inr x))
  ∧ (ONEAUTHEN_P12_PATH paths = "" →
     ONEAUTHEN_CERT_PATH paths = "" ∨ ONEAUTHEN_KEY_PATH paths = "" →
     buildOneAuthenAgent paths fs
     = inl "Missing mTLS cert config: set ONEAUTHEN_P12_PATH or (ONEAUTHEN_CERT_PATH + ONEAUTHEN_KEY_PATH)").
Proof.
  assert (∀ s, Js.truthy s = true ↔ s ≠ "") as Htruthy by (by destruct s).
  assert (∀ s, Js.truthy s = false ↔ s = "") as Hfalsy by (by destruct s).
  split.
  - intros options. unfold buildOneAuthenAgent, agentIdentity.
    destruct (Js.truthy (ONEAUTHEN_P12_PATH paths)) eqn:Hp12.
    + apply Htruthy in Hp12.
      destruct (existsSync fs (ONEAUTHEN_P12_PATH paths)) eqn:He; simpl; [|done].
      destruct (readFileSync fs (ONEAUTHEN_P12_PATH paths)) as [err|bundle] eqn:Hr;
        [done|].
      destruct (Js.truthy (ONEAUTHEN_CA_PATH paths)) eqn:Hca.
      * apply Htruthy in Hca.
        destruct (existsSync fs (ONEAUTHEN_CA_PATH paths)) eqn:Hec; simpl; [|done].
        destruct (readFileSync fs (ONEAUTHEN_CA_PATH paths)) as [err|chain] eqn:Hrc;
          [done|].
        intros [= <-]. simpl. split_and!; agent_goal.
      * apply Hfalsy in Hca.
        intros [= <-]. simpl. split_and!; agent_goal.
    + apply Hfalsy in Hp12.
      destruct (Js.truthy (ONEAUTHEN_CERT_PATH paths)) eqn:Hc; simpl; [|done].
      destruct (Js.truthy (ONEAUTHEN_KEY_PATH paths)) eqn:Hk; simpl; [|done].
      destruct (existsSync fs (ONEAUTHEN_CERT_PATH paths)) eqn:Hec; simpl; [|done].
      destruct (existsSync fs (ONEAUTHEN_KEY_PATH paths)) eqn:Hek; simpl; [|done].
      destruct (readFileSync fs (ONEAUTHEN_CERT_PATH paths)) as [err|certificate]
        eqn:Hrc; [done|].
      destruct (readFileSync fs (ONEAUTHEN_KEY_PATH paths)) as [err|secret]
        eqn:Hrk; [done|].
      destruct (Js.truthy (ONEAUTHEN_CA_PATH paths)) eqn:Hca.
      * apply Htruthy in Hca.
        destruct (existsSync fs (ONEAUTHEN_CA_PATH paths)) eqn:Hea; simpl; [|done].
        destruct (readFileSync fs (ONEAUTHEN_CA_PATH paths)) as [err|chain] eqn:Hra;
          [done|].
        intros [= <-]. simpl. split_and!; agent_goal.
      * apply Hfalsy in Hca.
        intros [= <-]. simpl. split_and!; agent_goal.
  - intros Hp12 Hmissing. unfold buildOneAuthenAgent, agentIdentity.
    rewrite Hp12. simpl. by destruct Hmissing as [-> | ->]; simpl;
      [|destruct (Js.truthy _)].
Qed.

(** ** The counts of the partial answer *)

Lemma requiredOf_NoDup (p : Party) (sigs : option (list SigSlot)) :
  NoDup (requiredOf p sigs).
Proof.
  unfold requiredOf. rewrite extract_keepFirst.
  destruct p; [rewrite split_customer|rewrite split_company];
    apply NoDup_filter, NoDup_keepFirst.
Qed.

Lemma withSignatures_backed (t : Z) (p : Party) (items : list Item) (db : Database)
    (contract : Contract) (sigs : option (list SigSlot)) :
  contract ∈ contracts db → config contract = Parsed sigs →
  Forall (λ it, it_role it ∈ requiredOf p sigs) items →
  Forall (rowBacked (contracts db)) (signatures db) →
  Forall (rowBacked (contracts db))
         (signatures (withSignatures t (c_id contract) p items db)).
Proof.
  intros Hin Hcfg Ha Hall.
  apply (withSignatures_Forall_key
           (λ cid r q, ∃ c sg, c ∈ contracts db ∧ c_id c = cid
                               ∧ config c = Parsed sg ∧ r ∈ requiredOf q sg));
    [exact Hall|].
  eapply Forall_impl; [exact Ha|]. intros it Hit. simpl. by exists contract, sigs.
Qed.

(** In a store that keeps its invariants the signed roles and the missing
    roles of a party make up its required roles. *)
Lemma signed_and_missing (p : Party) (sigs : option (list SigSlot))
    (contract : Contract) (db : Database) :
  NoDup (c_id <$> contracts db) →
  storeInv db →
  Forall (rowBacked (contracts db)) (signatures db) →
  contract ∈ contracts db → config contract = Parsed sigs →
  (signedCount p (c_id contract) db + length (missingOf p sigs (c_id contract) db)
   = length (requiredOf p sigs))%nat.
Proof.
  intros Hnd (Hu & Hp & Himg) Hback Hin Hcfg.
  unfold signedCount, missingOf.
  set (m := signedOf (groupSignaturesToMap
                        (selectSignatures (c_id contract) (signatures db))) p).
  set (signed := filter (λ r, storedImage db (c_id contract) p r) (requiredOf p sigs)).
  assert (dom m = list_to_set signed) as Hdom.
  { apply set_eq. intros r. rewrite elem_of_dom, elem_of_list_to_set.
    unfold signed. rewrite list_elem_of_filter. unfold storedImage.
    rewrite Exists_exists. split.
    - intros [row Hrow]. apply lookup_group_select in Hrow as (Hr & Hc & Hro & Hpa);
        [|done].
      rewrite Forall_forall in Hback. unfold imagesPresent in Himg.
      rewrite Forall_forall in Himg.
      destruct (Hback row Hr) as (c' & sg & Hin' & Hid' & Hcfg' & Hreq).
      assert (c' = contract) as -> by (eapply ids_inj; eauto; congruence).
      rewrite Hcfg in Hcfg'. injection Hcfg' as <-.
      split.
      + exists row. split_and!; try done. by apply isDataUrl_truthy, Himg.
      + by rewrite <- Hro, <- Hpa.
    - intros [(row & Hr & Hc & Hro & Hpa & _) _].
      exists row. apply lookup_group_select; [done|]. by split_and!. }
  rewrite <- (size_dom m), Hdom.
  rewrite size_list_to_set by apply NoDup_filter, requiredOf_NoDup.
  rewrite <- (length_app signed).
  apply Permutation_length. unfold signed. apply filter_app_complement.
Qed.

Lemma companySign_answered (env : Env) (doc : string) (items : list Item)
    (db : Database) (resp : Response) (s : Sys) :
  companySignUntilMail env doc items (fresh db) = (Respond resp, s) →
  companySign env doc items db = (resp, s).
Proof.
  intros H. unfold companySign, companySignRoute, bind. by rewrite H.
Qed.

(** X21: in every reachable state, when a signing route answers with the
    partial message, its three figures fit: the number of signed roles
    plus the number of missing roles is the number of required roles of
    the party; the missing list is not empty and names each role once; the
    payload was committed and the status of the contract was left as it
    was. *)
Theorem X21_partial_answer_counts (party : Party) (env : Env) (doc : string)
    (items : list Item) (w : World) (message : string) (signedN requiredN : nat)
    (missing : list string) :
  reachable w →
  (signRoute party env doc items (tables w)).1
  = json (MessagePartial message signedN requiredN missing) →
  let s' := (signRoute party env doc items (tables w)).2 in
  (signedN + length missing = requiredN)%nat
  ∧ missing ≠ [] ∧ NoDup missing
  ∧ contracts (committed s') = contracts (tables w)
  ∧ ∃ contract sigs,
      findContract doc (tables w) = Some contract ∧ config contract = Parsed sigs
      ∧ status contract = expectedStatus party
      ∧ requiredN = length (requiredOf party sigs)
      ∧ missing = missingOf party sigs (c_id contract) (committed s')
      ∧ committed s' = withSignatures (now env) (c_id contract) party items (tables w).
Proof.
  intros Hreach Hresp s'.
  pose proof (reachable_serverInv w Hreach) as (Hnd & Hstore & Hback & _).
  assert (∀ contract sigs,
            findContract doc (tables w) = Some contract →
            config contract = Parsed sigs →
            Forall (λ it, itemValid it) items →
            Forall (λ it, it_role it ∈ requiredOf party sigs) items →
            let db' := withSignatures (now env) (c_id contract) party items (tables w) in
            (signedCount party (c_id contract) db'
             + length (missingOf party sigs (c_id contract) db')
             = length (requiredOf party sigs))%nat
            ∧ NoDup (missingOf party sigs (c_id contract) db')) as Hcount.
  { intros contract sigs Hfind Hcfg Hv Ha db'.
    apply findContract_elem in Hfind. split.
    - apply (signed_and_missing party sigs contract db').
      + exact Hnd.
      + unfold db'. apply withSignatures_storeInv; [done| |done].
        by eapply allowed_classOf.
      + exact (withSignatures_backed (now env) party items (tables w) contract sigs
                 Hfind Hcfg Ha Hback).
      + exact Hfind.
      + exact Hcfg.
    - apply NoDup_filter, requiredOf_NoDup. }
  destruct (decide (items = [])) as [->|Hitems].
  { by destruct party. }
  destruct party; simpl signRoute in *.
  - pose proof (customerSign_cases env doc items (tables w)) as Hc.
    destruct (customerSign env doc items (tables w)) as [resp s0] eqn:Hrun.
    simpl in Hresp. subst resp. subst s'. simpl.
    destruct Hc as [(_ & _ & Hbad & _)
                   |(contract & sigs & Hfind & Hst & Hcfg & Hv & Ha & _)];
      [simpl in Hbad; lia|].
    pose proof (customerSign_accepted env doc items (tables w) contract sigs
                  (proj1 Hstore) Hitems Hfind Hst Hcfg Hv Ha) as Hacc.
    cbv zeta in Hacc. rewrite Hrun in Hacc.
    destruct (Hcount contract sigs Hfind Hcfg Hv Ha) as [Hsum Hnodup].
    destruct Hacc as [(Hne & Hdb & _ & Hr)|(_ & _ & [(_ & _ & Hr)
                     |[(_ & _ & _ & Hr)|(_ & err & _ & _ & Hr)]])]; try done.
    injection Hr as -> -> -> ->. rewrite Hdb.
    split_and!; try done. exists contract, sigs. by split_and!.
  - pose proof (companySignUntilMail_cases env doc items (tables w)) as Hc.
    destruct (companySignUntilMail env doc items (fresh (tables w))) as [r s0] eqn:Hrun.
    destruct Hc as [(_ & _ & (resp & -> & Hbad) & _)
                   |(contract & sigs & Hfind & Hst & Hcfg & Hv & Ha & _)].
    { rewrite (companySign_answered _ _ _ _ _ _ Hrun) in Hresp. simpl in Hresp.
      subst resp. simpl in Hbad. lia. }
    pose proof (companySign_accepted env doc items (tables w) contract sigs
                  (proj1 Hstore) Hitems Hfind Hst Hcfg Hv Ha) as Hacc.
    cbv zeta in Hacc. subst s'.
    destruct (companySign env doc items (tables w)) as [resp s1] eqn:Hrun'.
    simpl in Hresp. subst resp. simpl.
    destruct (Hcount contract sigs Hfind Hcfg Hv Ha) as [Hsum Hnodup].
    destruct Hacc as [(Hne & Hdb & _ & Hr)|(_ & H)].
    + injection Hr as -> -> -> ->. rewrite Hdb.
      split_and!; try done. exists contract, sigs. by split_and!.
    + destruct H as [(_ & _ & _ & Hr)
                    |[(_ & _ & _ & _ & Hr)
                     |(_ & _ & [(err & _ & _ & _ & Hr)
                               |[(rd & err & _ & _ & _ & _ & Hr)
                                |[(rd & pdf & err & _ & _ & _ & _ & _ & Hr)
                                 |(rd & pdf & _ & _ & _ & _ & _ & Hr)]]])]];
        done.
Qed.

Lemma X21_witness :
  reachable worldCreated
  ∧ (1 + length ["customer_b"] = 2)%nat.
Proof.
  destruct sample_run as [Hreach _].
  split; [exact Hreach|].
  assert ((signRoute CUSTOMER sampleEnv "DOC-1" [sampleItem "customer_a"]
             (tables worldCreated)).1
          = json (MessagePartial "Customer signed partially" 1 2 ["customer_b"]))
    as Hresp by (vm_compute; reflexivity).
  exact (proj1 (X21_partial_answer_counts CUSTOMER sampleEnv "DOC-1"
                  [sampleItem "customer_a"] worldCreated _ _ _ _ Hreach Hresp)).
Defined.

(** ** A completed call is final *)

Lemma findContract_fmap (f : Contract → Contract) (doc : string) (db db' : Database) :
  (∀ c, document_id (f c) = document_id c) →
  contracts db' = f <$> contracts db →
  findContract doc db' = f <$> findContract doc db.
Proof.
  intros Hf Hc. unfold findContract. rewrite Hc. clear Hc.
  induction (contracts db) as [|a l IH]; [done|].
  rewrite fmap_cons, !filter_cons, Hf.
  destruct (decide (document_id a = doc)); [done|exact IH].
Qed.

Lemma setStatus_document (cid : Z) (st : Status) (c : Contract) :
  document_id (setStatus cid st c) = document_id c.
Proof. unfold setStatus. by case_bool_decide. Qed.

Lemma setFinalSent_document (t cid : Z) (c : Contract) :
  document_id (setFinalSent t cid c) = document_id c.
Proof. unfold setFinalSent. by case_bool_decide. Qed.

Lemma setStatus_own (st : Status) (c : Contract) :
  status (setStatus (c_id c) st c) = st.
Proof. unfold setStatus. by rewrite bool_decide_eq_true_2. Qed.

(** A call on a contract that is not in the state of its party. *)
Lemma guard_rejects (party : Party) (env : Env) (doc : string) (items : list Item)
    (db : Database) (contract : Contract) (g : Guard) :
  items ≠ [] →
  findContract doc db = Some contract →
  violatedGuard party (status contract) = Some g →
  let '(resp, s') := signRoute party env doc items db in
  resp = guardAnswer g ∧ committed s' = db ∧ outbox s' = []
  ∧ Forall (λ st, ¬ isWrite st) (issued s').
Proof.
  intros Hitems Hfind Hg.
  destruct party; simpl signRoute.
  - unfold customerSign, customerSignRoute.
    rewrite bool_decide_eq_false_2 by done.
    open_transaction. rewrite Hfind.
    destruct (status contract) eqn:Hst; simpl in Hg; [done| |];
      injection Hg as <-; simpl; split_and!; try done;
      repeat constructor; simpl; tauto.
  - unfold companySign, companySignRoute, companySignUntilMail.
    rewrite bool_decide_eq_false_2 by done.
    unfold bind at 1. open_transaction. rewrite Hfind.
    rewrite (bool_decide_eq_false_2 (status contract = CUSTOMER_SIGNED))
      by (by destruct (status contract)).
    assert (g = NotReadyForCompany) as ->
      by (destruct (status contract); simpl in Hg; congruence).
    simpl. split_and!; try done. repeat constructor; simpl; tauto.
Qed.

(** X22: a call that completes the signatures of its party is final.
    After a customer-sign or company-sign call whose payload passes the
    checks and leaves no required role of the party without a stored
    image, every further call of the same route on the document, whatever
    it submits, is refused by the status guard (409 "Customer already
    signed", 400 "Contract is not ready for company sign") and changes
    nothing; this holds too when the first call answered 500 because a
    mail or the PDF failed after the commit. *)
Theorem X22_completing_call_is_final (party : Party) (env env' : Env) (doc : string)
    (items items' : list Item) (db : Database) (contract : Contract)
    (sigs : option (list SigSlot)) :
  uniqueKey (signatures db) →
  items ≠ [] →
  findContract doc db = Some contract →
  status contract = expectedStatus party →
  config contract = Parsed sigs →
  Forall (λ it, itemValid it) items →
  Forall (λ it, it_role it ∈ requiredOf party sigs) items →
  missingOf party sigs (c_id contract)
    (withSignatures (now env) (c_id contract) party items db) = [] →
  items' ≠ [] →
  let db1 := committed (signRoute party env doc items db).2 in
  let '(resp, s') := signRoute party env' doc items' db1 in
  resp = guardAnswer (match party with
                      | CUSTOMER => CustomerAlreadySigned
                      | COMPANY => NotReadyForCompany
                      end)
  ∧ committed s' = db1 ∧ outbox s' = []
  ∧ Forall (λ st, ¬ isWrite st) (issued s').
Proof.
  intros Hu Hitems Hfind Hst Hcfg Hv Ha Hnil Hitems' db1.
  assert (∃ c1, findContract doc db1 = Some c1 ∧ status c1 = nextStatus party)
    as (c1 & Hfind1 & Hst1).
  { subst db1. destruct party; simpl signRoute; simpl in Hst.
    - pose proof (customerSign_accepted env doc items db contract sigs
                    Hu Hitems Hfind Hst Hcfg Hv Ha) as Hacc.
      cbv zeta in Hacc.
      destruct (customerSign env doc items db) as [resp s1]. simpl.
      destruct Hacc as [(Hne & _)|(_ & Hdb & _)]; [done|].
      exists (setStatus (c_id contract) CUSTOMER_SIGNED contract).
      rewrite (findContract_fmap (setStatus (c_id contract) CUSTOMER_SIGNED) doc db);
        [|apply setStatus_document|by rewrite Hdb].
      rewrite Hfind. split; [done|]. apply setStatus_own.
    - pose proof (companySign_accepted env doc items db contract sigs
                    Hu Hitems Hfind Hst Hcfg Hv Ha) as Hacc.
      cbv zeta in Hacc.
      destruct (companySign env doc items db) as [resp s1]. simpl.
      destruct Hacc as [(Hne & _)|(_ & H)]; [done|].
      assert (committed s1 = withStatus (c_id contract) COMPLETED db
                               (withSignatures (now env) (c_id contract) COMPANY
                                  items db)
              ∨ committed s1
                = markFinalSent (now env) (c_id contract)
                    (withStatus (c_id contract) COMPLETED db
                       (withSignatures (now env) (c_id contract) COMPANY items db)))
        as [Hdb|Hdb].
      { destruct H as [(_ & Hdb & _)
                      |[(_ & _ & Hdb & _)
                       |(_ & _ & [(err & _ & Hdb & _)
                                 |[(rd & err & _ & _ & Hdb & _)
                                  |[(rd & pdf & err & _ & _ & _ & Hdb & _)
                                   |(rd & pdf & _ & _ & _ & Hdb & _)]]])]]; auto. }
      + exists (setStatus (c_id contract) COMPLETED contract).
        rewrite (findContract_fmap (setStatus (c_id contract) COMPLETED) doc db);
          [|apply setStatus_document|by rewrite Hdb].
        rewrite Hfind. split; [done|]. apply setStatus_own.
      + exists (setFinalSent (now env) (c_id contract)
                  (setStatus (c_id contract) COMPLETED contract)).
        rewrite (findContract_fmap
                   (setFinalSent (now env) (c_id contract)
                    ∘ setStatus (c_id contract) COMPLETED) doc db).
        * rewrite Hfind. split; [done|]. simpl.
          rewrite setFinalSent_status. apply setStatus_own.
        * intros c. simpl. by rewrite setFinalSent_document, setStatus_document.
        * rewrite Hdb. simpl. by rewrite <- list_fmap_compose. }
  apply (guard_rejects party env' doc items' db1 c1); [done|done|].
  rewrite Hst1. by destruct party.
Qed.

Lemma X22_witness :
  let db1 := committed (customerSign sampleEnv "DOC-1"
                          [sampleItem "customer_a"; sampleItem "customer_b"]
                          sampleDb).2 in
  (customerSign sampleEnv "DOC-1" [sampleItem "customer_a"] db1).1
  = bad 409 "Customer already signed".
Proof.
  intros db1.
  assert (uniqueKey (signatures sampleDb)) as H1 by constructor.
  assert ([sampleItem "customer_a"; sampleItem "customer_b"] ≠ []) as H2 by done.
  assert (findContract "DOC-1" sampleDb = Some (sampleContract PENDING None)) as H3
    by reflexivity.
  assert (Forall (λ it, itemValid it)
            [sampleItem "customer_a"; sampleItem "customer_b"]) as H4
    by (by repeat constructor).
  assert (Forall (λ it, it_role it ∈ requiredOf CUSTOMER sampleSlots)
            [sampleItem "customer_a"; sampleItem "customer_b"]) as H5
    by (repeat constructor; by_evaluation).
  assert (missingOf CUSTOMER sampleSlots 1
            (withSignatures (now sampleEnv) 1 CUSTOMER
               [sampleItem "customer_a"; sampleItem "customer_b"] sampleDb) = [])
    as H6 by (by vm_compute).
  assert ([sampleItem "customer_a"] ≠ []) as H7 by done.
  pose proof (X22_completing_call_is_final CUSTOMER sampleEnv sampleEnv "DOC-1"
                [sampleItem "customer_a"; sampleItem "customer_b"]
                [sampleItem "customer_a"] sampleDb (sampleContract PENDING None)
                sampleSlots H1 H2 H3 eq_refl eq_refl H4 H5 H6 H7) as H.
  cbv zeta in H. simpl signRoute in H. fold db1 in H.
  destruct (customerSign sampleEnv "DOC-1" [sampleItem "customer_a"] db1)
    as [resp s'].
  by destruct H as [-> _].
Defined.
